(** * The team-builder store (store.tsx), embedded in Rocq

    The store keeps a node/edge graph, a bounded undo/redo history of
    snapshots, and component objects that several nodes, snapshots and
    participant lists may share.  Shared JavaScript objects are kept in an
    explicit heap, so that in-place assignments ([x.config.f = v],
    [arr.push(v)]) are visible through every alias; arrays of nodes and
    edges are only ever rebuilt ([[...state.nodes]], [map], [filter]) and
    are kept as plain lists. *)

From Stdlib Require Import String ZArith List Bool Lia PeanoNat.
Import ListNotations.
Local Open Scope string_scope.
Local Open Scope list_scope.
Local Open Scope Z_scope.

Set Implicit Arguments.

(** ** JavaScript helpers *)

Module JS.

(** [a || b] on possibly-undefined strings: the empty string is falsy. *)
Definition or_else (a b : option string) : option string :=
  match a with
  | Some s => if String.eqb s "" then b else a
  | None => b
  end.

(** [a || "literal"]. *)
Definition or_lit (a : option string) (d : string) : string :=
  match a with
  | Some s => if String.eqb s "" then d else s
  | None => d
  end.

(** Truthiness of a string used as a condition. *)
Definition truthy (s : string) : bool := negb (String.eqb s "").

(** Relative index normalisation of [Array.prototype.slice]. *)
Definition rel_index (len i : Z) : Z :=
  if i <? 0 then Z.max (len + i) 0 else Z.min i len.

(** [l.slice(start, stop)]. *)
Definition slice {A} (l : list A) (start stop : Z) : list A :=
  let len := Z.of_nat (length l) in
  let s := rel_index len start in
  let e := rel_index len stop in
  firstn (Z.to_nat (e - s)) (skipn (Z.to_nat s) l).

(** [l.slice(start)]. *)
Definition slice_from {A} (l : list A) (start : Z) : list A :=
  slice l start (Z.of_nat (length l)).

(** [l[i]] for a number [i]: [undefined] outside the array. *)
Definition index {A} (l : list A) (i : Z) : option A :=
  if i <? 0 then None else nth_error l (Z.to_nat i).

(** [l.findIndex(p)], with [-1] when nothing matches. *)
Fixpoint findIndex {A} (p : A -> bool) (l : list A) : Z :=
  match l with
  | [] => -1
  | x :: l' =>
      if p x then 0
      else let r := findIndex p l' in if r <? 0 then -1 else r + 1
  end.

End JS.

(** ** Data model *)

Definition loc := nat.

(** The fields of a component object other than [config]. *)
Record Header := mkHeader {
  provider : string;
  component_type : string;
  version : option Z;
  component_version : option Z;
  description : option string;
  label : option string
}.

(** A component object: [config] is a reference to its configuration
    object. *)
Record Component := mkComponent {
  header : Header;
  config : loc
}.

(** [config.workbench]: absent, a single component, or an array. *)
Inductive Workbench :=
| WbAbsent
| WbOne (c : loc)
| WbMany (a : loc).

(** A configuration object.  Only the fields the store reads or writes are
    named; [rest] carries the others.  Absent, [undefined] and [null]
    coincide: the store only ever tests them for truthiness. *)
Record Config := mkConfig {
  name : option string;
  participants : option loc;
  model_client : option loc;
  termination_condition : option loc;
  workbench : Workbench;
  tools : option loc;
  rest : list (string * string)
}.

Record Position := mkPosition { px : Z; py : Z }.

Record NodeData := mkNodeData {
  dlabel : option string;
  dcomponent : loc;
  dtype : string
}.

Record CustomNode := mkNode {
  nid : string;
  position : Position;
  ntype : string;
  data : NodeData
}.

Record CustomEdge := mkEdge {
  eid : string;
  source : string;
  target : string;
  sourceHandle : option string;
  targetHandle : option string;
  etype : option string
}.

(** [Partial<NodeData>]: a field is [None] when the key is not given. *)
Record NodeUpdates := mkUpdates {
  ulabel : option string;
  ucomponent : option loc;
  utype : option string
}.

Definition Snapshot : Type := list CustomNode * list CustomEdge.

Record TeamBuilderState := mkState {
  nodes : list CustomNode;
  edges : list CustomEdge;
  selectedNodeId : option string;
  history : list Snapshot;
  currentHistoryIndex : Z;
  originalComponent : option loc;
  teamId : option string
}.

Definition MAX_HISTORY : Z := 50.

(** ** The heap of shared objects *)

(** Components, configuration objects and arrays of components (an element
    may be [undefined]) live at locations; [next] is the first location
    never handed out. *)
Record Heap := mkHeap {
  comps : loc -> Component;
  confs : loc -> Config;
  arrs : loc -> list (option loc);
  next : loc
}.

Definition upd {A} (f : loc -> A) (l : loc) (v : A) : loc -> A :=
  fun l' => if Nat.eqb l' l then v else f l'.

(** Outcome of a call: a value, a thrown [TypeError], or recursion that
    does not come back within the given fuel. *)
Inductive Res (A : Type) :=
| Ok (a : A)
| TypeError
| OutOfFuel.
Arguments TypeError {A}.
Arguments OutOfFuel {A}.

(** Heap-passing computations.  The heap is returned even when the call
    throws: assignments made before the throw stay. *)
Definition M (A : Type) : Type := Heap -> Res A * Heap.

Definition ret {A} (a : A) : M A := fun h => (Ok a, h).

Definition bind {A B} (m : M A) (k : A -> M B) : M B :=
  fun h =>
    match m h with
    | (Ok a, h') => k a h'
    | (TypeError, h') => (TypeError, h')
    | (OutOfFuel, h') => (OutOfFuel, h')
    end.

Definition throw {A} : M A := fun h => (TypeError, h).
Definition diverge {A} : M A := fun h => (OutOfFuel, h).

Declare Scope heap_scope.
Delimit Scope heap_scope with heap.
Notation "x <- m ;; k" := (bind m (fun x => k))
  (at level 61, m at next level, right associativity) : heap_scope.
Notation "m ;;; k" := (bind m (fun _ => k))
  (at level 61, right associativity) : heap_scope.
Local Open Scope heap_scope.

Definition getComp (l : loc) : M Component := fun h => (Ok (comps h l), h).
Definition getConf (l : loc) : M Config := fun h => (Ok (confs h l), h).
Definition getArr (l : loc) : M (list (option loc)) :=
  fun h => (Ok (arrs h l), h).

Definition setConf (l : loc) (c : Config) : M unit :=
  fun h => (Ok tt, mkHeap (comps h) (upd (confs h) l c) (arrs h) (next h)).
Definition setArr (l : loc) (a : list (option loc)) : M unit :=
  fun h => (Ok tt, mkHeap (comps h) (confs h) (upd (arrs h) l a) (next h)).

Definition newComp (c : Component) : M loc :=
  fun h => (Ok (next h),
            mkHeap (upd (comps h) (next h) c) (confs h) (arrs h) (S (next h))).
Definition newConf (c : Config) : M loc :=
  fun h => (Ok (next h),
            mkHeap (comps h) (upd (confs h) (next h) c) (arrs h) (S (next h))).
Definition newArr (a : list (option loc)) : M loc :=
  fun h => (Ok (next h),
            mkHeap (comps h) (confs h) (upd (arrs h) (next h) a) (S (next h))).

(** [xs.map(f)] with an effectful [f], left to right. *)
Fixpoint mapM {A B} (f : A -> M B) (xs : list A) : M (list B) :=
  match xs with
  | [] => ret []
  | x :: xs' => y <- f x ;; ys <- mapM f xs' ;; ret (y :: ys)
  end.

(** [x.f.g] through an element that may be [undefined]. *)
Definition deref (p : option loc) : M loc :=
  match p with
  | Some l => ret l
  | None => throw
  end.

(** The header of the component at [c]. *)
Definition headerOf (c : loc) : M Header :=
  x <- getComp c ;; ret (header x).

(** The configuration object of the component at [c]. *)
Definition configOf (c : loc) : M Config :=
  x <- getComp c ;; getConf (config x).

(** ** Component values and [JSON.parse(JSON.stringify(component))] *)

(** A component as a JSON value: what [JSON.stringify] writes.  An array
    element may be [null]. *)
Inductive CTree :=
| CT (hd : Header) (nm : option string) (ps : OList) (mc : OTree)
     (tc : OTree) (wb : WTree) (tl : OList) (rs : list (string * string))
with OTree :=
| TNone
| TSome (t : CTree)
with OList :=
| LNone
| LSome (l : TList)
with TList :=
| TNil
| TCons (o : OTree) (l : TList)
with WTree :=
| WNone
| WOne (t : CTree)
| WMany (l : TList).

Scheme CTree_mind := Induction for CTree Sort Prop
  with OTree_mind := Induction for OTree Sort Prop
  with OList_mind := Induction for OList Sort Prop
  with TList_mind := Induction for TList Sort Prop
  with WTree_mind := Induction for WTree Sort Prop.
Combined Scheme tree_mutind from
  CTree_mind, OTree_mind, OList_mind, TList_mind, WTree_mind.

(** The deep clone: every object and array of the value is allocated
    afresh. *)
Fixpoint clone (t : CTree) : M loc :=
  match t with
  | CT hd nm ps mc tc wb tl rs =>
      ps' <- cloneOList ps ;;
      mc' <- cloneOTree mc ;;
      tc' <- cloneOTree tc ;;
      wb' <- cloneWTree wb ;;
      tl' <- cloneOList tl ;;
      cf <- newConf (mkConfig nm ps' mc' tc' wb' tl' rs) ;;
      newComp (mkComponent hd cf)
  end
with cloneOTree (o : OTree) : M (option loc) :=
  match o with
  | TNone => ret None
  | TSome t => c <- clone t ;; ret (Some c)
  end
with cloneOList (o : OList) : M (option loc) :=
  match o with
  | LNone => ret None
  | LSome l => xs <- cloneTList l ;; a <- newArr xs ;; ret (Some a)
  end
with cloneTList (l : TList) : M (list (option loc)) :=
  match l with
  | TNil => ret []
  | TCons o l' => x <- cloneOTree o ;; xs <- cloneTList l' ;; ret (x :: xs)
  end
with cloneWTree (w : WTree) : M Workbench :=
  match w with
  | WNone => ret WbAbsent
  | WOne t => c <- clone t ;; ret (WbOne c)
  | WMany l => xs <- cloneTList l ;; a <- newArr xs ;; ret (WbMany a)
  end.

(** ** What the store imports *)

(** The type guards (types/guards), the layout helpers and [getUniqueName]
    (./utils) are imported by store.tsx and defined elsewhere.  A guard
    decides on the fields of the component object itself; the layout
    helpers read the graph and the objects and return a new graph. *)
Class Env := mkEnv {
  isTeamComponent : Header -> bool;
  isAgentComponent : Header -> bool;
  isToolComponent : Header -> bool;
  isWorkbenchComponent : Header -> bool;
  isTerminationComponent : Header -> bool;
  isModelComponent : Header -> bool;
  isSelectorTeam : Header -> bool;
  isAssistantAgent : Header -> bool;
  isWebSurferAgent : Header -> bool;
  isStaticWorkbench : Header -> bool;
  getLayoutedElements :
    Heap -> list CustomNode -> list CustomEdge -> option string ->
    option bool -> list CustomNode * list CustomEdge;
  updateNodeDimensions :
    Heap -> list CustomNode -> list CustomEdge ->
    list CustomNode * list CustomEdge;
  getUniqueName : option string -> list (option string) -> string
}.

(** ** Record updates *)

Definition set_name (c : Config) (v : option string) : Config :=
  mkConfig v (participants c) (model_client c) (termination_condition c)
           (workbench c) (tools c) (rest c).
Definition set_participants (c : Config) (v : option loc) : Config :=
  mkConfig (name c) v (model_client c) (termination_condition c)
           (workbench c) (tools c) (rest c).
Definition set_model_client (c : Config) (v : option loc) : Config :=
  mkConfig (name c) (participants c) v (termination_condition c)
           (workbench c) (tools c) (rest c).
Definition set_termination_condition (c : Config) (v : option loc) : Config :=
  mkConfig (name c) (participants c) (model_client c) v
           (workbench c) (tools c) (rest c).
Definition set_workbench (c : Config) (v : Workbench) : Config :=
  mkConfig (name c) (participants c) (model_client c)
           (termination_condition c) v (tools c) (rest c).
Definition set_tools (c : Config) (v : option loc) : Config :=
  mkConfig (name c) (participants c) (model_client c)
           (termination_condition c) (workbench c) v (rest c).

Definition set_component (n : CustomNode) (c : loc) : CustomNode :=
  mkNode (nid n) (position n) (ntype n)
         (mkNodeData (dlabel (data n)) c (dtype (data n))).

(** The component object a node shows. *)
Definition component (n : CustomNode) : loc := dcomponent (data n).

(** ** History bookkeeping *)

(** [[...history.slice(0, currentHistoryIndex + 1), snap].slice(-MAX_HISTORY)] *)
Definition pushHistory (s : TeamBuilderState) (snap : Snapshot) : list Snapshot :=
  JS.slice_from
    (JS.slice (history s) 0 (currentHistoryIndex s + 1) ++ [snap])
    (- MAX_HISTORY).

(** The partial state every recording operation hands to [set]: new nodes
    and edges, the pushed history and the incremented index. *)
Definition recorded (s : TeamBuilderState) (ns : list CustomNode)
    (es : list CustomEdge) : TeamBuilderState :=
  mkState ns es (selectedNodeId s) (pushHistory s (ns, es))
          (currentHistoryIndex s + 1) (originalComponent s) (teamId s).

Definition initialState : TeamBuilderState :=
  mkState [] [] None [] (-1) None None.

Definition findNode (id : string) (ns : list CustomNode) : option CustomNode :=
  find (fun n => String.eqb (nid n) id) ns.

Definition isAgentConnection (e : CustomEdge) : bool :=
  match etype e with
  | Some t => String.eqb t "agent-connection"
  | None => false
  end.

Definition addEdge (edge : CustomEdge) (s : TeamBuilderState) : TeamBuilderState :=
  recorded s (nodes s) (edges s ++ [edge]).

Definition removeEdge (edgeId : string) (s : TeamBuilderState) : TeamBuilderState :=
  recorded s (nodes s)
           (filter (fun e => negb (String.eqb (eid e) edgeId)) (edges s)).

Definition setSelectedNode (nodeId : option string) (s : TeamBuilderState)
  : TeamBuilderState :=
  mkState (nodes s) (edges s) nodeId (history s) (currentHistoryIndex s)
          (originalComponent s) (teamId s).

(** [undo]: reading [.nodes] of a missing history entry throws. *)
Definition undo (s : TeamBuilderState) : Res TeamBuilderState :=
  if currentHistoryIndex s <=? 0 then Ok s
  else
    match JS.index (history s) (currentHistoryIndex s - 1) with
    | None => TypeError
    | Some previousState =>
        Ok (mkState (fst previousState) (snd previousState)
                    (selectedNodeId s) (history s)
                    (currentHistoryIndex s - 1)
                    (originalComponent s) (teamId s))
    end.

Definition redo (s : TeamBuilderState) : Res TeamBuilderState :=
  if currentHistoryIndex s >=? Z.of_nat (length (history s)) - 1 then Ok s
  else
    match JS.index (history s) (currentHistoryIndex s + 1) with
    | None => TypeError
    | Some nextState =>
        Ok (mkState (fst nextState) (snd nextState)
                    (selectedNodeId s) (history s)
                    (currentHistoryIndex s + 1)
                    (originalComponent s) (teamId s))
    end.

Definition resetHistory (s : TeamBuilderState) : TeamBuilderState :=
  mkState (nodes s) (edges s) (selectedNodeId s) [(nodes s, edges s)] 0
          (originalComponent s) (teamId s).

Definition addToHistory (s : TeamBuilderState) : TeamBuilderState :=
  mkState (nodes s) (edges s) (selectedNodeId s)
          (pushHistory s (nodes s, edges s)) (currentHistoryIndex s + 1)
          (originalComponent s) (teamId s).

(** ** The store's actions *)

Section Store.

Context {env : Env}.

Definition getHeap : M Heap := fun h => (Ok h, h).

(** Header of the component a node shows, read in heap [h]. *)
Definition headerAt (h : Heap) (c : loc) : Header := header (comps h c).

(** [normalizeWorkbenches]: the array itself when [workbench] is one, a
    new array otherwise. *)
Definition normalizeWorkbenches (w : Workbench) : M loc :=
  match w with
  | WbAbsent => newArr []
  | WbMany a => ret a
  | WbOne c => newArr [Some c]
  end.

(** [workbenches.findIndex((wb) => isStaticWorkbench(wb))]: the guard
    reads a field of [wb], which throws on a [null] element; elements
    after the first match are not visited. *)
Fixpoint findStaticWorkbench (ws : list (option loc)) : M Z :=
  match ws with
  | [] => ret (-1)
  | w :: ws' =>
      c <- deref w ;;
      hd <- headerOf c ;;
      if isStaticWorkbench hd then ret 0
      else
        r <- findStaticWorkbench ws' ;;
        ret (if r <? 0 then -1 else r + 1)
  end.

(** [t.config.name || t.label || "tool"] *)
Definition toolDisplayName (t : option loc) : M (option string) :=
  c <- deref t ;;
  x <- getComp c ;;
  cf <- getConf (config x) ;;
  ret (Some (JS.or_lit (JS.or_else (name cf) (label (header x))) "tool")).

Definition staticWorkbenchHeader : Header :=
  mkHeader "autogen_core.tools.StaticWorkbench" "workbench" (Some 1)
           (Some 1)
           (Some "A static workbench for managing custom tools")
           (Some "Static Workbench").

(** A model dropped on a node: [targetNode.data.component.config.model_client
    = clonedComponent], in place. *)
Definition assignModelClient (targetNode : CustomNode) (cloned : loc) : M unit :=
  tc <- getComp (component targetNode) ;;
  cf <- getConf (config tc) ;;
  setConf (config tc) (set_model_client cf (Some cloned)).

(** "Get or create workbenches array" (store.tsx lines 196-202 and
    300-307): an absent [config.workbench] becomes [[]], then the field
    is normalised. *)
Definition workbenchesOf (tcfg : loc) : M loc :=
  cf0 <- getConf tcfg ;;
  (match workbench cf0 with
   | WbAbsent =>
       a <- newArr [] ;; setConf tcfg (set_workbench cf0 (WbMany a))
   | _ => ret tt
   end) ;;;
  cf1 <- getConf tcfg ;;
  normalizeWorkbenches (workbench cf1).

(** "Create a new StaticWorkbench" (lines 210-224): a new array with the
    new workbench at its end replaces [config.workbench]. *)
Definition appendStaticWorkbench (tcfg : loc) (ws0 : list (option loc))
  : M (loc * Z) :=
  tl <- newArr [] ;;
  ncf <- newConf (mkConfig None None None None WbAbsent (Some tl) []) ;;
  newWorkbench <- newComp (mkComponent staticWorkbenchHeader ncf) ;;
  workbenches1 <- newArr (ws0 ++ [Some newWorkbench]) ;;
  cf2 <- getConf tcfg ;;
  setConf tcfg (set_workbench cf2 (WbMany workbenches1)) ;;;
  ret (workbenches1, Z.of_nat (length (ws0 ++ [Some newWorkbench])) - 1).

(** Lines 228-250, for [workbench = workbenches[staticWorkbenchIndex]]:
    the guard reads a field of it, which throws when it is [undefined]. *)
Definition addToolToWorkbench (wbElem : option (option loc)) (cloned : loc)
  : M unit :=
  match wbElem with
  | None => throw
  | Some None => throw
  | Some (Some wbc) =>
      wb <- getComp wbc ;;
      if isStaticWorkbench (header wb) then
        wcf0 <- getConf (config wb) ;;
        (match tools wcf0 with
         | None => a <- newArr [] ;; setConf (config wb) (set_tools wcf0 (Some a))
         | Some _ => ret tt
         end) ;;;
        wcf <- getConf (config wb) ;;
        toolsArr <- deref (tools wcf) ;;
        ts <- getArr toolsArr ;;
        cc <- getComp cloned ;;
        ccf <- getConf (config cc) ;;
        existing <- mapM toolDisplayName ts ;;
        let toolName :=
          getUniqueName
            (Some (JS.or_lit (JS.or_else (name ccf) (label (header cc))) "tool"))
            existing in
        setConf (config cc) (set_name ccf (Some toolName)) ;;;
        ts' <- getArr toolsArr ;;
        setArr toolsArr (ts' ++ [Some cloned])
      else ret tt
  end.

(** A tool dropped on an assistant agent (store.tsx lines 195-250). *)
Definition addToolToAgent (targetNode : CustomNode) (cloned : loc) : M unit :=
  tc <- getComp (component targetNode) ;;
  workbenches0 <- workbenchesOf (config tc) ;;
  ws0 <- getArr workbenches0 ;;
  i0 <- findStaticWorkbench ws0 ;;
  wi <- (if i0 =? -1 then appendStaticWorkbench (config tc) ws0
         else ret (workbenches0, i0)) ;;
  ws <- getArr (fst wi) ;;
  addToolToWorkbench (JS.index ws (snd wi)) cloned.

(** A termination condition dropped on a team: every node with the
    target id is rebuilt around a copy of its component and config. *)
Definition withTermination (targetNodeId : string) (cloned : loc)
    (node : CustomNode) : M CustomNode :=
  if String.eqb (nid node) targetNodeId then
    c <- getComp (component node) ;;
    cf <- getConf (config c) ;;
    ncf <- newConf (set_termination_condition cf (Some cloned)) ;;
    nc <- newComp (mkComponent (header c) ncf) ;;
    ret (set_component node nc)
  else ret node.

(** A workbench dropped on an assistant agent (lines 299-311). *)
Definition addWorkbenchToAgent (targetNode : CustomNode) (cloned : loc) : M unit :=
  tc <- getComp (component targetNode) ;;
  workbenches <- workbenchesOf (config tc) ;;
  ws <- getArr workbenches ;;
  setArr workbenches (ws ++ [Some cloned]) ;;;
  cf2 <- getConf (config tc) ;;
  setConf (config tc) (set_workbench cf2 (WbMany workbenches)).

Definition newNodeFor (id : string) (pos : Position) (hd : Header)
    (lbl : option string) (c : loc) : CustomNode :=
  mkNode id pos (component_type hd)
         (mkNodeData lbl c (component_type hd)).

(** [p.config.name] for a participant [p]. *)
Definition participantName (p : option loc) : M (option string) :=
  c <- deref p ;; cf <- configOf c ;; ret (name cf).

(** "Handle team and agent nodes" (store.tsx lines 326-404): the new
    graph before layout.  [ids] are the values of the successive
    [nanoid()] calls. *)
Definition placeComponent (ids : nat -> string) (pos : Position)
    (cloned : loc) (ns : list CustomNode) (es : list CustomEdge)
  : M (list CustomNode * list CustomEdge) :=
  cc <- getComp cloned ;;
  let hd := header cc in
  if isTeamComponent hd then
    ret (ns ++ [newNodeFor (ids 0%nat) pos hd
                           (Some (JS.or_lit (label hd) "Team")) cloned],
         es)
  else if isAgentComponent hd then
    h <- getHeap ;;
    match find (fun n => isTeamComponent (headerAt h (component n))) ns with
    | None => ret (ns, es)
    | Some teamNode =>
        tc <- getComp (component teamNode) ;;
        (if isAssistantAgent hd && isTeamComponent (header tc) then
           tcf <- getConf (config tc) ;;
           existingAgents <-
             (match participants tcf with
              | Some a => getArr a
              | None => ret []
              end) ;;
           existingNames <- mapM participantName existingAgents ;;
           ccf <- getConf (config cc) ;;
           setConf (config cc)
                   (set_name ccf (Some (getUniqueName (name ccf) existingNames)))
         else ret tt) ;;;
        ccf <- getConf (config cc) ;;
        let newNode :=
          newNodeFor (ids 0%nat) pos hd (JS.or_else (label hd) (name ccf))
                     cloned in
        let newEdge :=
          mkEdge (ids 1%nat) (nid teamNode) (nid newNode)
                 (Some (String.append (nid teamNode) "-agent-output-handle"))
                 (Some (String.append (nid newNode) "-agent-input-handle"))
                 (Some "agent-connection") in
        (if isTeamComponent (header tc) then
           tcf <- getConf (config tc) ;;
           (match participants tcf with
            | None =>
                a <- newArr [] ;;
                setConf (config tc) (set_participants tcf (Some a))
            | Some _ => ret tt
            end) ;;;
           tcf' <- getConf (config tc) ;;
           a <- deref (participants tcf') ;;
           ps <- getArr a ;;
           setArr a (ps ++ [Some cloned])
         else ret tt) ;;;
        ret (ns ++ [newNode], es ++ [newEdge])
    end
  else if isWorkbenchComponent hd then
    ret (ns ++ [newNodeFor (ids 0%nat) pos hd
                           (Some (JS.or_lit (label hd) "Workbench")) cloned],
         es)
  else ret (ns, es).

(** [state.teamId || undefined] *)
Definition teamIdArg (s : TeamBuilderState) : option string :=
  JS.or_else (teamId s) None.

(** The end of [addNode] (store.tsx lines 326-434). *)
Definition addNodeTail (ids : nat -> string) (pos : Position) (cloned : loc)
    (targetNodeId : string) (s : TeamBuilderState) : M TeamBuilderState :=
  g <- placeComponent ids pos cloned (nodes s) (edges s) ;;
  h <- getHeap ;;
  if JS.truthy targetNodeId then
    let r := updateNodeDimensions h (fst g) (snd g) in
    ret (recorded s (fst r) (snd r))
  else
    let r := getLayoutedElements h (fst g) (snd g) (teamIdArg s) None in
    ret (recorded s (fst r) (snd r)).

(** What [addNode] does with a component dropped on an existing node;
    [None] when no branch applies and control falls through to the end
    of the function. *)
Definition dropOnTarget (targetNodeId : string) (targetNode : CustomNode)
    (cloned : loc) (s : TeamBuilderState) : M (option TeamBuilderState) :=
  cc <- headerOf cloned ;;
  tc <- headerOf (component targetNode) ;;
  if isModelComponent cc then
    if isTeamComponent tc && isSelectorTeam tc then
      assignModelClient targetNode cloned ;;;
      ret (Some (recorded s (nodes s) (edges s)))
    else if isAgentComponent tc && (isAssistantAgent tc || isWebSurferAgent tc) then
      assignModelClient targetNode cloned ;;;
      ret (Some (recorded s (nodes s) (edges s)))
    else ret None
  else if isToolComponent cc then
    if isAgentComponent tc && isAssistantAgent tc then
      addToolToAgent targetNode cloned ;;;
      ret (Some (recorded s (nodes s) (edges s)))
    else ret None
  else if isTerminationComponent cc then
    if isTeamComponent tc then
      newNodes <- mapM (withTermination targetNodeId cloned) (nodes s) ;;
      ret (Some (recorded s newNodes (edges s)))
    else ret None
  else if isWorkbenchComponent cc then
    if isAgentComponent tc && isAssistantAgent tc then
      addWorkbenchToAgent targetNode cloned ;;;
      ret (Some (recorded s (nodes s) (edges s)))
    else ret None
  else ret None.

Definition addNode (ids : nat -> string) (pos : Position)
    (comp : CTree) (targetNodeId : string) (s : TeamBuilderState)
  : M TeamBuilderState :=
  cloned <- clone comp ;;
  if JS.truthy targetNodeId then
    match findNode targetNodeId (nodes s) with
    | None => ret s
    | Some targetNode =>
        r <- dropOnTarget targetNodeId targetNode cloned s ;;
        match r with
        | Some s' => ret s'
        | None => addNodeTail ids pos cloned targetNodeId s
        end
    end
  else addNodeTail ids pos cloned targetNodeId s.

(** *** updateNode *)

Definition optLocEqb (a b : option loc) : bool :=
  match a, b with
  | Some x, Some y => Nat.eqb x y
  | None, None => true
  | _, _ => false
  end.

(** The callback of [state.nodes.map] in [updateNode]. *)
Definition updateOne (nodeId : string) (updates : NodeUpdates)
    (s : TeamBuilderState) (node : CustomNode) : M CustomNode :=
  if negb (String.eqb (nid node) nodeId) then
    c <- getComp (component node) ;;
    let isTeamWithUpdatedAgent :=
      isTeamComponent (header c) &&
      existsb (fun e => isAgentConnection e &&
                        String.eqb (target e) nodeId &&
                        String.eqb (source e) (nid node)) (edges s) in
    if isTeamWithUpdatedAgent && isTeamComponent (header c) then
      cf <- getConf (config c) ;;
      a <- deref (participants cf) ;;
      ps <- getArr a ;;
      let old := option_map component (findNode nodeId (nodes s)) in
      na <- newArr (map (fun participant =>
                           if optLocEqb participant old
                           then ucomponent updates else participant) ps) ;;
      ncf <- newConf (set_participants cf (Some na)) ;;
      nc <- newComp (mkComponent (header c) ncf) ;;
      ret (set_component node nc)
    else ret node
  else
    let updatedComponent :=
      match ucomponent updates with
      | Some c => c
      | None => component node
      end in
    ret (mkNode (nid node) (position node) (ntype node)
           (mkNodeData
              (match ulabel updates with
               | Some l => Some l
               | None => dlabel (data node)
               end)
              updatedComponent
              (match utype updates with
               | Some t => t
               | None => dtype (data node)
               end))).

Definition updateNode (nodeId : string) (updates : NodeUpdates)
    (s : TeamBuilderState) : M TeamBuilderState :=
  newNodes <- mapM (updateOne nodeId updates s) (nodes s) ;;
  ret (recorded s newNodes (edges s)).

(** *** lodash [isEqual] *)

Definition optEqb {A} (eqb : A -> A -> bool) (a b : option A) : bool :=
  match a, b with
  | Some x, Some y => eqb x y
  | None, None => true
  | _, _ => false
  end.

Definition headerEqb (a b : Header) : bool :=
  String.eqb (provider a) (provider b) &&
  String.eqb (component_type a) (component_type b) &&
  optEqb Z.eqb (version a) (version b) &&
  optEqb Z.eqb (component_version a) (component_version b) &&
  optEqb String.eqb (description a) (description b) &&
  optEqb String.eqb (label a) (label b).

Fixpoint list_eqb {A} (eqb : A -> A -> bool) (a b : list A) : bool :=
  match a, b with
  | [], [] => true
  | x :: a', y :: b' => eqb x y && list_eqb eqb a' b'
  | _, _ => false
  end.

Definition restEqb (a b : list (string * string)) : bool :=
  list_eqb (fun x y => String.eqb (fst x) (fst y) &&
                       String.eqb (snd x) (snd y)) a b.

(** Deep comparison of two component objects of heap [h].  [fuel] bounds
    the depth in components; object graphs that come from JSON are
    trees, and lodash's tracking of cyclic values is not modelled (the
    comparison gives up with [false]). *)
Fixpoint deepEqual (fuel : nat) (h : Heap) (a b : loc) : bool :=
  Nat.eqb a b ||
  match fuel with
  | O => false
  | S fuel' =>
      let eqo := optEqb (deepEqual fuel' h) in
      let eqa (x y : option loc) :=
        optEqb (fun p q => list_eqb eqo (arrs h p) (arrs h q)) x y in
      let ca := confs h (config (comps h a)) in
      let cb := confs h (config (comps h b)) in
      headerEqb (header (comps h a)) (header (comps h b)) &&
      optEqb String.eqb (name ca) (name cb) &&
      eqa (participants ca) (participants cb) &&
      eqo (model_client ca) (model_client cb) &&
      eqo (termination_condition ca) (termination_condition cb) &&
      match workbench ca, workbench cb with
      | WbAbsent, WbAbsent => true
      | WbOne x, WbOne y => deepEqual fuel' h x y
      | WbMany x, WbMany y => list_eqb eqo (arrs h x) (arrs h y)
      | _, _ => false
      end &&
      eqa (tools ca) (tools cb) &&
      restEqb (rest ca) (rest cb)
  end.

(** [isEqual(p, c)] on possibly-undefined components. *)
Definition isEqual (h : Heap) (a b : option loc) : bool :=
  optEqb (deepEqual (S (next h)) h) a b.

(** *** removeNode *)

(** [nodesToRemove] (a set of ids) and [updatedNodes] (a map from id to
    node; the entry set last is first). *)
Record Collected := mkCollected {
  nodesToRemove : list string;
  updatedNodes : list (string * CustomNode)
}.

Definition has (ids : list string) (id : string) : bool :=
  existsb (String.eqb id) ids.

Definition getUpdated (m : list (string * CustomNode)) (id : string)
  : option CustomNode :=
  option_map snd (find (fun kv => String.eqb (fst kv) id) m).

(** [xs.forEach(f)] threading the two collections. *)
Fixpoint forEachM {A S} (f : A -> S -> M S) (xs : list A) (acc : S) : M S :=
  match xs with
  | [] => ret acc
  | x :: xs' => acc' <- f x acc ;; forEachM f xs' acc'
  end.

Definition connectedTo (id : string) (e : CustomEdge) : bool :=
  String.eqb (source e) id || String.eqb (target e) id.

(** The team node rebuilt without the participants equal to the removed
    agent's component. *)
Definition withoutParticipant (teamNode node : CustomNode) : M CustomNode :=
  tc <- getComp (component teamNode) ;;
  tcf <- getConf (config tc) ;;
  a <- deref (participants tcf) ;;
  ps <- getArr a ;;
  h <- getHeap ;;
  na <- newArr (filter (fun p => negb (isEqual h p (Some (component node)))) ps) ;;
  ncf <- newConf (set_participants tcf (Some na)) ;;
  nc <- newComp (mkComponent (header tc) ncf) ;;
  ret (set_component teamNode nc).

(** [collectNodesToRemove]: [fuel] bounds the depth of the recursion,
    which the source does not bound. *)
Fixpoint collectNodesToRemove (fuel : nat) (s : TeamBuilderState)
    (id : string) (acc : Collected) : M Collected :=
  match fuel with
  | O => diverge
  | S fuel' =>
      match findNode id (nodes s) with
      | None => ret acc
      | Some node =>
          let acc1 := mkCollected (id :: nodesToRemove acc) (updatedNodes acc) in
          let connectedEdges := filter (connectedTo id) (edges s) in
          c <- getComp (component node) ;;
          if isTeamComponent (header c) then
            forEachM (fun e => collectNodesToRemove fuel' s (target e))
                     (filter isAgentConnection connectedEdges) acc1
          else if isAgentComponent (header c) then
            match find isAgentConnection connectedEdges with
            | None => ret acc1
            | Some teamEdge =>
                match findNode (source teamEdge) (nodes s) with
                | None => ret acc1
                | Some teamNode =>
                    tc <- getComp (component teamNode) ;;
                    if isTeamComponent (header tc) then
                      updatedTeamNode <- withoutParticipant teamNode node ;;
                      ret (mkCollected
                             (nodesToRemove acc1)
                             ((nid teamNode, updatedTeamNode) :: updatedNodes acc1))
                    else ret acc1
                end
            end
          else ret acc1
      end
  end.

Definition removeNode (fuel : nat) (nodeId : string) (s : TeamBuilderState)
  : M TeamBuilderState :=
  r <- collectNodesToRemove fuel s nodeId (mkCollected [] []) ;;
  let newNodes :=
    map (fun node => match getUpdated (updatedNodes r) (nid node) with
                     | Some n => n
                     | None => node
                     end)
        (filter (fun node => negb (has (nodesToRemove r) (nid node))) (nodes s)) in
  let newEdges :=
    filter (fun edge => negb (has (nodesToRemove r) (source edge)) &&
                        negb (has (nodesToRemove r) (target edge))) (edges s) in
  ret (recorded s newNodes newEdges).

(** *** syncToJson *)

(** The agent component an edge leads to, if its target node exists and
    shows an agent. *)
Definition agentOf (h : Heap) (ns : list CustomNode) (edge : CustomEdge)
  : option loc :=
  match findNode (target edge) ns with
  | None => None
  | Some agentNode =>
      if isAgentComponent (headerAt h (component agentNode))
      then Some (component agentNode) else None
  end.

Definition participantEdges (teamNode : CustomNode) (es : list CustomEdge)
  : list CustomEdge :=
  filter (fun e => String.eqb (source e) (nid teamNode) && isAgentConnection e) es.

(** [participantEdges.map(...).filter(agent => agent !== null)] *)
Definition edgeAgents (h : Heap) (teamNode : CustomNode)
    (ns : list CustomNode) (es : list CustomEdge) : list loc :=
  flat_map (fun edge => match agentOf h ns edge with
                        | Some c => [c]
                        | None => []
                        end)
           (participantEdges teamNode es).

(** [buildTeamComponent]: [{ ...teamNode.data.component }] is a new
    component object that still refers to the node's own config object,
    and the participants are assigned through it. *)
Definition buildTeamComponent (teamNode : CustomNode) (ns : list CustomNode)
    (es : list CustomEdge) : M (option loc) :=
  tc <- getComp (component teamNode) ;;
  if negb (isTeamComponent (header tc)) then ret None
  else
    comp <- newComp (mkComponent (header tc) (config tc)) ;;
    h <- getHeap ;;
    a <- newArr (map Some (edgeAgents h teamNode ns es)) ;;
    c <- getComp comp ;;
    cf <- getConf (config c) ;;
    setConf (config c) (set_participants cf (Some a)) ;;;
    ret (Some comp).

Definition syncToJson (s : TeamBuilderState) : M (option loc) :=
  h <- getHeap ;;
  let teamNodes :=
    filter (fun node =>
              String.eqb (component_type (headerAt h (component node))) "team")
           (nodes s) in
  match teamNodes with
  | [] => ret None
  | teamNode :: _ => buildTeamComponent teamNode (nodes s) (edges s)
  end.

(** *** layoutNodes, setNodeUserPositioned *)

Definition layoutNodes (s : TeamBuilderState) : M TeamBuilderState :=
  h <- getHeap ;;
  let r := getLayoutedElements h (nodes s) (edges s) (teamIdArg s) (Some false) in
  ret (recorded s (fst r) (snd r)).

(** [setNodeUserPositioned] only writes to the layout storage, outside
    the store. *)
Definition setNodeUserPositioned (nodeId : string) (pos : Position)
    (s : TeamBuilderState) : TeamBuilderState := s.

(** *** loadFromJson *)

Definition agentEdge (id : string) (teamNode newNode : CustomNode) : CustomEdge :=
  mkEdge id (nid teamNode) (nid newNode)
         (Some (String.append (nid teamNode) "-agent-output-handle"))
         (Some (String.append (nid newNode) "-agent-input-handle"))
         (Some "agent-connection").

Definition origin : Position := mkPosition 0 0.

(** Modelled from the spec: [convertTeamConfigToGraph] (./utils) is not
    among the sources.  The spec has the graph "synchronized
    bidirectionally with a structured JSON configuration" of teams and
    agents, the participant list mirrored by the graph: the team
    component becomes a team node, each participant an agent node
    showing that participant object, and each agent node is tied to the
    team node by one agent-connection edge, in the order of the
    participants.  Ids are fresh [nanoid()] values; positions are left
    to the layout that follows. *)
Definition convertTeamConfigToGraph (ids : nat -> string) (cfg : loc)
    (teamId : option string) : M (list CustomNode * list CustomEdge) :=
  tc <- getComp cfg ;;
  tcf <- getConf (config tc) ;;
  ps <- (match participants tcf with
         | Some a => getArr a
         | None => ret []
         end) ;;
  let teamNode :=
    newNodeFor (ids 0%nat) origin (header tc) (label (header tc)) cfg in
  agents <- mapM (fun ip =>
                    c <- deref (snd ip) ;;
                    x <- getComp c ;;
                    let n := newNodeFor (ids (2 * fst ip + 1)%nat) origin
                                        (header x) (label (header x)) c in
                    ret (n, agentEdge (ids (2 * fst ip + 2)%nat) teamNode n))
                 (combine (seq 0 (length ps)) ps) ;;
  ret (teamNode :: map fst agents, map snd agents).

Definition positionEqb (a b : Position) : bool :=
  Z.eqb (px a) (px b) && Z.eqb (py a) (py b).

Definition nodeEqual (h : Heap) (a b : CustomNode) : bool :=
  String.eqb (nid a) (nid b) && positionEqb (position a) (position b) &&
  String.eqb (ntype a) (ntype b) &&
  optEqb String.eqb (dlabel (data a)) (dlabel (data b)) &&
  String.eqb (dtype (data a)) (dtype (data b)) &&
  deepEqual (S (next h)) h (component a) (component b).

Definition edgeEqual (a b : CustomEdge) : bool :=
  String.eqb (eid a) (eid b) && String.eqb (source a) (source b) &&
  String.eqb (target a) (target b) &&
  optEqb String.eqb (sourceHandle a) (sourceHandle b) &&
  optEqb String.eqb (targetHandle a) (targetHandle b) &&
  optEqb String.eqb (etype a) (etype b).

(** [loadFromJson]: the new state and the returned graph. *)
Definition loadFromJson (ids : nat -> string) (cfg : loc)
    (isInitialLoad : bool) (teamId' : option string) (s : TeamBuilderState)
  : M (TeamBuilderState * (list CustomNode * list CustomEdge)) :=
  g <- convertTeamConfigToGraph ids cfg teamId' ;;
  h <- getHeap ;;
  let r := getLayoutedElements h (fst g) (snd g) teamId' None in
  if isInitialLoad then
    ret (mkState (fst r) (snd r) None [(fst r, snd r)] 0 (Some cfg)
                 (JS.or_else teamId' None), r)
  else if negb (list_eqb (nodeEqual h) (fst r) (nodes s)) ||
          negb (list_eqb edgeEqual (snd r) (edges s)) then
    ret (mkState (fst r) (snd r) (selectedNodeId s) (pushHistory s r)
                 (currentHistoryIndex s + 1) (originalComponent s)
                 (JS.or_else teamId' (teamId s)), r)
  else ret (s, r).

(** ** The store as a transition system *)

(** The zustand state together with the objects it refers to. *)
Record Store := mkStore { st : TeamBuilderState; hp : Heap }.

Definition dummyHeader : Header := mkHeader "" "" None None None None.
Definition emptyHeap : Heap :=
  mkHeap (fun _ => mkComponent dummyHeader 0%nat)
         (fun _ => mkConfig None None None None WbAbsent None [])
         (fun _ => []) 0%nat.

Definition initialStore : Store := mkStore initialState emptyHeap.

(** A call of a public action.  [Build] is the caller building a
    component object (say, parsing the JSON editor's text) before
    handing it to [updateNode] or [loadFromJson]. *)
Inductive Action :=
| AddNode (ids : nat -> string) (pos : Position) (comp : CTree)
          (targetNodeId : string)
| UpdateNode (nodeId : string) (updates : NodeUpdates)
| RemoveNode (fuel : nat) (nodeId : string)
| AddEdge (edge : CustomEdge)
| RemoveEdge (edgeId : string)
| SetSelectedNode (nodeId : option string)
| SetNodeUserPositioned (nodeId : string) (pos : Position)
| Undo
| Redo
| SyncToJson
| LoadFromJson (ids : nat -> string) (cfg : loc) (isInitialLoad : bool)
               (teamId' : option string)
| LayoutNodes
| ResetHistory
| AddToHistory
| Build (comp : CTree).

(** [set(fn)]: when [fn] throws, the state stays and the objects keep
    what was assigned before the throw. *)
Definition settle (s : TeamBuilderState) (r : Res TeamBuilderState * Heap)
  : Store :=
  match r with
  | (Ok s', h) => mkStore s' h
  | (_, h) => mkStore s h
  end.

Definition pureStep (w : Store) (r : Res TeamBuilderState) : Store :=
  settle (st w) (r, hp w).

Definition exec (a : Action) (w : Store) : Store :=
  match a with
  | AddNode ids pos comp tgt => settle (st w) (addNode ids pos comp tgt (st w) (hp w))
  | UpdateNode nodeId updates => settle (st w) (updateNode nodeId updates (st w) (hp w))
  | RemoveNode fuel nodeId => settle (st w) (removeNode fuel nodeId (st w) (hp w))
  | AddEdge edge => pureStep w (Ok (addEdge edge (st w)))
  | RemoveEdge edgeId => pureStep w (Ok (removeEdge edgeId (st w)))
  | SetSelectedNode nodeId => pureStep w (Ok (setSelectedNode nodeId (st w)))
  | SetNodeUserPositioned nodeId pos =>
      pureStep w (Ok (setNodeUserPositioned nodeId pos (st w)))
  | Undo => pureStep w (undo (st w))
  | Redo => pureStep w (redo (st w))
  | SyncToJson => mkStore (st w) (snd (syncToJson (st w) (hp w)))
  | LoadFromJson ids cfg isInitialLoad teamId' =>
      match loadFromJson ids cfg isInitialLoad teamId' (st w) (hp w) with
      | (Ok (s', _), h) => mkStore s' h
      | (_, h) => mkStore (st w) h
      end
  | LayoutNodes => settle (st w) (layoutNodes (st w) (hp w))
  | ResetHistory => pureStep w (Ok (resetHistory (st w)))
  | AddToHistory => pureStep w (Ok (addToHistory (st w)))
  | Build comp => mkStore (st w) (snd (clone comp (hp w)))
  end.

(** States reachable from the initial store. *)
Inductive reachable : Store -> Prop :=
| reach_init : reachable initialStore
| reach_step (a : Action) (w : Store) :
    reachable w -> reachable (exec a w).

Definition run (acts : list Action) (w : Store) : Store :=
  fold_left (fun w a => exec a w) acts w.

End Store.

(** ** A reference environment

    Guards decided by the discriminating field their names point at,
    layout helpers that leave the graph as it is, and a [getUniqueName]
    that appends a suffix no existing name can end with.  Concrete runs of
    the store below use it. *)

Module Sample.

Definition typeIs (t : string) (hd : Header) : bool :=
  String.eqb (component_type hd) t.
Definition providerIs (p : string) (hd : Header) : bool :=
  String.eqb (provider hd) p.

Definition someEqb (x : string) (o : option string) : bool :=
  match o with
  | Some y => String.eqb x y
  | None => false
  end.

Fixpoint allNames (names : list (option string)) : string :=
  match names with
  | [] => ""
  | Some n :: r => String.append n (allNames r)
  | None :: r => allNames r
  end.

Definition uniqueName (base : option string) (names : list (option string))
  : string :=
  let b := JS.or_lit base "component" in
  if existsb (someEqb b) names
  then String.append b (String.append "_" (allNames names))
  else b.

Definition env : Env :=
  mkEnv (typeIs "team") (typeIs "agent") (typeIs "tool")
        (typeIs "workbench") (typeIs "termination") (typeIs "model")
        (providerIs "autogen_agentchat.teams.SelectorGroupChat")
        (providerIs "autogen_agentchat.agents.AssistantAgent")
        (providerIs "autogen_ext.agents.web_surfer.MultimodalWebSurfer")
        (providerIs "autogen_core.tools.StaticWorkbench")
        (fun _ ns es _ _ => (ns, es))
        (fun _ ns es => (ns, es))
        uniqueName.

(** Component values used in the runs. *)
Definition hdr (p t : string) (l : string) : Header :=
  mkHeader p t (Some 1) (Some 1) None (Some l).

Definition leaf (hd : Header) (nm : option string) : CTree :=
  CT hd nm LNone TNone TNone WNone LNone [].

Definition assistant (nm : string) : CTree :=
  leaf (hdr "autogen_agentchat.agents.AssistantAgent" "agent" nm) (Some nm).

Definition teamOf (ps : TList) : CTree :=
  CT (hdr "autogen_agentchat.teams.SelectorGroupChat" "team" "Team")
     None (LSome ps) TNone TNone WNone LNone [].

Definition model (nm : string) : CTree :=
  leaf (hdr "autogen_ext.models.openai.OpenAIChatCompletionClient" "model" nm)
       None.

Definition tool (nm : string) : CTree :=
  leaf (hdr "autogen_core.tools.FunctionTool" "tool" nm) (Some nm).

Definition workbenchNode : CTree :=
  leaf (hdr "autogen_ext.tools.mcp.McpWorkbench" "workbench" "MCP") None.

(** [nanoid()] values: the [k]-th id drawn in a call tagged [tag]. *)
Fixpoint tally (k : nat) : string :=
  match k with
  | O => ""
  | S k' => String.append "i" (tally k')
  end.
Definition idsFrom (tag : string) (k : nat) : string :=
  String.append tag (tally k).

End Sample.

(** ** Concrete runs *)

Module Run.

Definition act (acts : list Action) (w : Store) : Store :=
  run (env := Sample.env) acts w.

Definition edge1 : CustomEdge :=
  mkEdge "e1" "n" "ni" None None (Some "agent-connection").

(** The team value with one assistant agent, built by the caller: the
    agent's config and component are objects 0 and 1, the participants
    array 2, the team's config and component 3 and 4. *)
Definition built : Store :=
  act [Build (Sample.teamOf (TCons (TSome (Sample.assistant "a")) TNil))]
      initialStore.

(** After [loadFromJson(team, true)]: team node ["n"], agent node ["ni"],
    edge ["nii"]. *)
Definition loaded : Store :=
  act [LoadFromJson (Sample.idsFrom "n") 4%nat true None] built.

(** Two snapshots, the second current. *)
Definition oneEdge : TeamBuilderState :=
  mkState [] [edge1] None [([], []); ([], [edge1])] 1 None None.

(** The same history with the first snapshot current. *)
Definition noEdge : TeamBuilderState :=
  mkState [] [] None [([], []); ([], [edge1])] 0 None None.

End Run.

(** ** Heaps that only grow *)

(** [h'] has every object of [h] as it was, and possibly new ones. *)
Definition extends (h h' : Heap) : Prop :=
  (next h <= next h')%nat /\
  forall l, (l < next h)%nat ->
    comps h' l = comps h l /\ confs h' l = confs h l /\ arrs h' l = arrs h l.

(** A computation that never writes to an object that was there before,
    whatever its outcome. *)
Definition allocOnly {A} (m : M A) : Prop :=
  forall h r h', m h = (r, h') -> extends h h'.

(** The current graph is recorded at the current index, and the history
    has room for one more entry. *)
Definition seeded (s : TeamBuilderState) : Prop :=
  0 <= currentHistoryIndex s /\
  currentHistoryIndex s + 1 < MAX_HISTORY /\
  JS.index (history s) (currentHistoryIndex s) = Some (nodes s, edges s).

(** [undo] on [s'] brings back the nodes, edges and index of [s]. *)
Definition undoRestores (s s' : TeamBuilderState) : Prop :=
  exists s'', undo s' = Ok s'' /\
    nodes s'' = nodes s /\ edges s'' = edges s /\
    currentHistoryIndex s'' = currentHistoryIndex s.

(** [config.model_client] of the component a node shows. *)
Definition modelClientOf (h : Heap) (c : loc) : option loc :=
  model_client (confs h (config (comps h c))).

(** [config.participants] of the component at [c], as a list. *)
Definition participantsOf (h : Heap) (c : loc) : option (list (option loc)) :=
  option_map (arrs h) (participants (confs h (config (comps h c)))).

(** ** What [syncToJson] leaves behind *)

Section SyncHeap.

Context {env : Env}.

(** The heap after [{ ...teamNode.data.component }]. *)
Definition copiedHeap (h : Heap) (teamNode : CustomNode) : Heap :=
  let tc := comps h (component teamNode) in
  mkHeap (upd (comps h) (next h) (mkComponent (header tc) (config tc)))
         (confs h) (arrs h) (S (next h)).

(** The heap after [buildTeamComponent] on a team node: the copy at
    [next h], the computed participants at [next h + 1], and the
    participants field of the node's config pointing there. *)
Definition syncHeap (h : Heap) (teamNode : CustomNode)
    (ns : list CustomNode) (es : list CustomEdge) : Heap :=
  let tc := comps h (component teamNode) in
  let h1 := copiedHeap h teamNode in
  mkHeap (comps h1)
         (upd (confs h) (config tc)
              (set_participants (confs h (config tc)) (Some (S (next h)))))
         (upd (arrs h) (S (next h)) (map Some (edgeAgents h1 teamNode ns es)))
         (S (S (next h))).

(** The first node whose component has [component_type === "team"]. *)
Definition firstTeamNode (h : Heap) (ns : list CustomNode) : option CustomNode :=
  find (fun node =>
          String.eqb (component_type (headerAt h (component node))) "team") ns.

End SyncHeap.

(** ** Graphs up to layout *)

(** What the store reads of a node and of an edge when it relates the
    graph to the configuration. *)
Definition nkey (n : CustomNode) : string * loc := (nid n, component n).
Definition ekey (e : CustomEdge) : string * string * option string :=
  (source e, target e, etype e).

(** Two graphs with the same nodes (id and component) and the same edges
    (ends and type), in the same order. *)
Definition sameGraph (ns : list CustomNode) (es : list CustomEdge)
    (ns' : list CustomNode) (es' : list CustomEdge) : Prop :=
  map nkey ns' = map nkey ns /\ map ekey es' = map ekey es.

(** The layout helpers move and resize nodes; they keep the graph. *)
Definition layoutKeepsGraph {env : Env} : Prop :=
  (forall h ns es tid p,
     sameGraph ns es (fst (getLayoutedElements h ns es tid p))
                     (snd (getLayoutedElements h ns es tid p))) /\
  (forall h ns es,
     sameGraph ns es (fst (updateNodeDimensions h ns es))
                     (snd (updateNodeDimensions h ns es))).

Section Keys.

Context {env : Env}.

Definition agentOfK (h : Heap) (nks : list (string * loc)) (tgt : string)
  : option loc :=
  match find (fun nk => String.eqb (fst nk) tgt) nks with
  | None => None
  | Some nk =>
      if isAgentComponent (headerAt h (snd nk)) then Some (snd nk) else None
  end.

Definition isAgentConnectionK (ty : option string) : bool :=
  match ty with
  | Some t => String.eqb t "agent-connection"
  | None => false
  end.

(** [edgeAgents] read off the keys. *)
Definition edgeAgentsK (h : Heap) (tid : string) (nks : list (string * loc))
    (eks : list (string * string * option string)) : list loc :=
  flat_map (fun ek =>
              if String.eqb (fst (fst ek)) tid && isAgentConnectionK (snd ek)
              then match agentOfK h nks (snd (fst ek)) with
                   | Some c => [c]
                   | None => []
                   end
              else []) eks.




End Keys.

(** ** Cascading removal *)

Section CascadeVocabulary.

Context {env : Env}.

Definition nodeExists (s : TeamBuilderState) (id : string) : bool :=
  match findNode id (nodes s) with
  | Some _ => true
  | None => false
  end.

(** The ids [removeNode] takes out for a team node [tid]: the node itself
    and every existing node an agent-connection edge leads to from it. *)
Definition cascade (s : TeamBuilderState) (tid : string) : list string :=
  tid ::
  map target
      (filter (fun e => isAgentConnection e && String.eqb (source e) tid &&
                        nodeExists s (target e))
              (edges s)).

(** The component and config objects of the nodes are allocated. *)
Definition nodesAllocated (h : Heap) (s : TeamBuilderState) : Prop :=
  forall n, In n (nodes s) ->
    (component n < next h)%nat /\ (config (comps h (component n)) < next h)%nat.

(** Team components carry a participants array, as [TeamConfig] says. *)
Definition teamsHaveParticipants (h : Heap) (s : TeamBuilderState) : Prop :=
  forall n, In n (nodes s) ->
    isTeamComponent (headerAt h (component n)) = true ->
    participants (confs h (config (comps h (component n)))) <> None.

(** Every agent-connection edge touching [tid] leads to a node that is not
    a team (so none leads back to [tid]). *)
Definition teamEdgesLeadToMembers (h : Heap) (s : TeamBuilderState)
    (tid : string) : Prop :=
  forall e n, In e (edges s) ->
    isAgentConnection e = true -> connectedTo tid e = true ->
    findNode (target e) (nodes s) = Some n ->
    isTeamComponent (headerAt h (component n)) = false.

(** Every entry of [updatedNodes] is filed under its node's id. *)
Definition keyed (acc : Collected) : Prop :=
  forall k n, In (k, n) (updatedNodes acc) -> nid n = k.

End CascadeVocabulary.

Module Cascade.

(** The loaded team with a workbench node tied to it by an
    agent-connection edge. *)
Definition withWorkbench : Store :=
  Run.act [AddNode (Sample.idsFrom "w") origin Sample.workbenchNode "";
           AddEdge (mkEdge "e2" "n" "w" None None (Some "agent-connection"))]
          Run.loaded.

(** The loaded team with its only edge replaced by one from the team node
    to itself. *)
Definition withLoop : Store :=
  Run.act [RemoveEdge "nii";
           AddEdge (mkEdge "e3" "n" "n" None None (Some "agent-connection"))]
          Run.loaded.

(** The loaded team after [updateNode] gave the team node a team
    component without a participants field (object 6). *)
Definition withoutParticipants : Store :=
  Run.act [Build (CT (Sample.hdr "autogen_agentchat.teams.SelectorGroupChat"
                                 "team" "Team")
                     None LNone TNone TNone WNone LNone []);
           UpdateNode "n" (mkUpdates None (Some 6%nat) None)]
          Run.loaded.

End Cascade.

(** ** Participants and edges in step *)

Section MirrorVocabulary.

Context {env : Env}.

(** A computation that always completes. *)
Definition total {A} (m : M A) : Prop :=
  forall h, exists a h', m h = (Ok a, h').

(** The participants of team node [t] are the agent components its
    agent-connection edges lead to, in edge order. *)
Definition mirrors (h : Heap) (s : TeamBuilderState) (t : CustomNode) : Prop :=
  participantsOf h (component t)
  = Some (map Some (edgeAgents h t (nodes s) (edges s))).

(** Every team node of the store mirrors its edges. *)
Definition mirrored (w : Store) : Prop :=
  forall t, In t (nodes (st w)) ->
    isTeamComponent (headerAt (hp w) (component t)) = true ->
    mirrors (hp w) (st w) t.

(** The team node [addNode] attaches a new agent to. *)
Definition attachTeam (h : Heap) (s : TeamBuilderState) : option CustomNode :=
  find (fun n => isTeamComponent (headerAt h (component n))) (nodes s).

End MirrorVocabulary.

(** The header and the name of a component value. *)
Definition treeHeader (t : CTree) : Header :=
  match t with CT hd _ _ _ _ _ _ _ => hd end.
Definition treeName (t : CTree) : option string :=
  match t with CT _ nm _ _ _ _ _ _ => nm end.

(** ** Tools in workbenches *)

Section ToolVocabulary.

Context {env : Env}.

(** The config object of the component a node shows. *)
Definition agentConfig (h : Heap) (n : CustomNode) : Config :=
  confs h (config (comps h (component n))).

(** [config.workbench] read as a list. *)
Definition workbenchList (h : Heap) (cf : Config) : list (option loc) :=
  match workbench cf with
  | WbAbsent => []
  | WbOne c => [Some c]
  | WbMany a => arrs h a
  end.

(** The tools of the workbench component at [w]. *)
Definition toolsOf (h : Heap) (w : loc) : list (option loc) :=
  match tools (confs h (config (comps h w))) with
  | Some a => arrs h a
  | None => []
  end.

Definition staticAt (h : Heap) (x : option loc) : bool :=
  match x with
  | Some c => isStaticWorkbench (headerAt h c)
  | None => false
  end.

Definition staticIndex (h : Heap) (ws : list (option loc)) : Z :=
  JS.findIndex (staticAt h) ws.

(** The first StaticWorkbench of a list of workbenches. *)
Definition firstStatic (h : Heap) (ws : list (option loc)) : option loc :=
  match find (staticAt h) ws with
  | Some x => x
  | None => None
  end.

(** The name a tool goes by when names are compared:
    [t.config.name || t.label || "tool"]. *)
Definition displayName (h : Heap) (t : loc) : string :=
  JS.or_lit (JS.or_else (name (confs h (config (comps h t))))
                        (label (headerAt h t))) "tool".

Definition displayNames (h : Heap) (ts : list (option loc))
  : list (option string) :=
  map (option_map (displayName h)) ts.

(** The same for the component value being dropped. *)
Definition toolBase (comp : CTree) : string :=
  JS.or_lit (JS.or_else (treeName comp) (label (treeHeader comp))) "tool".

(** The tools already in the workbench the dropped tool goes to. *)
Definition toolsBefore (h : Heap) (ws : list (option loc)) : list (option loc) :=
  match firstStatic h ws with
  | Some w => toolsOf h w
  | None => []
  end.

(** An array of components without [undefined] or [null] elements. *)
Definition defined (l : list (option loc)) : Prop :=
  forall x, In x l -> x <> None.

Definition optBelow (N : nat) (o : option loc) : Prop :=
  match o with
  | Some c => (c < N)%nat
  | None => True
  end.

Definition wbBelow (N : nat) (w : Workbench) : Prop :=
  match w with
  | WbAbsent => True
  | WbOne c => (c < N)%nat
  | WbMany a => (a < N)%nat
  end.

(** Objects below [N] refer, for their config, workbenches and tools, to
    objects below [N]. *)
Definition closedBelow (N : nat) (h : Heap) : Prop :=
  forall l, (l < N)%nat ->
    (config (comps h l) < N)%nat /\
    wbBelow N (workbench (confs h l)) /\
    optBelow N (tools (confs h l)) /\
    forall c, In (Some c) (arrs h l) -> (c < N)%nat.

(** Every allocated object refers to allocated objects. *)
Definition closed (h : Heap) : Prop := closedBelow (next h) h.

End ToolVocabulary.

(** The heap after "Create a new StaticWorkbench": the tools array, the
    config, the workbench and the new workbenches array are the four new
    objects, and [config.workbench] of the agent points to the array. *)
Definition appendedHeap (tcfg : loc) (ws0 : list (option loc)) (hA : Heap) : Heap :=
  let tl := next hA in
  let ncf := S tl in
  let nw := S ncf in
  let w1 := S nw in
  let confs1 :=
    upd (confs hA) ncf (mkConfig None None None None WbAbsent (Some tl) []) in
  mkHeap (upd (comps hA) nw (mkComponent staticWorkbenchHeader ncf))
         (upd confs1 tcfg (set_workbench (confs1 tcfg) (WbMany w1)))
         (upd (upd (arrs hA) tl []) w1 (ws0 ++ [Some nw]))
         (S w1).

(** ** Vocabulary of the properties *)

(** The last [n] entries of a list. *)
Definition keepLast {A} (n : nat) (l : list A) : list A :=
  skipn (length l - n) l.

(** A state that came out of a recording [set]. *)
Definition isRecorded (s s' : TeamBuilderState) : Prop :=
  exists ns es, s' = recorded s ns es.

(** [s'] holds the history of [s] cut after the current entry, followed by
    one snapshot of the nodes and edges of [s'], cut to the last 50; the
    index went up by one. *)
Definition pushesSnapshot (s s' : TeamBuilderState) : Prop :=
  history s' =
    keepLast 50 (JS.slice (history s) 0 (currentHistoryIndex s + 1)
                 ++ [(nodes s', edges s')]) /\
  (-1 <= currentHistoryIndex s ->
   JS.slice (history s) 0 (currentHistoryIndex s + 1) =
   firstn (Z.to_nat (currentHistoryIndex s + 1)) (history s)) /\
  currentHistoryIndex s' = currentHistoryIndex s + 1.

(** [s'] holds exactly one snapshot, of its own nodes and edges. *)
Definition singleSnapshot (s' : TeamBuilderState) : Prop :=
  history s' = [(nodes s', edges s')] /\ currentHistoryIndex s' = 0.

(** ** Vocabulary of the further properties *)

(** The index is [-1] with an empty history, or non-negative with a
    history that holds a snapshot. *)
Definition indexInHistory (s : TeamBuilderState) : Prop :=
  (currentHistoryIndex s = -1 /\ history s = []) \/
  (0 <= currentHistoryIndex s /\ history s <> []).

(** The snapshot at the current index is the current graph. *)
Definition snapshotIsCurrent (s : TeamBuilderState) : Prop :=
  JS.index (history s) (currentHistoryIndex s) = Some (nodes s, edges s).

(** What every reachable state keeps: the index and the history agree on
    emptiness, and an index that points into the history points at the
    snapshot of the current graph. *)
Definition historyInvariant (s : TeamBuilderState) : Prop :=
  indexInHistory s /\
  (0 <= currentHistoryIndex s < Z.of_nat (length (history s)) ->
   snapshotIsCurrent s).


(** [n] calls of [undo], of [redo]; a throw ends them. *)
Fixpoint undoTimes (n : nat) (s : TeamBuilderState) : Res TeamBuilderState :=
  match n with
  | O => Ok s
  | S n' =>
      match undo s with
      | Ok s' => undoTimes n' s'
      | TypeError => TypeError
      | OutOfFuel => OutOfFuel
      end
  end.

Fixpoint redoTimes (n : nat) (s : TeamBuilderState) : Res TeamBuilderState :=
  match n with
  | O => Ok s
  | S n' =>
      match redo s with
      | Ok s' => redoTimes n' s'
      | TypeError => TypeError
      | OutOfFuel => OutOfFuel
      end
  end.

(** The state after successive recording [set]s that leave the graphs
    [gs], one after the other. *)
Definition recordAll (gs : list Snapshot) (s : TeamBuilderState)
  : TeamBuilderState :=
  fold_left (fun s g => recorded s (fst g) (snd g)) gs s.

(** What a call of [collectNodesToRemove] does to the two collections:
    entries stay filed under their ids, ids are only added, and an added
    id names a node. *)
Definition grows (s : TeamBuilderState) (acc r : Collected) : Prop :=
  keyed r /\
  (forall x, has (nodesToRemove acc) x = true -> has (nodesToRemove r) x = true) /\
  (forall x, has (nodesToRemove r) x = true ->
             has (nodesToRemove acc) x = true \/ nodeExists s x = true).

(** [{ ...node.data, ...updates, component: updates.component ||
    node.data.component }] *)
Definition mergedData (updates : NodeUpdates) (d : NodeData) : NodeData :=
  mkNodeData (match ulabel updates with Some l => Some l | None => dlabel d end)
             (match ucomponent updates with Some c => c | None => dcomponent d end)
             (match utype updates with Some t => t | None => dtype d end).

(** How [updateNode] relates a node to the node that takes its place:
    the directly updated node gets the merged data; any other keeps label
    and type, and is the same node or shows a new component object. *)
Definition updatedAs (nodeId : string) (updates : NodeUpdates) (h : Heap)
    (n n' : CustomNode) : Prop :=
  nid n' = nid n /\ position n' = position n /\ ntype n' = ntype n /\
  (nid n = nodeId -> data n' = mergedData updates (data n)) /\
  (nid n <> nodeId ->
   dlabel (data n') = dlabel (data n) /\ dtype (data n') = dtype (data n) /\
   (n' = n \/ (next h <= component n')%nat)).


(** The drop of a component with header [hd] on a target with header [tc]
    takes one of the branches of [addNode] (store.tsx lines 159-323). *)
Definition accepts {env : Env} (hd tc : Header) : bool :=
  if isModelComponent hd then
    isTeamComponent tc && isSelectorTeam tc ||
    isAgentComponent tc && (isAssistantAgent tc || isWebSurferAgent tc)
  else if isToolComponent hd then isAgentComponent tc && isAssistantAgent tc
  else if isTerminationComponent hd then isTeamComponent tc
  else if isWorkbenchComponent hd then isAgentComponent tc && isAssistantAgent tc
  else false.

(** How the drop of a termination condition [c] on [tgt] relates a node
    to the node that takes its place: a node with the target id shows a
    new component with a new config, equal to the old one but for
    [termination_condition]; any other node stays. *)
Definition withTerminationAs (tgt : string) (c : loc) (h h' : Heap)
    (n n' : CustomNode) : Prop :=
  if String.eqb (nid n) tgt then
    nid n' = nid n /\ position n' = position n /\ ntype n' = ntype n /\
    dlabel (data n') = dlabel (data n) /\ dtype (data n') = dtype (data n) /\
    (next h <= component n')%nat /\
    headerAt h' (component n') = headerAt h (component n) /\
    confs h' (config (comps h' (component n')))
    = set_termination_condition (confs h (config (comps h (component n))))
                                (Some c)
  else n' = n.

(** [p.config.name] of the components [ps], read in [h]. *)
Definition namesOf (h : Heap) (ps : list loc) : list (option string) :=
  map (fun p => name (confs h (config (comps h p)))) ps.

(** The nodes and the edge of [Run.loaded], and a termination condition
    to drop. *)
Module Loaded.

Definition teamNode : CustomNode :=
  mkNode "n" origin "team" (mkNodeData (Some "Team") 4%nat "team").

Definition agentNode : CustomNode :=
  mkNode "ni" origin "agent" (mkNodeData (Some "a") 1%nat "agent").

Definition link : CustomEdge := agentEdge "nii" teamNode agentNode.

Definition maxMessages : CTree :=
  Sample.leaf (Sample.hdr "autogen_agentchat.conditions.MaxMessageTermination"
                          "termination" "Max")
              None.

End Loaded.

(** * Properties *)

(** ** Slices and the history window *)

Lemma slice_prefix {A} (l : list A) (stop : Z) :
  0 <= stop -> JS.slice l 0 stop = firstn (Z.to_nat stop) l.
Proof.
  intros Hs. unfold JS.slice, JS.rel_index.
  replace (0 <? 0) with false by reflexivity.
  destruct (stop <? 0) eqn:E; [apply Z.ltb_lt in E; lia|].
  rewrite (Z.min_l 0) by lia. cbn [Z.to_nat skipn]. rewrite Z.sub_0_r.
  destruct (Z.le_gt_cases stop (Z.of_nat (length l))) as [H|H].
  - now rewrite Z.min_l by lia.
  - rewrite Z.min_r by lia. rewrite Nat2Z.id.
    rewrite firstn_all. symmetry. apply firstn_all2. lia.
Qed.

Lemma slice_from_last {A} (l : list A) (n : Z) :
  0 < n -> JS.slice_from l (- n) = keepLast (Z.to_nat n) l.
Proof.
  intros Hn. unfold JS.slice_from, JS.slice, JS.rel_index, keepLast.
  destruct (- n <? 0) eqn:E; [|apply Z.ltb_ge in E; lia].
  destruct (Z.of_nat (length l) <? 0) eqn:E2; [apply Z.ltb_lt in E2; lia|].
  rewrite Z.min_id.
  replace (Z.to_nat (Z.max (Z.of_nat (length l) + - n) 0))
    with (length l - Z.to_nat n)%nat by lia.
  apply firstn_all2. rewrite length_skipn. lia.
Qed.

Lemma keepLast_length {A} (n : nat) (l : list A) :
  (length (keepLast n l) <= n)%nat.
Proof. unfold keepLast. rewrite length_skipn. lia. Qed.

Lemma keepLast_short {A} (n : nat) (l : list A) :
  (length l <= n)%nat -> keepLast n l = l.
Proof.
  intros H. unfold keepLast. replace (length l - n)%nat with 0%nat by lia.
  reflexivity.
Qed.

(** The pushed history, whatever the index: the last 50 of a slice of the
    old history followed by the snapshot. *)
Lemma pushHistory_window (s : TeamBuilderState) (snap : Snapshot) :
  pushHistory s snap =
  keepLast 50 (JS.slice (history s) 0 (currentHistoryIndex s + 1) ++ [snap]).
Proof. unfold pushHistory, MAX_HISTORY. now rewrite slice_from_last. Qed.

(** With an index of at least [-1], the slice is the prefix up to and
    including the current entry: the redo tail is dropped. *)
Lemma pushHistory_prefix (s : TeamBuilderState) (snap : Snapshot) :
  -1 <= currentHistoryIndex s ->
  pushHistory s snap =
  keepLast 50
    (firstn (Z.to_nat (currentHistoryIndex s + 1)) (history s) ++ [snap]).
Proof.
  intros H. rewrite pushHistory_window, slice_prefix by lia. reflexivity.
Qed.

Lemma pushHistory_length (s : TeamBuilderState) (snap : Snapshot) :
  (length (pushHistory s snap) <= 50)%nat.
Proof. rewrite pushHistory_window. apply keepLast_length. Qed.

Lemma index_nth {A} (l : list A) (i : Z) :
  0 <= i -> JS.index l i = nth_error l (Z.to_nat i).
Proof.
  intros H. unfold JS.index.
  destruct (i <? 0) eqn:E; [apply Z.ltb_lt in E; lia|reflexivity].
Qed.

(** Below the window size nothing is dropped, and the entry at the old
    index is still the old one. *)
Lemma pushHistory_keeps_current (s : TeamBuilderState) (snap cur : Snapshot) :
  0 <= currentHistoryIndex s ->
  currentHistoryIndex s + 1 < MAX_HISTORY ->
  JS.index (history s) (currentHistoryIndex s) = Some cur ->
  JS.index (pushHistory s snap) (currentHistoryIndex s) = Some cur.
Proof.
  unfold MAX_HISTORY. intros H0 H50 Hcur.
  rewrite index_nth in * by lia.
  assert (Hlen : (Z.to_nat (currentHistoryIndex s) < length (history s))%nat).
  { apply nth_error_Some. congruence. }
  rewrite pushHistory_prefix by lia.
  rewrite keepLast_short.
  - rewrite nth_error_app1 by (rewrite length_firstn; lia).
    rewrite nth_error_firstn.
    destruct (Nat.ltb_spec (Z.to_nat (currentHistoryIndex s))
                           (Z.to_nat (currentHistoryIndex s + 1))); [assumption|lia].
  - rewrite length_app, length_firstn. simpl. lia.
Qed.

(** ** Reasoning about heap-passing code *)

Lemma bind_Ok {A B} (m : M A) (k : A -> M B) (h h' : Heap) (b : B) :
  bind m k h = (Ok b, h') ->
  exists a h1, m h = (Ok a, h1) /\ k a h1 = (Ok b, h').
Proof.
  unfold bind. destruct (m h) as [[a| |] h1]; intros H; try discriminate.
  now exists a, h1.
Qed.

Lemma ret_Ok {A} (a b : A) (h h' : Heap) :
  ret a h = (Ok b, h') -> a = b /\ h = h'.
Proof. unfold ret. intros H. now inversion H. Qed.

(** Splits a successful run into the runs of its parts. *)
Ltac run_inv H :=
  match type of H with
  | bind _ _ _ = (Ok _, _) =>
      let a := fresh "a" in
      let h := fresh "h" in
      let H1 := fresh "Hrun" in
      apply bind_Ok in H; destruct H as (a & h & H1 & H);
      run_inv H1; run_inv H
  | ret _ _ = (Ok _, _) =>
      apply ret_Ok in H; destruct H; subst
  | throw _ = (Ok _, _) => discriminate H
  | diverge _ = (Ok _, _) => discriminate H
  | (if ?c then _ else _) _ = (Ok _, _) =>
      let E := fresh "Eif" in destruct c eqn:E; run_inv H
  | _ => idtac
  end.

Section Shapes.

Context {env : Env}.

Lemma recorded_history (s s' : TeamBuilderState) :
  isRecorded s s' ->
  history s' = pushHistory s (nodes s', edges s') /\
  currentHistoryIndex s' = currentHistoryIndex s + 1.
Proof. intros (ns & es & ->). now split. Qed.

Lemma addNodeTail_recorded ids pos cloned tgt s h s' h' :
  addNodeTail ids pos cloned tgt s h = (Ok s', h') -> isRecorded s s'.
Proof.
  unfold addNodeTail. intros H.
  apply bind_Ok in H. destruct H as (g & h1 & _ & H).
  apply bind_Ok in H. destruct H as (h2 & h3 & _ & H).
  destruct (JS.truthy tgt); apply ret_Ok in H; destruct H as [<- _];
    eexists _, _; reflexivity.
Qed.

Lemma dropOnTarget_recorded tgt targetNode cloned s h s' h' :
  dropOnTarget tgt targetNode cloned s h = (Ok (Some s'), h') ->
  isRecorded s s'.
Proof.
  unfold dropOnTarget. intros H.
  apply bind_Ok in H. destruct H as (cc & h1 & _ & H).
  apply bind_Ok in H. destruct H as (tc & h2 & _ & H).
  repeat match type of H with
         | (if ?c then _ else _) _ = _ => destruct c
         end;
    try (apply ret_Ok in H; destruct H; discriminate);
    apply bind_Ok in H; destruct H as (x & h3 & _ & H);
    apply ret_Ok in H; destruct H as [H _]; inversion H;
    eexists _, _; reflexivity.
Qed.

(** [addNode] either returns the state it was given (the target id names
    no node) or a recorded state. *)
Lemma addNode_shape ids pos comp tgt s h s' h' :
  addNode ids pos comp tgt s h = (Ok s', h') ->
  (JS.truthy tgt = true /\ findNode tgt (nodes s) = None /\ s' = s) \/
  isRecorded s s'.
Proof.
  unfold addNode. intros H.
  apply bind_Ok in H. destruct H as (cloned & h1 & _ & H).
  destruct (JS.truthy tgt) eqn:Et.
  - destruct (findNode tgt (nodes s)) as [targetNode|] eqn:Ef.
    + apply bind_Ok in H. destruct H as ([r|] & h2 & Hd & H).
      * apply ret_Ok in H. destruct H as [<- _]. right.
        eapply dropOnTarget_recorded; eassumption.
      * right. eapply addNodeTail_recorded; eassumption.
    + apply ret_Ok in H. destruct H as [<- _]. now left.
  - right. eapply addNodeTail_recorded; eassumption.
Qed.

Lemma updateNode_recorded nodeId updates s h s' h' :
  updateNode nodeId updates s h = (Ok s', h') ->
  isRecorded s s' /\ edges s' = edges s.
Proof.
  unfold updateNode. intros H.
  apply bind_Ok in H. destruct H as (ns & h1 & _ & H).
  apply ret_Ok in H. destruct H as [<- _]. split; [|reflexivity].
  eexists _, _; reflexivity.
Qed.

Lemma removeNode_recorded fuel nodeId s h s' h' :
  removeNode fuel nodeId s h = (Ok s', h') -> isRecorded s s'.
Proof.
  unfold removeNode. intros H.
  apply bind_Ok in H. destruct H as (r & h1 & _ & H).
  apply ret_Ok in H. destruct H as [<- _].
  eexists _, _; reflexivity.
Qed.

Lemma layoutNodes_recorded s h :
  exists s', layoutNodes s h = (Ok s', h) /\ isRecorded s s'.
Proof.
  unfold layoutNodes, bind, getHeap, ret. eexists. split; [reflexivity|].
  eexists _, _; reflexivity.
Qed.

Lemma addEdge_recorded edge s : isRecorded s (addEdge edge s).
Proof. eexists _, _; reflexivity. Qed.

Lemma removeEdge_recorded edgeId s : isRecorded s (removeEdge edgeId s).
Proof. eexists _, _; reflexivity. Qed.

Lemma addToHistory_recorded s : isRecorded s (addToHistory s).
Proof. eexists _, _; reflexivity. Qed.

Lemma undo_history s s' :
  undo s = Ok s' -> history s' = history s.
Proof.
  unfold undo. destruct (currentHistoryIndex s <=? 0).
  - now intros [= <-].
  - destruct (JS.index _ _); [|discriminate]. now intros [= <-].
Qed.

Lemma redo_history s s' :
  redo s = Ok s' -> history s' = history s.
Proof.
  unfold redo. destruct (currentHistoryIndex s >=? _).
  - now intros [= <-].
  - destruct (JS.index _ _); [|discriminate]. now intros [= <-].
Qed.

End Shapes.

(** ** History bookkeeping of the actions *)

Section History.

Context {env : Env}.

Lemma recorded_pushes (s s' : TeamBuilderState) :
  isRecorded s s' -> pushesSnapshot s s'.
Proof.
  intros (ns & es & ->). unfold pushesSnapshot. cbn [history nodes edges recorded currentHistoryIndex].
  split; [apply pushHistory_window|]. split; [|reflexivity].
  intros H. apply slice_prefix. lia.
Qed.

Lemma loadFromJson_shape ids cfg isInitialLoad tid s h s' g h' :
  loadFromJson ids cfg isInitialLoad tid s h = (Ok (s', g), h') ->
  (isInitialLoad = true /\ singleSnapshot s') \/
  (isInitialLoad = false /\ (s' = s \/ pushesSnapshot s s')).
Proof.
  unfold loadFromJson. intros H.
  apply bind_Ok in H. destruct H as (gr & h1 & _ & H).
  apply bind_Ok in H. destruct H as (h2 & h3 & _ & H).
  destruct isInitialLoad.
  - apply ret_Ok in H. destruct H as [H _]. inversion H. left.
    split; [reflexivity|]. now split.
  - right. split; [reflexivity|].
    destruct (_ || _); apply ret_Ok in H; destruct H as [H _]; inversion H.
    + right. unfold pushesSnapshot.
      cbn [history nodes edges currentHistoryIndex].
      rewrite <- surjective_pairing.
      split; [apply pushHistory_window|]. split; [|reflexivity].
      intros Hi. apply slice_prefix. lia.
    + now left.
Qed.



End History.

(** What [undo] and [redo] do where the snapshot they read exists.  [undo]
    returns the state it was given when the index is at most 0; otherwise,
    with a snapshot at index - 1, it takes nodes and edges from that
    snapshot and lowers the index by one (and such a snapshot exists
    whenever the index is within the history).  [redo] returns the state
    it was given when the index is at least length - 1; otherwise it takes
    nodes and edges from the snapshot at index + 1 and raises the index by
    one.  Nothing else of the state changes. *)
Lemma undo_redo_steps (s : TeamBuilderState) :
  (currentHistoryIndex s <= 0 -> undo s = Ok s) /\
  (forall p,
     0 < currentHistoryIndex s ->
     JS.index (history s) (currentHistoryIndex s - 1) = Some p ->
     undo s = Ok (mkState (fst p) (snd p) (selectedNodeId s) (history s)
                          (currentHistoryIndex s - 1)
                          (originalComponent s) (teamId s))) /\
  (0 < currentHistoryIndex s <= Z.of_nat (length (history s)) ->
   exists p, JS.index (history s) (currentHistoryIndex s - 1) = Some p) /\
  (currentHistoryIndex s >= Z.of_nat (length (history s)) - 1 -> redo s = Ok s) /\
  (forall p,
     currentHistoryIndex s < Z.of_nat (length (history s)) - 1 ->
     JS.index (history s) (currentHistoryIndex s + 1) = Some p ->
     redo s = Ok (mkState (fst p) (snd p) (selectedNodeId s) (history s)
                          (currentHistoryIndex s + 1)
                          (originalComponent s) (teamId s))) /\
  (-1 <= currentHistoryIndex s < Z.of_nat (length (history s)) - 1 ->
   exists p, JS.index (history s) (currentHistoryIndex s + 1) = Some p).
Proof.
  repeat split.
  - intros H. unfold undo.
    destruct (currentHistoryIndex s <=? 0) eqn:E; [reflexivity|].
    apply Z.leb_gt in E. lia.
  - intros p H Hp. unfold undo.
    destruct (currentHistoryIndex s <=? 0) eqn:E; [apply Z.leb_le in E; lia|].
    now rewrite Hp.
  - intros H. rewrite index_nth by lia.
    destruct (nth_error (history s) (Z.to_nat (currentHistoryIndex s - 1))) eqn:E;
      [eauto|]. apply nth_error_None in E. lia.
  - intros H. unfold redo.
    destruct (currentHistoryIndex s >=? _) eqn:E; [reflexivity|].
    rewrite Z.geb_leb in E. apply Z.leb_gt in E. lia.
  - intros p H Hp. unfold redo.
    destruct (currentHistoryIndex s >=? _) eqn:E;
      [rewrite Z.geb_leb in E; apply Z.leb_le in E; lia|].
    now rewrite Hp.
  - intros H. rewrite index_nth by lia.
    destruct (nth_error (history s) (Z.to_nat (currentHistoryIndex s + 1))) eqn:E;
      [eauto|]. apply nth_error_None in E. lia.
Qed.

(** Past the history there is nothing to read: [undo] throws and the
    store keeps its state. *)
Lemma undo_without_snapshot (s : TeamBuilderState) :
  0 < currentHistoryIndex s ->
  JS.index (history s) (currentHistoryIndex s - 1) = None ->
  undo s = TypeError.
Proof.
  intros H Hn. unfold undo.
  destruct (currentHistoryIndex s <=? 0) eqn:E; [apply Z.leb_le in E; lia|].
  now rewrite Hn.
Qed.

Example undo_redo_on_two_snapshots :
  undo Run.oneEdge = Ok Run.noEdge /\ redo Run.noEdge = Ok Run.oneEdge.
Proof.
  split.
  - apply (proj1 (proj2 (undo_redo_steps Run.oneEdge)) ([], [])).
    + cbn. lia.
    + reflexivity.
  - apply (proj1 (proj2 (proj2 (proj2 (proj2 (undo_redo_steps Run.noEdge)))))
             ([], [Run.edge1])).
    + cbn. lia.
    + reflexivity.
Defined.

Lemma run_reachable {env : Env} (acts : list Action) (w : Store) :
  reachable w -> reachable (run acts w).
Proof.
  revert w. induction acts as [|a acts IH]; intros w Hw; [assumption|].
  cbn. apply IH. now constructor.
Qed.

(** C5, as stated, fails: [addNode] with a target id that names no node
    returns the state it was given; no snapshot is appended and the index
    is not incremented. *)
Lemma addNode_missing_target_records_nothing :
  exists s' h',
    addNode (env := Sample.env) (Sample.idsFrom "x") origin
            (Sample.tool "t") "ghost" (st Run.loaded) (hp Run.loaded)
    = (Ok s', h') /\
    s' = st Run.loaded /\
    ~ pushesSnapshot (st Run.loaded) s'.
Proof.
  eexists _, _. split; [reflexivity|]. split; [reflexivity|].
  intros (_ & _ & H). cbn in H. discriminate.
Qed.

(** C5, amended.  Whenever one of addNode, updateNode, removeNode, addEdge,
    removeEdge, layoutNodes, addToHistory completes, the new history is the
    old one cut after the current index (the redo tail is dropped),
    followed by one snapshot of the resulting nodes and edges, cut to its
    last 50 entries, and the index is one higher -- except that addNode
    with a target id naming no node returns the state unchanged.  undo and
    redo leave the history as it is. *)
Theorem recording_actions_push_one_snapshot {env : Env}
    (s : TeamBuilderState) (h : Heap) :
  (forall ids pos comp tgt s' h',
     addNode ids pos comp tgt s h = (Ok s', h') ->
     (JS.truthy tgt = true /\ findNode tgt (nodes s) = None /\ s' = s) \/
     pushesSnapshot s s') /\
  (forall nodeId updates s' h',
     updateNode nodeId updates s h = (Ok s', h') -> pushesSnapshot s s') /\
  (forall fuel nodeId s' h',
     removeNode fuel nodeId s h = (Ok s', h') -> pushesSnapshot s s') /\
  (forall edge, pushesSnapshot s (addEdge edge s)) /\
  (forall edgeId, pushesSnapshot s (removeEdge edgeId s)) /\
  (exists s', layoutNodes s h = (Ok s', h) /\ pushesSnapshot s s') /\
  pushesSnapshot s (addToHistory s) /\
  (forall s', undo s = Ok s' -> history s' = history s) /\
  (forall s', redo s = Ok s' -> history s' = history s).
Proof.
  repeat match goal with |- _ /\ _ => split end.
  - intros * H. apply addNode_shape in H.
    destruct H as [H|H]; [now left|right; now apply recorded_pushes].
  - intros * H. apply updateNode_recorded in H. now apply recorded_pushes.
  - intros * H. apply removeNode_recorded in H. now apply recorded_pushes.
  - intros edge. apply recorded_pushes, addEdge_recorded.
  - intros edgeId. apply recorded_pushes, removeEdge_recorded.
  - destruct (layoutNodes_recorded s h) as (s' & E & R).
    exists s'. split; [assumption|now apply recorded_pushes].
  - apply recorded_pushes, addToHistory_recorded.
  - apply undo_history.
  - apply redo_history.
Qed.

Lemma recording_actions_push_one_snapshot_witness :
  pushesSnapshot
    (st Run.loaded)
    (st (Run.act [UpdateNode "ni" (mkUpdates (Some "b") None None)] Run.loaded)).
Proof.
  apply (proj1 (proj2 (recording_actions_push_one_snapshot
                         (env := Sample.env) (st Run.loaded) (hp Run.loaded)))
           "ni" (mkUpdates (Some "b") None None) _
           (hp (Run.act [UpdateNode "ni" (mkUpdates (Some "b") None None)]
                        Run.loaded))).
  vm_compute. reflexivity.
Defined.

(** C7 fails on the code where the index has run past the history (the
    defect of C6).  After [loadFromJson(team, true)] and fifty-one
    [addEdge] calls the index is 51 and the history holds 50 snapshots:
    the index is positive, so [undo] goes on to read [history[50].nodes],
    which throws; nodes, edges and index stay as they were instead of
    moving to a snapshot with the index lowered by one. *)
Theorem undo_throws_past_history :
  let w := Run.act (repeat (AddEdge Run.edge1) 51) Run.loaded in
  reachable (env := Sample.env) w /\
  currentHistoryIndex (st w) = 51 /\
  length (history (st w)) = 50%nat /\
  undo (st w) = TypeError /\
  st (Run.act [Undo] w) = st w.
Proof.
  split.
  - unfold Run.act, Run.loaded, Run.built. repeat apply run_reachable.
    constructor.
  - vm_compute. repeat split.
Qed.

(** C6 fails on the code.  After [loadFromJson(team, true)] and fifty
    [addEdge] calls the history holds 50 snapshots while
    [currentHistoryIndex] is 50: the index is past the last entry. *)
Theorem history_index_leaves_history :
  let w := Run.act (repeat (AddEdge Run.edge1) 50) Run.loaded in
  reachable (env := Sample.env) w /\
  length (history (st w)) = 50%nat /\
  currentHistoryIndex (st w) = 50 /\
  JS.index (history (st w)) (currentHistoryIndex (st w)) = None.
Proof.
  split.
  - unfold Run.act, Run.loaded, Run.built. repeat apply run_reachable.
    constructor.
  - vm_compute. repeat split.
Qed.


(** ** Actions that only allocate *)

Lemma extends_refl (h : Heap) : extends h h.
Proof. split; [lia|auto]. Qed.

Lemma extends_trans (h1 h2 h3 : Heap) :
  extends h1 h2 -> extends h2 h3 -> extends h1 h3.
Proof.
  intros [L1 E1] [L2 E2]. split; [lia|]. intros l Hl.
  destruct (E1 l Hl) as (A1 & B1 & C1).
  destruct (E2 l ltac:(lia)) as (A2 & B2 & C2).
  repeat split; congruence.
Qed.

Lemma upd_other {A} (f : loc -> A) (l l' : loc) (v : A) :
  l' <> l -> upd f l v l' = f l'.
Proof.
  intros H. unfold upd. destruct (Nat.eqb_spec l' l); [contradiction|reflexivity].
Qed.

Lemma upd_same {A} (f : loc -> A) (l : loc) (v : A) : upd f l v l = v.
Proof. unfold upd. now rewrite Nat.eqb_refl. Qed.

Lemma allocOnly_ret {A} (a : A) : allocOnly (ret a).
Proof. intros h r h' [= _ <-]. apply extends_refl. Qed.

Lemma allocOnly_throw {A} : allocOnly (@throw A).
Proof. intros h r h' [= _ <-]. apply extends_refl. Qed.

Lemma allocOnly_diverge {A} : allocOnly (@diverge A).
Proof. intros h r h' [= _ <-]. apply extends_refl. Qed.

Lemma allocOnly_bind {A B} (m : M A) (k : A -> M B) :
  allocOnly m -> (forall a, allocOnly (k a)) -> allocOnly (bind m k).
Proof.
  intros Hm Hk h r h'. unfold bind.
  destruct (m h) as [[a| |] h1] eqn:E; intros H.
  - eapply extends_trans; [eapply Hm; eassumption|eapply Hk; eassumption].
  - inversion H; subst. eapply Hm; eassumption.
  - inversion H; subst. eapply Hm; eassumption.
Qed.

Lemma allocOnly_getComp l : allocOnly (getComp l).
Proof. intros h r h' [= _ <-]. apply extends_refl. Qed.

Lemma allocOnly_getConf l : allocOnly (getConf l).
Proof. intros h r h' [= _ <-]. apply extends_refl. Qed.

Lemma allocOnly_getArr l : allocOnly (getArr l).
Proof. intros h r h' [= _ <-]. apply extends_refl. Qed.

Lemma allocOnly_getHeap : allocOnly getHeap.
Proof. intros h r h' [= _ <-]. apply extends_refl. Qed.

Lemma allocOnly_deref p : allocOnly (deref p).
Proof. destruct p; [apply allocOnly_ret|apply allocOnly_throw]. Qed.

Lemma allocOnly_newComp c : allocOnly (newComp c).
Proof.
  intros h r h' [= _ <-]. split; cbn; [lia|]. intros l Hl.
  rewrite upd_other by lia. auto.
Qed.

Lemma allocOnly_newConf c : allocOnly (newConf c).
Proof.
  intros h r h' [= _ <-]. split; cbn; [lia|]. intros l Hl.
  rewrite upd_other by lia. auto.
Qed.

Lemma allocOnly_newArr a : allocOnly (newArr a).
Proof.
  intros h r h' [= _ <-]. split; cbn; [lia|]. intros l Hl.
  rewrite upd_other by lia. auto.
Qed.

Lemma allocOnly_mapM {A B} (f : A -> M B) (xs : list A) :
  (forall x, allocOnly (f x)) -> allocOnly (mapM f xs).
Proof.
  intros Hf. induction xs as [|x xs IH]; cbn [mapM].
  - apply allocOnly_ret.
  - apply allocOnly_bind; [apply Hf|]. intros y.
    apply allocOnly_bind; [apply IH|]. intros ys. apply allocOnly_ret.
Qed.

Lemma allocOnly_forEachM {A S} (f : A -> S -> M S) (xs : list A) (acc : S) :
  (forall x a, allocOnly (f x a)) -> allocOnly (forEachM f xs acc).
Proof.
  intros Hf. revert acc. induction xs as [|x xs IH]; intros acc; cbn [forEachM].
  - apply allocOnly_ret.
  - apply allocOnly_bind; [apply Hf|]. intros a. apply IH.
Qed.

(** Discharges [allocOnly] for code built from reads, allocations and
    control flow. *)
Ltac alloc_only :=
  repeat first
    [ apply allocOnly_ret | apply allocOnly_throw | apply allocOnly_diverge
    | apply allocOnly_getComp | apply allocOnly_getConf
    | apply allocOnly_getArr | apply allocOnly_getHeap | apply allocOnly_deref
    | apply allocOnly_newComp | apply allocOnly_newConf | apply allocOnly_newArr
    | apply allocOnly_bind; [|intros ?]
    | match goal with
      | |- allocOnly (if ?c then _ else _) => destruct c
      | |- allocOnly (match ?x with _ => _ end) => destruct x
      end ].

Section Frames.

Context {env : Env}.

Lemma allocOnly_updateOne nodeId updates s node :
  allocOnly (updateOne nodeId updates s node).
Proof. unfold updateOne. alloc_only. Qed.

Lemma allocOnly_updateNode nodeId updates s :
  allocOnly (updateNode nodeId updates s).
Proof.
  unfold updateNode. apply allocOnly_bind.
  - apply allocOnly_mapM. intros x. apply allocOnly_updateOne.
  - intros ns. apply allocOnly_ret.
Qed.

Lemma allocOnly_withoutParticipant teamNode node :
  allocOnly (withoutParticipant teamNode node).
Proof. unfold withoutParticipant. alloc_only. Qed.

Lemma allocOnly_collect fuel s id acc :
  allocOnly (collectNodesToRemove fuel s id acc).
Proof.
  revert id acc. induction fuel as [|fuel IH]; intros id acc;
    cbn [collectNodesToRemove]; [apply allocOnly_diverge|].
  destruct (findNode id (nodes s)) as [node|]; [|apply allocOnly_ret].
  apply allocOnly_bind; [apply allocOnly_getComp|]. intros c.
  destruct (isTeamComponent (header c)).
  - apply allocOnly_forEachM. intros e a. apply IH.
  - destruct (isAgentComponent (header c)); [|apply allocOnly_ret].
    destruct (find isAgentConnection _) as [teamEdge|]; [|apply allocOnly_ret].
    destruct (findNode (source teamEdge) (nodes s)) as [teamNode|];
      [|apply allocOnly_ret].
    apply allocOnly_bind; [apply allocOnly_getComp|]. intros tc.
    destruct (isTeamComponent (header tc)); [|apply allocOnly_ret].
    apply allocOnly_bind; [apply allocOnly_withoutParticipant|].
    intros n. apply allocOnly_ret.
Qed.

Lemma allocOnly_removeNode fuel nodeId s :
  allocOnly (removeNode fuel nodeId s).
Proof.
  unfold removeNode. apply allocOnly_bind; [apply allocOnly_collect|].
  intros r. apply allocOnly_ret.
Qed.

Lemma recorded_undo (s s' : TeamBuilderState) :
  seeded s -> isRecorded s s' -> undoRestores s s'.
Proof.
  intros (H0 & H50 & Hcur) (ns & es & ->). unfold undoRestores, undo.
  cbn [currentHistoryIndex recorded history].
  destruct (currentHistoryIndex s + 1 <=? 0) eqn:E; [apply Z.leb_le in E; lia|].
  replace (currentHistoryIndex s + 1 - 1) with (currentHistoryIndex s) by lia.
  rewrite (pushHistory_keeps_current s (ns, es) H0 H50 Hcur).
  eexists. split; [reflexivity|]. cbn. auto.
Qed.

End Frames.

(** C1, as stated, fails, in three ways.  From the initial store the first
    recorded action cannot be undone ([undo] returns the state when the
    index is at most 0).  A model dropped on the team node is written into
    the config object that the earlier snapshot shares, so after [undo]
    the node list is the old one but the team's [model_client] stays.
    With 50 snapshots in the history the oldest is dropped while the index
    still goes up, and [undo] selects the snapshot just taken. *)
Lemma undo_does_not_always_restore :
  (exists s',
     undo (addEdge Run.edge1 initialState) = Ok s' /\
     edges s' <> edges initialState) /\
  (let w := Run.loaded in
   let w' := Run.act [AddNode (Sample.idsFrom "m") origin (Sample.model "gpt") "n";
                      Undo] w in
   nodes (st w') = nodes (st w) /\
   currentHistoryIndex (st w') = currentHistoryIndex (st w) /\
   modelClientOf (hp w) 4%nat = None /\
   modelClientOf (hp w') 4%nat <> None) /\
  (let w := Run.act (repeat (AddEdge Run.edge1) 49) Run.loaded in
   let w' := Run.act [AddEdge Run.edge1; Undo] w in
   edges (st w') <> edges (st w)).
Proof.
  split; [|split].
  - eexists. split; [reflexivity|]. cbn. discriminate.
  - vm_compute. repeat split; discriminate.
  - vm_compute. discriminate.
Qed.

(** C1, amended.  In a state whose current graph is recorded at
    [currentHistoryIndex], with room for one more snapshot, [undo] right
    after a completed addNode (given no target, or an existing one),
    updateNode, removeNode, addEdge, removeEdge or layoutNodes brings back
    the node and edge arrays and the index of before; updateNode and
    removeNode only allocate, and addEdge, removeEdge and layoutNodes do
    not touch the objects, so for these five the contents of every
    earlier object are as before too. *)
Theorem undo_after_recording_action {env : Env}
    (s : TeamBuilderState) (h : Heap) :
  seeded s ->
  (forall ids pos comp tgt s' h',
     addNode ids pos comp tgt s h = (Ok s', h') ->
     JS.truthy tgt = false \/ findNode tgt (nodes s) <> None ->
     undoRestores s s') /\
  (forall nodeId updates s' h',
     updateNode nodeId updates s h = (Ok s', h') ->
     undoRestores s s' /\ extends h h') /\
  (forall fuel nodeId s' h',
     removeNode fuel nodeId s h = (Ok s', h') ->
     undoRestores s s' /\ extends h h') /\
  (forall edge, undoRestores s (addEdge edge s)) /\
  (forall edgeId, undoRestores s (removeEdge edgeId s)) /\
  (exists s', layoutNodes s h = (Ok s', h) /\ undoRestores s s').
Proof.
  intros Hs. repeat match goal with |- _ /\ _ => split end.
  - intros * H Ht. apply recorded_undo; [assumption|].
    apply addNode_shape in H. destruct H as [(T & F & _)|H]; [|assumption].
    destruct Ht; congruence.
  - intros * H. split.
    + apply recorded_undo; [assumption|].
      now apply updateNode_recorded in H.
    + eapply allocOnly_updateNode; eassumption.
  - intros * H. split.
    + apply recorded_undo; [assumption|].
      now apply removeNode_recorded in H.
    + eapply allocOnly_removeNode; eassumption.
  - intros edge. apply recorded_undo; [assumption|apply addEdge_recorded].
  - intros edgeId. apply recorded_undo; [assumption|apply removeEdge_recorded].
  - destruct (layoutNodes_recorded s h) as (s' & E & R).
    exists s'. split; [assumption|now apply recorded_undo].
Qed.

Lemma undo_after_recording_action_witness :
  undoRestores (st Run.loaded)
               (st (Run.act [RemoveNode 3 "ni"] Run.loaded)) /\
  extends (hp Run.loaded) (hp (Run.act [RemoveNode 3 "ni"] Run.loaded)).
Proof.
  assert (Hs : seeded (st Run.loaded)).
  { repeat split; vm_compute; congruence. }
  apply (proj1 (proj2 (proj2 (undo_after_recording_action
                                (env := Sample.env) (hp Run.loaded) Hs)))
           3%nat "ni").
  vm_compute. reflexivity.
Defined.

(** ** syncToJson *)

Section Sync.

Context {env : Env}.

Lemma buildTeamComponent_team teamNode ns es h :
  isTeamComponent (headerAt h (component teamNode)) = true ->
  buildTeamComponent teamNode ns es h =
  (Ok (Some (next h)), syncHeap h teamNode ns es).
Proof.
  intros Hg. unfold buildTeamComponent, bind, getComp, newComp, getHeap,
    newArr, getConf, setConf, ret, headerAt in *.
  rewrite Hg. cbn. rewrite upd_same. cbn. reflexivity.
Qed.

Lemma buildTeamComponent_other teamNode ns es h :
  isTeamComponent (headerAt h (component teamNode)) = false ->
  buildTeamComponent teamNode ns es h = (Ok None, h).
Proof.
  intros Hg. unfold buildTeamComponent, bind, getComp, ret, headerAt in *.
  now rewrite Hg.
Qed.

Lemma filter_head_find {A} (p : A -> bool) (l : list A) :
  find p l = match filter p l with [] => None | x :: _ => Some x end.
Proof.
  induction l as [|x l IH]; [reflexivity|]. cbn. now destruct (p x).
Qed.

(** The value [syncToJson] returns and the heap it leaves: [null] without
    a team-typed node or when the first one fails the team guard,
    otherwise a copy of that node's component whose participants are the
    agents its agent-connection edges lead to. *)
Lemma syncToJson_result (s : TeamBuilderState) (h : Heap) :
  syncToJson s h =
  match firstTeamNode h (nodes s) with
  | None => (Ok None, h)
  | Some teamNode =>
      if isTeamComponent (headerAt h (component teamNode))
      then (Ok (Some (next h)), syncHeap h teamNode (nodes s) (edges s))
      else (Ok None, h)
  end.
Proof.
  unfold syncToJson, firstTeamNode, bind, getHeap.
  rewrite filter_head_find.
  destruct (filter _ (nodes s)) as [|teamNode rest]; [reflexivity|].
  destruct (isTeamComponent (headerAt h (component teamNode))) eqn:E.
  - now apply buildTeamComponent_team.
  - now apply buildTeamComponent_other.
Qed.

Lemma syncHeap_returned h teamNode ns es :
  headerAt (syncHeap h teamNode ns es) (next h)
    = headerAt h (component teamNode) /\
  participantsOf (syncHeap h teamNode ns es) (next h)
    = Some (map Some (edgeAgents (copiedHeap h teamNode) teamNode ns es)).
Proof.
  unfold participantsOf, headerAt, syncHeap, copiedHeap. cbn.
  rewrite !upd_same. cbn. rewrite !upd_same. auto.
Qed.

End Sync.

(** C8 fails on the code in its last part.  After the only
    agent-connection edge is removed, the team node's config still lists
    the agent; [syncToJson] returns a copy of the component, but the copy
    shares the node's config object, and assigning the computed (empty)
    participants through it rewrites the participants of the node in the
    store. *)
Theorem syncToJson_rewrites_team_participants :
  let w := Run.act [RemoveEdge "nii"] Run.loaded in
  let r := syncToJson (env := Sample.env) (st w) (hp w) in
  option_map component (firstTeamNode (hp w) (nodes (st w)))
    = Some 4%nat /\
  participantsOf (hp w) 4%nat = Some [Some 1%nat] /\
  fst r = Ok (Some 5%nat) /\
  participantsOf (snd r) 5%nat = Some [] /\
  participantsOf (snd r) 4%nat = Some [].
Proof. vm_compute. repeat split. Qed.

(** ** Participants read off the edges *)

Lemma find_map {A B} (f : A -> B) (p : B -> bool) (l : list A) :
  find p (map f l) = option_map f (find (fun x => p (f x)) l).
Proof.
  induction l as [|x l IH]; [reflexivity|]. cbn. now destruct (p (f x)).
Qed.

Lemma flat_map_filter {A B} (g : A -> list B) (p : A -> bool) (l : list A) :
  flat_map g (filter p l) = flat_map (fun x => if p x then g x else []) l.
Proof.
  induction l as [|x l IH]; [reflexivity|]. cbn.
  destruct (p x); cbn; now rewrite IH.
Qed.

Lemma flat_map_map {A B C} (f : A -> B) (g : B -> list C) (l : list A) :
  flat_map g (map f l) = flat_map (fun x => g (f x)) l.
Proof.
  induction l as [|x l IH]; [reflexivity|]. cbn. now rewrite IH.
Qed.

Section EdgeAgents.

Context {env : Env}.

Lemma agentOf_keys h ns e :
  agentOf h ns e = agentOfK h (map nkey ns) (target e).
Proof.
  unfold agentOf, agentOfK, findNode. rewrite find_map. cbn.
  destruct (find _ ns) as [n|]; reflexivity.
Qed.

Lemma edgeAgents_keys h t ns es :
  edgeAgents h t ns es = edgeAgentsK h (nid t) (map nkey ns) (map ekey es).
Proof.
  unfold edgeAgents, edgeAgentsK, participantEdges.
  rewrite flat_map_filter, flat_map_map.
  apply flat_map_ext. intros e. cbn. now rewrite agentOf_keys.
Qed.



End EdgeAgents.



(** ** loadFromJson followed by syncToJson *)

Section RoundTrip.

Context {env : Env}.





End RoundTrip.



Lemma append_length (a b : string) :
  String.length (String.append a b) = (String.length a + String.length b)%nat.
Proof. induction a as [|c a IH]; [reflexivity|]. cbn. now rewrite IH. Qed.


Lemma sample_layoutKeepsGraph : layoutKeepsGraph (env := Sample.env).
Proof. split; intros; split; reflexivity. Qed.


(** ** removeNode on a team node *)

Lemma findNode_some id ns n :
  findNode id ns = Some n -> In n ns /\ nid n = id.
Proof.
  unfold findNode. intros H. apply find_some in H. destruct H as [Hin He].
  split; [assumption|]. now apply String.eqb_eq.
Qed.

Lemma map_nid_filter (p : string -> bool) (f : CustomNode -> CustomNode)
    (ns : list CustomNode) :
  (forall n, nid (f n) = nid n) ->
  map nid (map f (filter (fun n => p (nid n)) ns)) = filter p (map nid ns).
Proof.
  intros Hf. induction ns as [|n ns IH]; [reflexivity|]. cbn.
  destruct (p (nid n)); cbn; [rewrite Hf|]; now rewrite IH.
Qed.

Section Cascading.

Context {env : Env}.

Lemma withoutParticipant_ok teamNode node h a :
  participants (confs h (config (comps h (component teamNode)))) = Some a ->
  exists nc h', withoutParticipant teamNode node h
                = (Ok (set_component teamNode nc), h').
Proof.
  intros Hp. unfold withoutParticipant, bind, getComp, getConf, getArr,
    getHeap, newArr, newConf, newComp, ret.
  rewrite Hp. cbn. eexists _, _. reflexivity.
Qed.

Lemma extends_node h h1 s n :
  nodesAllocated h s -> extends h h1 -> In n (nodes s) ->
  comps h1 (component n) = comps h (component n) /\
  confs h1 (config (comps h (component n)))
    = confs h (config (comps h (component n))).
Proof.
  intros Hal [_ Hex] Hin. destruct (Hal n Hin) as [Hc Hf].
  split; [apply (Hex _ Hc)|apply (Hex _ Hf)].
Qed.

(** Collecting from a node that is not a team: it is added, nothing
    below it is visited, and the call completes. *)
Lemma collect_member fuel s h h1 id acc :
  nodesAllocated h s -> teamsHaveParticipants h s -> extends h h1 ->
  (forall n, findNode id (nodes s) = Some n ->
             isTeamComponent (headerAt h (component n)) = false) ->
  keyed acc ->
  exists acc' h2,
    collectNodesToRemove (S fuel) s id acc h1 = (Ok acc', h2) /\
    extends h h2 /\ keyed acc' /\
    nodesToRemove acc' =
      (if nodeExists s id then [id] else []) ++ nodesToRemove acc.
Proof.
  intros Hal Hps Hex Hnt Hk. unfold nodeExists. cbn [collectNodesToRemove].
  destruct (findNode id (nodes s)) as [node|] eqn:Ef.
  2:{ exists acc, h1. split; [reflexivity|]. split; [assumption|].
      split; [assumption|reflexivity]. }
  destruct (findNode_some _ _ Ef) as [Hin _].
  destruct (@extends_node h h1 s node Hal Hex Hin) as [Hc _].
  unfold bind at 1. unfold getComp at 1. rewrite Hc.
  specialize (Hnt node eq_refl). unfold headerAt in Hnt. rewrite Hnt.
  set (acc1 := mkCollected (id :: nodesToRemove acc) (updatedNodes acc)).
  assert (Hdone : exists acc' h2,
             ret acc1 h1 = (Ok acc', h2) /\ extends h h2 /\ keyed acc' /\
             nodesToRemove acc' = [id] ++ nodesToRemove acc).
  { exists acc1, h1. split; [reflexivity|]. split; [assumption|].
    split; [assumption|reflexivity]. }
  destruct (isAgentComponent (header (comps h (component node))));
    [|exact Hdone].
  destruct (find isAgentConnection _) as [teamEdge|]; [|exact Hdone].
  destruct (findNode (source teamEdge) (nodes s)) as [teamNode|] eqn:Et;
    [|exact Hdone].
  destruct (findNode_some _ _ Et) as [Hint _].
  destruct (@extends_node h h1 s teamNode Hal Hex Hint) as [Htc Htf].
  unfold bind at 1. unfold getComp at 1. rewrite Htc.
  destruct (isTeamComponent (header (comps h (component teamNode)))) eqn:Eg;
    [|exact Hdone].
  destruct (participants (confs h (config (comps h (component teamNode)))))
    as [a|] eqn:Ep; [|exfalso; now apply (Hps teamNode Hint Eg)].
  destruct (@withoutParticipant_ok teamNode node h1 a) as (nc & h2 & Hw).
  { now rewrite Htc, Htf. }
  unfold bind at 1. rewrite Hw. unfold ret.
  eexists _, h2. split; [reflexivity|]. split; [|split].
  - eapply extends_trans; [exact Hex|].
    eapply allocOnly_withoutParticipant; exact Hw.
  - intros k n [H|H].
    + inversion H; subst. reflexivity.
    + now apply Hk.
  - reflexivity.
Qed.

Lemma collect_members fuel s h (L : list CustomEdge) :
  nodesAllocated h s -> teamsHaveParticipants h s ->
  (forall e n, In e L -> findNode (target e) (nodes s) = Some n ->
               isTeamComponent (headerAt h (component n)) = false) ->
  forall h1 acc, extends h h1 -> keyed acc ->
  exists acc' h2,
    forEachM (fun e => collectNodesToRemove (S fuel) s (target e)) L acc h1
    = (Ok acc', h2) /\
    extends h h2 /\ keyed acc' /\
    forall id,
      has (nodesToRemove acc') id =
      has (nodesToRemove acc) id ||
      existsb (fun e => nodeExists s (target e) && String.eqb id (target e)) L.
Proof.
  intros Hal Hps. induction L as [|e L IH]; intros HL h1 acc Hex Hk.
  - exists acc, h1. split; [reflexivity|]. split; [assumption|].
    split; [assumption|]. intros id. cbn. now rewrite orb_false_r.
  - cbn [forEachM].
    destruct (@collect_member fuel s h h1 (target e) acc Hal Hps Hex)
      as (acc1 & h2 & Hrun & Hex2 & Hk2 & Hrem); [|assumption|].
    { intros n Hn. apply (HL e n); [now left|assumption]. }
    destruct (IH (fun e' n H => HL e' n (or_intror H)) h2 acc1 Hex2 Hk2)
      as (acc' & h3 & Hrun3 & Hex3 & Hk3 & Hrem3).
    exists acc', h3. unfold bind. rewrite Hrun. split; [assumption|].
    split; [assumption|]. split; [assumption|].
    intros id. rewrite Hrem3, Hrem. unfold has. rewrite existsb_app.
    cbn [existsb app]. destruct (nodeExists s (target e)); cbn [existsb andb orb];
      [|reflexivity].
    destruct (String.eqb id (target e)),
             (existsb (String.eqb id) (nodesToRemove acc)); reflexivity.
Qed.

(** Under [teamEdgesLeadToMembers] the agent-connection edges touching the
    team node all start at it. *)
Lemma team_edges_start_at_team s h tid t e :
  findNode tid (nodes s) = Some t ->
  isTeamComponent (headerAt h (component t)) = true ->
  teamEdgesLeadToMembers h s tid ->
  In e (edges s) -> isAgentConnection e = true -> connectedTo tid e = true ->
  String.eqb (source e) tid = true.
Proof.
  intros Hf Hg Hm Hin Hac Hc.
  destruct (String.eqb_spec (source e) tid) as [|Hne]; [reflexivity|].
  unfold connectedTo in Hc. apply orb_true_iff in Hc.
  destruct Hc as [Hc|Hc]; [apply String.eqb_eq in Hc; contradiction|].
  assert (Hc' := Hc). apply String.eqb_eq in Hc.
  assert (Ht : findNode (target e) (nodes s) = Some t) by now rewrite Hc.
  assert (Hx := Hm e t Hin Hac). unfold connectedTo in Hx.
  rewrite Hc', orb_true_r in Hx. rewrite (Hx eq_refl Ht) in Hg. discriminate.
Qed.

Lemma cascade_members s tid (L : list CustomEdge) id :
  (forall e, In e L -> isAgentConnection e = true -> connectedTo tid e = true ->
             String.eqb (source e) tid = true) ->
  existsb (fun e => nodeExists s (target e) && String.eqb id (target e))
          (filter isAgentConnection (filter (connectedTo tid) L))
  = existsb (String.eqb id)
      (map target
         (filter (fun e => isAgentConnection e && String.eqb (source e) tid &&
                           nodeExists s (target e)) L)).
Proof.
  intros H. induction L as [|e L IH]; [reflexivity|].
  assert (IH' := IH (fun e' Hin => H e' (or_intror Hin))).
  cbn [filter]. specialize (H e (or_introl eq_refl)).
  unfold connectedTo in *.
  destruct (isAgentConnection e) eqn:Ea;
    destruct (String.eqb (source e) tid) eqn:Es;
    destruct (String.eqb (target e) tid) eqn:Et;
    cbn [orb andb filter]; rewrite ?Ea; cbn [existsb map];
    try (specialize (H eq_refl eq_refl); discriminate);
    try exact IH';
    destruct (nodeExists s (target e)); cbn [existsb map andb orb];
    now rewrite IH'.
Qed.

End Cascading.

(** With an agent-connection edge from the team node to itself the
    recursion of [collectNodesToRemove] never comes back, whatever the
    fuel. *)
Lemma collect_loop_diverges (fuel : nat) (acc : Collected) :
  fst (collectNodesToRemove (env := Sample.env) fuel (st Cascade.withLoop) "n"
                            acc (hp Cascade.withLoop)) = OutOfFuel.
Proof.
  revert acc. induction fuel as [|fuel IH]; intros acc; [reflexivity|].
  set (s := st Cascade.withLoop) in *. set (h := hp Cascade.withLoop) in *.
  cbn [collectNodesToRemove].
  assert (Hf : findNode "n" (nodes s) =
               Some (mkNode "n" origin "team" (mkNodeData (Some "Team") 4%nat "team")))
    by reflexivity.
  rewrite Hf. unfold bind at 1. unfold getComp at 1. cbn [fst snd].
  replace (isTeamComponent (header (comps h (component
             (mkNode "n" origin "team" (mkNodeData (Some "Team") 4%nat "team"))))))
    with true by reflexivity.
  replace (filter isAgentConnection (filter (connectedTo "n") (edges s)))
    with [mkEdge "e3" "n" "n" None None (Some "agent-connection")]
    by reflexivity.
  cbn [forEachM target]. unfold bind at 1.
  specialize (IH (mkCollected ("n" :: nodesToRemove acc) (updatedNodes acc))).
  destruct (collectNodesToRemove fuel s "n" _ h) as [[a| |] h'];
    cbn in IH; try discriminate; reflexivity.
Qed.

(** C4, as stated, fails.  A workbench node tied to the team node by an
    agent-connection edge is not an agent, yet removing the team removes
    it; with an agent-connection edge that leads back to the team node,
    [removeNode] does not return at all; and when the team's component
    has no participants array, filtering it throws and nothing is
    removed. *)
Lemma removeNode_team_takes_more_than_agents :
  (let w := Cascade.withWorkbench in
   let w' := Run.act [RemoveNode 5 "n"] w in
   option_map (fun n => isAgentComponent (Env := Sample.env)
                          (headerAt (hp w) (component n)))
              (findNode "w" (nodes (st w))) = Some false /\
   (exists s', fst (removeNode (env := Sample.env) 5 "n" (st w) (hp w)) = Ok s') /\
   findNode "w" (nodes (st w')) = None) /\
  (forall fuel,
     fst (removeNode (env := Sample.env) fuel "n"
                     (st Cascade.withLoop) (hp Cascade.withLoop)) = OutOfFuel) /\
  (let w := Cascade.withoutParticipants in
   participantsOf (hp w) 6%nat = None /\
   fst (removeNode (env := Sample.env) 5 "n" (st w) (hp w)) = TypeError /\
   nodes (st (Run.act [RemoveNode 5 "n"] w)) = nodes (st w)).
Proof.
  split; [|split].
  - vm_compute. repeat split. eexists. reflexivity.
  - intros fuel. unfold removeNode, bind.
    pose proof (collect_loop_diverges fuel (mkCollected [] [])) as H.
    destruct (collectNodesToRemove fuel _ "n" _ _) as [[a| |] h'];
      cbn in H; try discriminate; reflexivity.
  - vm_compute. repeat split.
Qed.

(** C4, amended.  When the nodes' components are allocated, team
    components carry a participants array, and every agent-connection
    edge touching the team node [t] leads from it to a node that is not a
    team, [removeNode(t.id)] completes (two levels of recursion suffice)
    and removes exactly [t] and every existing node that an
    agent-connection edge with source [t] leads to -- agent or not --
    together with every edge whose source or target is one of them; all
    other nodes keep their place, by id. *)
Theorem removeNode_team_cascade {env : Env} (s : TeamBuilderState) (h : Heap)
    (tid : string) (t : CustomNode) (fuel : nat) :
  findNode tid (nodes s) = Some t ->
  isTeamComponent (headerAt h (component t)) = true ->
  nodesAllocated h s ->
  teamsHaveParticipants h s ->
  teamEdgesLeadToMembers h s tid ->
  exists s' h',
    removeNode (S (S fuel)) tid s h = (Ok s', h') /\
    map nid (nodes s') =
      filter (fun i => negb (has (cascade s tid) i)) (map nid (nodes s)) /\
    edges s' =
      filter (fun e => negb (has (cascade s tid) (source e)) &&
                       negb (has (cascade s tid) (target e))) (edges s).
Proof.
  intros Hf Hg Hal Hps Hm.
  set (L := filter isAgentConnection (filter (connectedTo tid) (edges s))).
  destruct (@collect_members env fuel s h L Hal Hps) with
    (h1 := h) (acc := mkCollected [tid] [])
    as (acc' & h2 & Hrun & Hex & Hk & Hrem).
  { intros e n Hin Hn. unfold L in Hin.
    apply filter_In in Hin. destruct Hin as [Hin Hac].
    apply filter_In in Hin. destruct Hin as [Hin Hc].
    exact (Hm e n Hin Hac Hc Hn). }
  { apply extends_refl. }
  { intros k n []. }
  assert (Hcol : collectNodesToRemove (S (S fuel)) s tid (mkCollected [] []) h
                 = (Ok acc', h2)).
  { cbn [collectNodesToRemove]. rewrite Hf.
    unfold bind at 1. unfold getComp at 1.
    unfold headerAt in Hg. rewrite Hg. exact Hrun. }
  assert (Hhas : forall id, has (nodesToRemove acc') id = has (cascade s tid) id).
  { intros id. rewrite Hrem. unfold cascade, has. cbn [existsb nodesToRemove].
    rewrite orb_false_r. f_equal. unfold L. apply cascade_members.
    intros e Hin Hac Hc.
    exact (@team_edges_start_at_team env s h tid t e Hf Hg Hm Hin Hac Hc). }
  eexists _, h2. unfold removeNode. unfold bind at 1. rewrite Hcol.
  unfold ret. split; [reflexivity|]. cbn [nodes edges recorded]. split.
  - rewrite (map_nid_filter (fun i => negb (has (nodesToRemove acc') i))).
    + apply filter_ext. intros i. now rewrite Hhas.
    + intros n. unfold getUpdated.
      destruct (find _ (updatedNodes acc')) as [[k n']|] eqn:Efind;
        [|reflexivity].
      cbn [option_map snd]. apply find_some in Efind.
      destruct Efind as [Hin Hkey]. cbn [fst] in Hkey.
      apply String.eqb_eq in Hkey. rewrite (Hk k n' Hin). exact Hkey.
  - apply filter_ext. intros e. now rewrite !Hhas.
Qed.

Lemma removeNode_team_cascade_witness :
  exists s' h',
    removeNode (env := Sample.env) 2 "n" (st Run.loaded) (hp Run.loaded)
    = (Ok s', h') /\
    map nid (nodes s') =
      filter (fun i => negb (has (cascade (st Run.loaded) "n") i))
             (map nid (nodes (st Run.loaded))) /\
    edges s' =
      filter (fun e => negb (has (cascade (st Run.loaded) "n") (source e)) &&
                       negb (has (cascade (st Run.loaded) "n") (target e)))
             (edges (st Run.loaded)).
Proof.
  apply (@removeNode_team_cascade Sample.env (st Run.loaded) (hp Run.loaded) "n"
           (mkNode "n" origin "team" (mkNodeData (Some "Team") 4%nat "team"))
           0%nat).
  - reflexivity.
  - reflexivity.
  - intros n [<-|[<-|[]]]; vm_compute; split; lia.
  - intros n [<-|[<-|[]]]; vm_compute; congruence.
  - intros e n [<-|[]] _ _ Hn. vm_compute in Hn.
    injection Hn as <-. reflexivity.
Defined.

(** ** The deep clone *)

Lemma total_ret {A} (a : A) : total (ret a).
Proof. intros h. now exists a, h. Qed.

Lemma total_bind {A B} (m : M A) (k : A -> M B) :
  total m -> (forall a, total (k a)) -> total (bind m k).
Proof.
  intros Hm Hk h. destruct (Hm h) as (a & h1 & E).
  destruct (Hk a h1) as (b & h2 & E2). exists b, h2.
  unfold bind. now rewrite E.
Qed.

Lemma total_newArr a : total (newArr a).
Proof. intros h. eexists _, _. reflexivity. Qed.

Lemma total_newConf c : total (newConf c).
Proof. intros h. eexists _, _. reflexivity. Qed.

Lemma total_newComp c : total (newComp c).
Proof. intros h. eexists _, _. reflexivity. Qed.

Lemma clone_total_all :
  (forall t, total (clone t)) /\
  (forall o, total (cloneOTree o)) /\
  (forall o, total (cloneOList o)) /\
  (forall l, total (cloneTList l)) /\
  (forall w, total (cloneWTree w)).
Proof.
  apply tree_mutind; intros; cbn [clone cloneOTree cloneOList cloneTList cloneWTree];
    repeat first [ apply total_ret | apply total_newArr | apply total_newConf
                 | apply total_newComp | assumption
                 | apply total_bind; [|intros ?] ].
Qed.

Lemma clone_allocOnly_all :
  (forall t, allocOnly (clone t)) /\
  (forall o, allocOnly (cloneOTree o)) /\
  (forall o, allocOnly (cloneOList o)) /\
  (forall l, allocOnly (cloneTList l)) /\
  (forall w, allocOnly (cloneWTree w)).
Proof.
  apply tree_mutind; intros; cbn [clone cloneOTree cloneOList cloneTList cloneWTree];
    repeat first [ apply allocOnly_ret | apply allocOnly_newArr
                 | apply allocOnly_newConf | apply allocOnly_newComp
                 | assumption
                 | apply allocOnly_bind; [|intros ?] ].
Qed.

(** [JSON.parse(JSON.stringify(component))] completes, leaves every
    earlier object alone, and returns a new component object with the
    value's header and name whose config object is new too. *)
Lemma clone_spec (t : CTree) (h : Heap) :
  exists c h1,
    clone t h = (Ok c, h1) /\ extends h h1 /\
    (next h <= c < next h1)%nat /\
    header (comps h1 c) = treeHeader t /\
    (next h <= config (comps h1 c) < next h1)%nat /\
    config (comps h1 c) <> c /\
    name (confs h1 (config (comps h1 c))) = treeName t.
Proof.
  destruct (proj1 clone_total_all t h) as (c & h1 & E).
  exists c, h1. split; [exact E|].
  split; [exact (proj1 clone_allocOnly_all t h _ _ E)|].
  destruct t as [hd nm ps mc tc wb tl rs]. cbn [clone] in E.
  repeat (apply bind_Ok in E; destruct E as (? & ? & ? & E)).
  unfold newComp in E. inversion E; subst; clear E.
  match goal with H : newConf _ _ = _ |- _ =>
    unfold newConf in H; inversion H; subst; clear H end.
  repeat match goal with
         | H : _ _ ?x = (Ok _, ?y) |- _ =>
             first [ apply (proj1 (proj2 (proj2 clone_allocOnly_all))) in H
                   | apply (proj1 (proj2 clone_allocOnly_all)) in H
                   | apply (proj2 (proj2 (proj2 (proj2 clone_allocOnly_all)))) in H ];
             destruct H as [H _]
         end.
  cbn [comps confs next header config treeHeader treeName].
  rewrite ?upd_same. cbn [header config name].
  rewrite ?upd_same. cbn [name].
  repeat split; lia.
Qed.

(** ** addNode of an agent *)

Lemma find_ext_in {A} (p q : A -> bool) (l : list A) :
  (forall x, In x l -> p x = q x) -> find p l = find q l.
Proof.
  induction l as [|x l IH]; intros H; [reflexivity|]. cbn.
  rewrite (H x) by now left. destruct (q x); [reflexivity|].
  apply IH. intros y Hy. apply H. now right.
Qed.

Section AgentDrop.

Context {env : Env}.

Lemma mapM_participantName (cs : list loc) (h : Heap) :
  mapM participantName (map Some cs) h
  = (Ok (map (fun c => name (confs h (config (comps h c)))) cs), h).
Proof.
  induction cs as [|c cs IH]; [reflexivity|].
  cbn [map mapM]. unfold bind at 1.
  unfold participantName at 1. cbn [deref].
  unfold bind, ret, configOf, getComp, getConf in *. cbn. now rewrite IH.
Qed.

Lemma agentOfK_heap h h' nks tgt :
  (forall nk, In nk nks -> headerAt h' (snd nk) = headerAt h (snd nk)) ->
  agentOfK h' nks tgt = agentOfK h nks tgt.
Proof.
  intros H. unfold agentOfK.
  destruct (find _ nks) as [nk|] eqn:E; [|reflexivity].
  apply find_some in E. destruct E as [Hin _]. now rewrite (H nk Hin).
Qed.

Lemma agentOfK_other_node h nks k c tgt :
  tgt <> k -> agentOfK h (nks ++ [(k, c)]) tgt = agentOfK h nks tgt.
Proof.
  intros Hne. unfold agentOfK.
  assert (E : find (fun nk : string * loc => String.eqb (fst nk) tgt)
                   (nks ++ [(k, c)])
              = find (fun nk : string * loc => String.eqb (fst nk) tgt) nks).
  { induction nks as [|nk nks IH]; cbn [app find fst].
    - destruct (String.eqb_spec k tgt); [congruence|reflexivity].
    - destruct (String.eqb (fst nk) tgt); [reflexivity|exact IH]. }
  now rewrite E.
Qed.

Lemma agentOfK_new_node h nks k c :
  find (fun nk : string * loc => String.eqb (fst nk) k) nks = None ->
  isAgentComponent (headerAt h c) = true ->
  agentOfK h (nks ++ [(k, c)]) k = Some c.
Proof.
  intros Hf Hag. unfold agentOfK.
  assert (E : find (fun nk : string * loc => String.eqb (fst nk) k)
                   (nks ++ [(k, c)]) = Some (k, c)).
  { induction nks as [|nk nks IH]; cbn [app find fst] in *.
    - now rewrite String.eqb_refl.
    - destruct (String.eqb (fst nk) k); [discriminate|now apply IH]. }
  rewrite E. cbn [snd]. now rewrite Hag.
Qed.

Lemma edgeAgentsK_ext h h' tid nks nks' eks :
  (forall ek, In ek eks ->
     agentOfK h' nks' (snd (fst ek)) = agentOfK h nks (snd (fst ek))) ->
  edgeAgentsK h' tid nks' eks = edgeAgentsK h tid nks eks.
Proof.
  intros H. unfold edgeAgentsK. induction eks as [|ek eks IH]; [reflexivity|].
  cbn [flat_map]. rewrite (H ek) by now left. f_equal.
  apply IH. intros ek' Hin. apply H. now right.
Qed.

Lemma edgeAgentsK_app h tid nks eks eks' :
  edgeAgentsK h tid nks (eks ++ eks')
  = edgeAgentsK h tid nks eks ++ edgeAgentsK h tid nks eks'.
Proof. unfold edgeAgentsK. apply flat_map_app. Qed.

(** The participants read off the graph after one agent node and its
    edge were appended: the old ones followed by the new agent. *)
Lemma edgeAgentsK_attach h h' tid nks eks k c :
  (forall nk, In nk nks -> headerAt h' (snd nk) = headerAt h (snd nk)) ->
  find (fun nk : string * loc => String.eqb (fst nk) k) nks = None ->
  (forall ek, In ek eks -> snd (fst ek) <> k) ->
  isAgentComponent (headerAt h' c) = true ->
  edgeAgentsK h' tid (nks ++ [(k, c)])
              (eks ++ [(tid, k, Some "agent-connection")])
  = edgeAgentsK h tid nks eks ++ [c].
Proof.
  intros Hh Hf He Hag. rewrite edgeAgentsK_app. f_equal.
  - apply edgeAgentsK_ext. intros ek Hin.
    rewrite agentOfK_other_node by now apply He.
    now apply agentOfK_heap.
  - unfold edgeAgentsK. cbn [flat_map fst snd].
    rewrite String.eqb_refl. cbn [isAgentConnectionK andb].
    replace ("agent-connection" =? "agent-connection")%string with true
      by reflexivity.
    rewrite agentOfK_new_node by assumption. reflexivity.
Qed.

End AgentDrop.

Section AgentPlace.

Context {env : Env}.

(** [participants.push(newNode.data.component)] on a team config that has
    a participants array. *)
Lemma pushParticipant tcfg cloned a psl h2 :
  participants (confs h2 tcfg) = Some a -> arrs h2 a = psl ->
  (tcf <- getConf tcfg ;;
   (match participants tcf with
    | None =>
        a0 <- newArr [] ;; setConf tcfg (set_participants tcf (Some a0))
    | Some _ => ret tt
    end) ;;;
   tcf' <- getConf tcfg ;;
   a0 <- deref (participants tcf') ;;
   ps0 <- getArr a0 ;;
   setArr a0 (ps0 ++ [Some cloned])) h2
  = (Ok tt, mkHeap (comps h2) (confs h2)
                   (upd (arrs h2) a (psl ++ [Some cloned])) (next h2)).
Proof.
  intros Hp Ha. unfold bind at 1. unfold getConf at 1. rewrite Hp.
  unfold bind at 1. unfold ret at 1.
  unfold bind at 1. unfold getConf at 1. rewrite Hp.
  unfold bind at 1. cbn [deref]. unfold ret at 1.
  unfold bind at 1. unfold getArr at 1. rewrite Ha. reflexivity.
Qed.

Lemma placeComponent_agent ids pos cloned ns es h1 t a ps :
  isTeamComponent (headerAt h1 cloned) = false ->
  isAgentComponent (headerAt h1 cloned) = true ->
  find (fun n => isTeamComponent (headerAt h1 (component n))) ns = Some t ->
  participants (confs h1 (config (comps h1 (component t)))) = Some a ->
  arrs h1 a = map Some ps ->
  config (comps h1 (component t)) <> config (comps h1 cloned) ->
  exists g h3,
    placeComponent ids pos cloned ns es h1 = (Ok g, h3) /\
    map nkey (fst g) = map nkey ns ++ [(ids 0%nat, cloned)] /\
    map ekey (snd g)
      = map ekey es ++ [(nid t, ids 0%nat, Some "agent-connection")] /\
    comps h3 = comps h1 /\
    arrs h3 = upd (arrs h1) a (map Some ps ++ [Some cloned]) /\
    (forall l, l <> config (comps h1 cloned) -> confs h3 l = confs h1 l).
Proof.
  intros Hnt Hag Hfind Hp Ha Hne.
  assert (Hteam : isTeamComponent (header (comps h1 (component t))) = true).
  { apply find_some in Hfind. apply Hfind. }
  unfold headerAt in Hnt, Hag.
  unfold placeComponent.
  unfold bind at 1. unfold getComp at 1. rewrite Hnt, Hag.
  unfold bind at 1. unfold getHeap at 1. rewrite Hfind.
  unfold bind at 1. unfold getComp at 1. rewrite Hteam.
  destruct (isAssistantAgent (header (comps h1 cloned))); cbn [andb].
  - unfold bind at 1. unfold bind at 1. unfold getConf at 1. rewrite Hp.
    unfold bind at 1. unfold getArr at 1. rewrite Ha.
    unfold bind at 1. rewrite mapM_participantName.
    unfold bind at 1. unfold getConf at 1. unfold setConf at 1.
    unfold bind at 1. unfold getConf at 1.
    unfold bind at 1.
    rewrite (@pushParticipant _ cloned a (map Some ps)).
    + unfold ret. eexists _, _. split; [reflexivity|].
      cbn [fst snd comps arrs confs].
      rewrite !map_app. cbn [map nkey ekey newNodeFor nid component data
                                dcomponent source target etype].
      repeat split. intros l Hl. now rewrite upd_other.
    + cbn [confs]. now rewrite upd_other.
    + exact Ha.
  - unfold bind at 1. unfold ret at 1.
    unfold bind at 1. unfold getConf at 1.
    unfold bind at 1.
    rewrite (@pushParticipant _ cloned a (map Some ps) h1 Hp Ha).
    unfold ret. eexists _, _. split; [reflexivity|].
    cbn [fst snd comps arrs confs].
    rewrite !map_app. cbn [map nkey ekey newNodeFor nid component data
                              dcomponent source target etype].
    repeat split.
Qed.

End AgentPlace.

Section AgentMirror.

Context {env : Env}.

(** A component that is none of model, tool, termination and workbench
    takes no branch of the drop onto a target. *)
Lemma dropOnTarget_falls_through tgt targetNode cloned s h :
  isModelComponent (headerAt h cloned) = false ->
  isToolComponent (headerAt h cloned) = false ->
  isTerminationComponent (headerAt h cloned) = false ->
  isWorkbenchComponent (headerAt h cloned) = false ->
  dropOnTarget tgt targetNode cloned s h = (Ok None, h).
Proof.
  unfold headerAt. intros H1 H2 H3 H4.
  unfold dropOnTarget, headerOf, bind, getComp, ret.
  now rewrite H1, H2, H3, H4.
Qed.

Lemma addNodeTail_graph ids pos cloned tgt s h1 g h3 :
  layoutKeepsGraph ->
  placeComponent ids pos cloned (nodes s) (edges s) h1 = (Ok g, h3) ->
  exists s',
    addNodeTail ids pos cloned tgt s h1 = (Ok s', h3) /\
    sameGraph (fst g) (snd g) (nodes s') (edges s').
Proof.
  intros [Hlay Hdim] Hpl. unfold addNodeTail.
  unfold bind at 1. rewrite Hpl. unfold bind at 1. unfold getHeap at 1.
  destruct (JS.truthy tgt); unfold ret; eexists; (split; [reflexivity|]);
    cbn [nodes edges recorded]; [apply Hdim|apply Hlay].
Qed.

End AgentMirror.

(** C3, as stated, fails: removing the edge between the team and its
    agent leaves the agent in the team node's participants. *)
Lemma edges_and_participants_drift :
  let w := Run.act [RemoveEdge "nii"] Run.loaded in
  reachable (env := Sample.env) w /\ ~ mirrored (env := Sample.env) w.
Proof.
  split.
  - unfold Run.act, Run.loaded, Run.built. repeat apply run_reachable.
    constructor.
  - intros H.
    specialize (H (mkNode "n" origin "team" (mkNodeData (Some "Team") 4%nat "team"))).
    assert (Hm := H (or_introl eq_refl) eq_refl).
    vm_compute in Hm. discriminate.
Qed.

(** C3, amended.  Adding an agent keeps the team it is attached to in
    step with its edges: when the first team node [t] mirrors its
    agent-connection edges, an agent component added by [addNode] (with no
    target, or onto an existing node), under fresh ids and a layout that
    keeps the graph, is appended as a node, as an agent-connection edge
    from [t], and -- the same object -- to [t]'s participants, so [t]
    mirrors its edges again.  (addEdge and removeEdge never touch
    participants.) *)
Theorem addNode_agent_keeps_mirror {env : Env}
    (ids : nat -> string) (pos : Position) (comp : CTree) (tgt : string)
    (s : TeamBuilderState) (h : Heap) (t : CustomNode) (a : loc) :
  layoutKeepsGraph ->
  isTeamComponent (treeHeader comp) = false ->
  isAgentComponent (treeHeader comp) = true ->
  isModelComponent (treeHeader comp) = false ->
  isToolComponent (treeHeader comp) = false ->
  isTerminationComponent (treeHeader comp) = false ->
  isWorkbenchComponent (treeHeader comp) = false ->
  (JS.truthy tgt = false \/ findNode tgt (nodes s) <> None) ->
  nodesAllocated h s ->
  attachTeam h s = Some t ->
  participants (confs h (config (comps h (component t)))) = Some a ->
  (a < next h)%nat ->
  mirrors h s t ->
  findNode (ids 0%nat) (nodes s) = None ->
  (forall e, In e (edges s) -> target e <> ids 0%nat) ->
  exists s' h' t' c,
    addNode ids pos comp tgt s h = (Ok s', h') /\
    In t' (nodes s') /\ nkey t' = nkey t /\
    (next h <= c)%nat /\ headerAt h' c = treeHeader comp /\
    map nkey (nodes s') = map nkey (nodes s) ++ [(ids 0%nat, c)] /\
    map ekey (edges s')
      = map ekey (edges s) ++ [(nid t, ids 0%nat, Some "agent-connection")] /\
    participantsOf h' (component t')
      = option_map (fun ps => ps ++ [Some c]) (participantsOf h (component t)) /\
    mirrors h' s' t'.
Proof.
  intros Hlay Hnt Hag Hnm Hntool Hnterm Hnwb Htgt Hal Hat Hp Halt Hmir
         Hfresh Hedges.
  destruct (clone_spec comp h)
    as (c & h1 & Ecl & Hext & Hcr & Hhd & Hcfr & Hneq & Hname).
  assert (Hold : forall n, In n (nodes s) ->
            comps h1 (component n) = comps h (component n) /\
            confs h1 (config (comps h (component n)))
              = confs h (config (comps h (component n)))).
  { intros n Hin. exact (@extends_node h h1 s n Hal Hext Hin). }
  assert (Hint : In t (nodes s)).
  { unfold attachTeam in Hat. apply find_some in Hat. apply Hat. }
  destruct (Hold t Hint) as [Htc Htf].
  assert (Hfind1 : find (fun n => isTeamComponent (headerAt h1 (component n)))
                        (nodes s) = Some t).
  { rewrite (find_ext_in _ (fun n => isTeamComponent (headerAt h (component n))));
      [exact Hat|].
    intros n Hin. unfold headerAt. now rewrite (proj1 (Hold n Hin)). }
  assert (Ha1 : arrs h1 a = arrs h a) by (apply (proj2 Hext a Halt)).
  assert (Hps : arrs h a = map Some (edgeAgents h t (nodes s) (edges s))).
  { unfold mirrors, participantsOf in Hmir. rewrite Hp in Hmir.
    cbn [option_map] in Hmir. now injection Hmir. }
  assert (Hne : config (comps h1 (component t)) <> config (comps h1 c)).
  { rewrite Htc. destruct (Hal t Hint) as [_ Hlt]. lia. }
  destruct (@placeComponent_agent env ids pos c (nodes s) (edges s) h1 t a
              (edgeAgents h t (nodes s) (edges s)))
    as (g & h3 & Epl & Hgn & Hge & Hc3 & Ha3 & Hf3);
    try assumption.
  { unfold headerAt. now rewrite Hhd. }
  { unfold headerAt. now rewrite Hhd. }
  { now rewrite Htc, Htf. }
  { now rewrite Ha1. }
  destruct (@addNodeTail_graph env ids pos c tgt s h1 g h3 Hlay Epl)
    as (s' & Etail & Hsn & Hse).
  assert (Hadd : addNode ids pos comp tgt s h = (Ok s', h3)).
  { unfold addNode. unfold bind at 1. rewrite Ecl.
    destruct (JS.truthy tgt) eqn:Et; [|exact Etail].
    destruct Htgt as [Hf|Hsome]; [discriminate|].
    destruct (findNode tgt (nodes s)) as [targetNode|]; [|contradiction].
    unfold bind at 1. rewrite dropOnTarget_falls_through;
      [exact Etail| | | |]; unfold headerAt; now rewrite Hhd. }
  assert (Hkeys : map nkey (nodes s') = map nkey (nodes s) ++ [(ids 0%nat, c)])
    by now rewrite Hsn.
  assert (Hekeys : map ekey (edges s')
                   = map ekey (edges s)
                     ++ [(nid t, ids 0%nat, Some "agent-connection")])
    by now rewrite Hse.
  assert (Ht' : exists t', In t' (nodes s') /\ nkey t' = nkey t).
  { assert (Hin : In (nkey t) (map nkey (nodes s'))).
    { rewrite Hkeys. apply in_or_app. left. now apply in_map. }
    apply in_map_iff in Hin. destruct Hin as (t' & Hk & Hin). eauto. }
  destruct Ht' as (t' & Hin' & Hk').
  assert (Hct : component t' = component t).
  { unfold nkey in Hk'. now injection Hk'. }
  assert (Hit : nid t' = nid t).
  { unfold nkey in Hk'. now injection Hk'. }
  assert (Hpart : participantsOf h3 (component t')
                  = Some (arrs h a ++ [Some c])).
  { unfold participantsOf. rewrite Hct, Hc3, Htc.
    rewrite Hf3 by (rewrite <- Htc; exact Hne).
    rewrite Htf, Hp. cbn [option_map]. rewrite Ha3, upd_same.
    now rewrite Hps. }
  exists s', h3, t', c.
  split; [exact Hadd|]. split; [exact Hin'|]. split; [exact Hk'|].
  split; [lia|]. split; [unfold headerAt; now rewrite Hc3|].
  split; [exact Hkeys|]. split; [exact Hekeys|]. split.
  - rewrite Hpart. unfold participantsOf. now rewrite Hp.
  - unfold mirrors. rewrite Hpart, Hps. f_equal.
    rewrite (edgeAgents_keys h3 t' (nodes s') (edges s')), Hkeys, Hekeys, Hit.
    rewrite (@edgeAgentsK_attach env h h3).
    + rewrite <- edgeAgents_keys. rewrite map_app. reflexivity.
    + intros nk Hin. apply in_map_iff in Hin.
      destruct Hin as (n & <- & Hin). cbn [nkey snd]. unfold headerAt.
      now rewrite Hc3, (proj1 (Hold n Hin)).
    + rewrite find_map. unfold findNode in Hfresh. cbn [nkey fst].
      now rewrite Hfresh.
    + intros ek Hin. apply in_map_iff in Hin.
      destruct Hin as (e & <- & Hin). cbn [ekey fst snd]. now apply Hedges.
    + unfold headerAt. now rewrite Hc3, Hhd.
Qed.

Lemma addNode_agent_keeps_mirror_witness :
  exists s' h' t' c,
    addNode (env := Sample.env) (Sample.idsFrom "p") origin
            (Sample.assistant "b") "" (st Run.loaded) (hp Run.loaded)
    = (Ok s', h') /\
    In t' (nodes s') /\
    nkey t' = nkey (mkNode "n" origin "team" (mkNodeData (Some "Team") 4%nat "team")) /\
    (next (hp Run.loaded) <= c)%nat /\
    headerAt h' c = treeHeader (Sample.assistant "b") /\
    map nkey (nodes s') = map nkey (nodes (st Run.loaded)) ++ [("p", c)] /\
    map ekey (edges s')
      = map ekey (edges (st Run.loaded)) ++ [("n", "p", Some "agent-connection")] /\
    participantsOf h' (component t')
      = option_map (fun ps => ps ++ [Some c])
                   (participantsOf (hp Run.loaded) 4%nat) /\
    mirrors (env := Sample.env) h' s' t'.
Proof.
  apply (@addNode_agent_keeps_mirror Sample.env (Sample.idsFrom "p") origin
           (Sample.assistant "b") "" (st Run.loaded) (hp Run.loaded)
           (mkNode "n" origin "team" (mkNodeData (Some "Team") 4%nat "team"))
           2%nat).
  - exact sample_layoutKeepsGraph.
  - reflexivity.
  - reflexivity.
  - reflexivity.
  - reflexivity.
  - reflexivity.
  - reflexivity.
  - left. reflexivity.
  - intros n [<-|[<-|[]]]; vm_compute; split; lia.
  - reflexivity.
  - reflexivity.
  - vm_compute. lia.
  - reflexivity.
  - reflexivity.
  - intros e [<-|[]]. vm_compute. discriminate.
Defined.

(** ** A tool dropped on an assistant agent *)

Lemma index_cons_succ {A} (x : A) (l : list A) (r : Z) :
  0 <= r -> JS.index (x :: l) (r + 1) = JS.index l r.
Proof.
  intros Hr. rewrite !index_nth by lia.
  replace (Z.to_nat (r + 1)) with (S (Z.to_nat r)) by lia. reflexivity.
Qed.

Lemma findIndex_lower {A} (p : A -> bool) (l : list A) : -1 <= JS.findIndex p l.
Proof.
  induction l as [|x l IH]; cbn; [lia|].
  destruct (p x); [lia|]. destruct (JS.findIndex p l <? 0) eqn:E; [lia|].
  apply Z.ltb_ge in E. lia.
Qed.

(** [findIndex] against [find]. *)
Lemma findIndex_find {A} (p : A -> bool) (l : list A) :
  match find p l with
  | Some x => 0 <= JS.findIndex p l /\
              JS.index l (JS.findIndex p l) = Some x /\ p x = true /\ In x l
  | None => JS.findIndex p l = -1
  end.
Proof.
  induction l as [|y l IH]; [reflexivity|]. cbn [find JS.findIndex].
  destruct (p y) eqn:Ey.
  - repeat split; [lia|assumption|now left].
  - destruct (find p l) as [x|].
    + destruct IH as (H0 & Hi & Hp & Hin).
      destruct (JS.findIndex p l <? 0) eqn:E; [apply Z.ltb_lt in E; lia|].
      repeat split; [lia| |assumption|now right].
      now rewrite index_cons_succ.
    + now rewrite IH.
Qed.

Lemma index_last {A} (l : list A) (x : A) :
  JS.index (l ++ [x]) (Z.of_nat (length (l ++ [x])) - 1) = Some x.
Proof.
  rewrite length_app. cbn [length]. rewrite index_nth by lia.
  replace (Z.to_nat (Z.of_nat (length l + 1) - 1)) with (length l) by lia.
  rewrite nth_error_app2 by lia. now rewrite Nat.sub_diag.
Qed.

Section ToolDrop.

Context {env : Env}.

Lemma findStaticWorkbench_spec ws h :
  defined ws -> findStaticWorkbench ws h = (Ok (staticIndex h ws), h).
Proof.
  unfold staticIndex. induction ws as [|x ws IH]; intros Hd; [reflexivity|].
  destruct x as [c|]; [|exfalso; now apply (Hd None (or_introl eq_refl))].
  cbn [findStaticWorkbench JS.findIndex staticAt].
  unfold bind at 1. cbn [deref]. unfold ret at 1.
  unfold bind at 1. unfold headerOf at 1. unfold bind at 1.
  unfold getComp at 1. unfold ret at 1. fold (headerAt h c).
  destruct (isStaticWorkbench (headerAt h c)); [reflexivity|].
  unfold bind at 1. rewrite IH; [reflexivity|].
  intros y Hy. apply Hd. now right.
Qed.

Lemma mapM_toolDisplayName ts h :
  defined ts -> mapM toolDisplayName ts h = (Ok (displayNames h ts), h).
Proof.
  induction ts as [|x ts IH]; intros Hd; [reflexivity|].
  destruct x as [c|]; [|exfalso; now apply (Hd None (or_introl eq_refl))].
  cbn [mapM displayNames map option_map].
  unfold bind at 1. unfold toolDisplayName at 1.
  unfold bind at 1. cbn [deref]. unfold ret at 1.
  unfold bind at 1. unfold getComp at 1.
  unfold bind at 1. unfold getConf at 1. unfold ret at 1.
  unfold bind at 1. rewrite IH by (intros y Hy; apply Hd; now right).
  reflexivity.
Qed.

End ToolDrop.

Lemma upd_preserves {A B} (g : A -> B) (f : loc -> A) (l l' : loc) (v : A) :
  g v = g (f l) -> g (upd f l v l') = g (f l').
Proof.
  intros H. unfold upd. destruct (Nat.eqb_spec l' l); [now subst|reflexivity].
Qed.

Section ToolPush.

Context {env : Env}.

(** Pushing the renamed tool into a StaticWorkbench. *)
Lemma addToolToWorkbench_spec (wbc c : loc) (hB : Heap) :
  isStaticWorkbench (headerAt hB wbc) = true ->
  defined (toolsOf hB wbc) ->
  config (comps hB c) <> config (comps hB wbc) ->
  exists h' ta,
    addToolToWorkbench (Some (Some wbc)) c hB = (Ok tt, h') /\
    comps h' = comps hB /\
    (next hB <= next h')%nat /\
    (forall l, workbench (confs h' l) = workbench (confs hB l)) /\
    (forall l, l <> config (comps hB c) -> l <> config (comps hB wbc) ->
               confs h' l = confs hB l) /\
    (tools (confs hB (config (comps hB wbc))) = Some ta \/
     tools (confs hB (config (comps hB wbc))) = None /\ ta = next hB) /\
    tools (confs h' (config (comps hB wbc))) = Some ta /\
    arrs h' ta = toolsOf hB wbc ++ [Some c] /\
    (forall l, l <> ta -> (l < next hB)%nat -> arrs h' l = arrs hB l) /\
    name (confs h' (config (comps hB c)))
    = Some (getUniqueName
              (Some (JS.or_lit
                       (JS.or_else (name (confs hB (config (comps hB c))))
                                   (label (headerAt hB c))) "tool"))
              (displayNames hB (toolsOf hB wbc))).
Proof.
  intros Hst Hdef Hne. unfold headerAt in Hst.
  unfold addToolToWorkbench.
  unfold bind at 1. unfold getComp at 1. rewrite Hst.
  unfold bind at 1. unfold getConf at 1.
  unfold toolsOf in *.
  destruct (tools (confs hB (config (comps hB wbc)))) as [ta|] eqn:Et.
  - unfold bind at 1. unfold ret at 1.
    unfold bind at 1. unfold getConf at 1. rewrite Et.
    unfold bind at 1. cbn [deref]. unfold ret at 1.
    unfold bind at 1. unfold getArr at 1.
    unfold bind at 1. unfold getComp at 1.
    unfold bind at 1. unfold getConf at 1.
    unfold bind at 1. rewrite (mapM_toolDisplayName hB Hdef).
    unfold bind at 1. unfold setConf at 1.
    unfold bind at 1. unfold getArr at 1. unfold setArr. cbn [arrs].
    eexists _, ta. split; [reflexivity|]. cbn [comps confs arrs next].
    split; [reflexivity|]. split; [lia|]. split.
    { intros l. now apply (upd_preserves workbench). }
    split. { intros l Hl _. now rewrite upd_other. }
    split; [now left|]. split.
    { rewrite upd_other by (intros E; apply Hne; now rewrite E). exact Et. }
    split; [now rewrite upd_same|]. split.
    { intros l Hl _. now rewrite upd_other. }
    rewrite upd_same. reflexivity.
  - unfold bind at 1. unfold bind at 1. unfold newArr at 1.
    unfold setConf at 1.
    unfold bind at 1. unfold getConf at 1. cbn [confs]. rewrite upd_same.
    cbn [tools set_tools].
    unfold bind at 1. cbn [deref]. unfold ret at 1.
    unfold bind at 1. unfold getArr at 1. cbn [arrs]. rewrite upd_same.
    unfold bind at 1. unfold getComp at 1. cbn [comps].
    unfold bind at 1. unfold getConf at 1. cbn [confs].
    rewrite (upd_other _ _ Hne).
    unfold bind at 1. cbn [mapM]. unfold ret at 1.
    unfold bind at 1. unfold setConf at 1.
    unfold bind at 1. unfold getArr at 1. unfold setArr.
    cbn [arrs comps confs next]. rewrite upd_same.
    eexists _, (next hB). split; [reflexivity|]. cbn [comps confs arrs next].
    split; [reflexivity|]. split; [lia|]. split.
    { intros l. rewrite (upd_preserves workbench).
      - now apply (upd_preserves workbench).
      - rewrite (upd_other _ _ Hne). reflexivity. }
    split. { intros l H1 H2. now rewrite !upd_other. }
    split; [now right|]. split.
    { rewrite upd_other by (intros E; apply Hne; now rewrite E).
      now rewrite upd_same. }
    split; [now rewrite upd_same|]. split.
    { intros l Hl _. now rewrite !upd_other. }
    rewrite upd_same. reflexivity.
Qed.

(** "Get or create workbenches array". *)
Lemma workbenchesOf_spec (tcfg : loc) (h1 : Heap) :
  wbBelow (next h1) (workbench (confs h1 tcfg)) ->
  exists w0 hA,
    workbenchesOf tcfg h1 = (Ok w0, hA) /\
    arrs hA w0 = workbenchList h1 (confs h1 tcfg) /\
    workbenchList hA (confs hA tcfg) = workbenchList h1 (confs h1 tcfg) /\
    wbBelow (next hA) (workbench (confs hA tcfg)) /\
    comps hA = comps h1 /\
    (next h1 <= next hA)%nat /\
    (forall l, (l < next h1)%nat -> arrs hA l = arrs h1 l) /\
    (forall l, l <> tcfg -> confs hA l = confs h1 l) /\
    (forall l, name (confs hA l) = name (confs h1 l) /\
               tools (confs hA l) = tools (confs h1 l)).
Proof.
  intros Hb. unfold workbenchesOf, workbenchList in *.
  unfold bind at 1. unfold getConf at 1.
  destruct (workbench (confs h1 tcfg)) as [|c0|wa] eqn:Ew.
  - unfold bind at 1. unfold bind at 1. unfold newArr at 1.
    unfold setConf at 1.
    unfold bind at 1. unfold getConf at 1. cbn [confs]. rewrite upd_same.
    cbn [workbench set_workbench normalizeWorkbenches]. unfold ret.
    eexists _, _. split; [reflexivity|]. cbn [comps confs arrs next].
    rewrite ?upd_same. cbn [workbench set_workbench wbBelow]. rewrite ?upd_same.
    repeat split; try reflexivity; try lia.
    + intros l Hl. rewrite upd_other by lia. reflexivity.
    + intros l Hl. now rewrite upd_other.
    + now apply (upd_preserves name).
    + now apply (upd_preserves tools).
  - unfold bind at 1. unfold ret at 1.
    unfold bind at 1. unfold getConf at 1. rewrite Ew.
    cbn [normalizeWorkbenches]. unfold newArr.
    eexists _, _. split; [reflexivity|]. cbn [comps confs arrs next].
    rewrite upd_same, Ew. cbn [wbBelow] in *.
    repeat split; try reflexivity; try lia.
    intros l Hl. rewrite upd_other by lia. reflexivity.
  - unfold bind at 1. unfold ret at 1.
    unfold bind at 1. unfold getConf at 1. rewrite Ew.
    cbn [normalizeWorkbenches]. unfold ret.
    eexists _, _. split; [reflexivity|]. rewrite Ew.
    repeat split; try reflexivity; try lia. exact Hb.
Qed.

End ToolPush.

Section ToolAssembly.

Context {env : Env}.

Lemma appendStaticWorkbench_result tcfg ws0 hA :
  appendStaticWorkbench tcfg ws0 hA
  = (Ok (S (S (S (next hA))),
         Z.of_nat (length (ws0 ++ [Some (S (S (next hA)))])) - 1),
     appendedHeap tcfg ws0 hA).
Proof. reflexivity. Qed.

Lemma workbenchList_below N h l :
  closedBelow N h -> (l < N)%nat ->
  forall w, In (Some w) (workbenchList h (confs h l)) -> (w < N)%nat.
Proof.
  intros Hcl Hl w Hin. destruct (Hcl l Hl) as (_ & Hwb & _ & _).
  unfold workbenchList in Hin.
  destruct (workbench (confs h l)) as [|c0|wa]; cbn [wbBelow] in Hwb.
  - destruct Hin.
  - destruct Hin as [E|[]]. now injection E as <-.
  - destruct (Hcl wa Hwb) as (_ & _ & _ & Ha). now apply Ha.
Qed.

Lemma displayNames_same h h' ts :
  comps h' = comps h ->
  (forall l, name (confs h' l) = name (confs h l)) ->
  displayNames h' ts = displayNames h ts.
Proof.
  intros Hc Hn. unfold displayNames. apply map_ext. intros [t|]; [|reflexivity].
  cbn [option_map]. unfold displayName, headerAt. now rewrite Hc, Hn.
Qed.

Lemma addToolToAgent_spec (targetNode : CustomNode) (c : loc) (h1 : Heap) (N : nat) :
  isStaticWorkbench staticWorkbenchHeader = true ->
  closedBelow N h1 -> (N <= next h1)%nat ->
  (component targetNode < N)%nat ->
  (N <= c < next h1)%nat ->
  (N <= config (comps h1 c) < next h1)%nat ->
  defined (workbenchList h1 (agentConfig h1 targetNode)) ->
  (forall w, In (Some w) (workbenchList h1 (agentConfig h1 targetNode)) ->
             defined (toolsOf h1 w)) ->
  exists h' wbc,
    addToolToAgent targetNode c h1 = (Ok tt, h') /\
    comps h' c = comps h1 c /\
    (forall l, (l < N)%nat -> comps h' l = comps h1 l) /\
    In (Some wbc) (workbenchList h' (agentConfig h' targetNode)) /\
    isStaticWorkbench (headerAt h' wbc) = true /\
    toolsOf h' wbc
      = toolsBefore h1 (workbenchList h1 (agentConfig h1 targetNode))
        ++ [Some c] /\
    name (confs h' (config (comps h1 c)))
      = Some (getUniqueName
                (Some (displayName h1 c))
                (displayNames h1
                   (toolsBefore h1
                      (workbenchList h1 (agentConfig h1 targetNode))))) /\
    match firstStatic h1 (workbenchList h1 (agentConfig h1 targetNode)) with
    | Some w => wbc = w
    | None =>
        (next h1 <= wbc)%nat /\
        workbenchList h' (agentConfig h' targetNode)
          = workbenchList h1 (agentConfig h1 targetNode) ++ [Some wbc] /\
        headerAt h' wbc = staticWorkbenchHeader
    end.
Proof.
  intros Hstatic Hcl HN Htc Hc Hccfg. unfold agentConfig.
  set (tcfg := config (comps h1 (component targetNode))).
  set (ws0 := workbenchList h1 (confs h1 tcfg)). intros Hdef Htools.
  destruct (Hcl (component targetNode) Htc) as (Htcfg & _ & _ & _).
  fold tcfg in Htcfg.
  destruct (Hcl tcfg Htcfg) as (_ & Hwb & _ & _).
  destruct (workbenchesOf_spec tcfg h1)
    as (w0 & hA & Ew & Harr & Hwl & HwbA & HcA & HnA & HarrA & HconfA & HfldA).
  { destruct (workbench (confs h1 tcfg)); cbn [wbBelow] in *; lia. }
  fold ws0 in Harr, Hwl.
  assert (Hsi : staticAt hA = staticAt h1).
  { unfold staticAt, headerAt. now rewrite HcA. }
  unfold addToolToAgent.
  unfold bind at 1. unfold getComp at 1. fold tcfg.
  unfold bind at 1. rewrite Ew.
  unfold bind at 1. unfold getArr at 1. rewrite Harr.
  unfold bind at 1. rewrite (findStaticWorkbench_spec hA Hdef).
  unfold staticIndex. rewrite Hsi.
  pose proof (findIndex_find (staticAt h1) ws0) as Hfi.
  unfold toolsBefore, firstStatic.
  destruct (find (staticAt h1) ws0) as [x|] eqn:Efind.
  - destruct Hfi as (H0 & Hidx & Hp & Hin).
    destruct x as [w|]; [|discriminate Hp].
    destruct (Z.eqb_spec (JS.findIndex (staticAt h1) ws0) (-1)) as [E|_];
      [lia|].
    unfold bind at 1. unfold ret at 1. cbn [fst snd].
    unfold bind at 1. unfold getArr at 1. rewrite Harr, Hidx.
    assert (Hw : (w < N)%nat).
    { apply (@workbenchList_below N h1 tcfg Hcl Htcfg w Hin). }
    destruct (Hcl w Hw) as (Hwcfg & _ & _ & _).
    destruct (Hcl _ Hwcfg) as (_ & _ & Htl & _).
    assert (Htl1 : toolsOf hA w = toolsOf h1 w).
    { unfold toolsOf. rewrite HcA, (proj2 (HfldA _)).
      destruct (tools (confs h1 (config (comps h1 w)))) as [ta|];
        [|reflexivity].
      cbn [optBelow] in Htl. apply HarrA. lia. }
    destruct (@addToolToWorkbench_spec env w c hA)
      as (h' & ta & Erun & Hc' & Hn' & Hwb' & Hconf' & Hta & Htools'
          & Harr' & Hframe' & Hname').
    { unfold headerAt. rewrite HcA. exact Hp. }
    { rewrite Htl1. now apply Htools. }
    { rewrite HcA. lia. }
    exists h', w. split; [exact Erun|].
    split; [now rewrite Hc', HcA|].
    split; [intros l _; now rewrite Hc', HcA|].
    split.
    { rewrite Hc', HcA. fold tcfg. unfold workbenchList in *.
      rewrite Hwb'.
      destruct (workbench (confs hA tcfg)) as [|c0|wa'] eqn:EwA.
      - rewrite <- Hwl in Hin. destruct Hin.
      - now rewrite Hwl.
      - cbn [wbBelow] in HwbA.
        destruct (Nat.eq_dec wa' ta) as [->|Hneq].
        + rewrite Harr'. apply in_or_app. left.
          destruct Hta as [Hs|[_ ->]]; [|lia].
          unfold toolsOf. rewrite Hs, Hwl. exact Hin.
        + rewrite (Hframe' wa' Hneq HwbA), Hwl. exact Hin. }
    split; [unfold headerAt; rewrite Hc', HcA; exact Hp|].
    split.
    { unfold toolsOf at 1. rewrite Hc', Htools', Harr'. now rewrite Htl1. }
    split; [|reflexivity].
    rewrite <- HcA, Hname'. do 2 f_equal.
    + unfold displayName, headerAt. now rewrite HcA, (proj1 (HfldA _)).
    + rewrite Htl1. apply displayNames_same; [exact HcA|].
      intros l. apply HfldA.
  - rewrite Hfi. cbn [Z.eqb Pos.eqb].
    unfold bind at 1. rewrite appendStaticWorkbench_result. cbn [fst snd].
    set (hB := appendedHeap tcfg ws0 hA).
    set (nw := S (S (next hA))).
    unfold bind at 1. unfold getArr at 1.
    assert (Hw1 : arrs hB (S nw) = ws0 ++ [Some nw]).
    { unfold hB, appendedHeap. cbn [arrs]. now rewrite upd_same. }
    rewrite Hw1, index_last.
    assert (HcB : forall l, l <> nw -> comps hB l = comps hA l).
    { intros l Hl. unfold hB, appendedHeap. cbn [comps]. now rewrite upd_other. }
    assert (Hnw : comps hB nw = mkComponent staticWorkbenchHeader (S (next hA))).
    { unfold hB, appendedHeap. cbn [comps]. now rewrite upd_same. }
    assert (Hncf : confs hB (S (next hA))
                   = mkConfig None None None None WbAbsent (Some (next hA)) []).
    { unfold hB, appendedHeap. cbn [confs].
      rewrite upd_other by lia. now rewrite upd_same. }
    assert (Htl : arrs hB (next hA) = []).
    { unfold hB, appendedHeap. cbn [arrs].
      rewrite upd_other by lia. now rewrite upd_same. }
    assert (HtB : toolsOf hB nw = []).
    { unfold toolsOf. rewrite Hnw. cbn [config]. rewrite Hncf. cbn [tools].
      exact Htl. }
    assert (HcBc : comps hB c = comps h1 c).
    { rewrite HcB by (unfold nw; lia). now rewrite HcA. }
    destruct (@addToolToWorkbench_spec env nw c hB)
      as (h' & ta & Erun & Hc' & Hn' & Hwb' & Hconf' & Hta & Htools'
          & Harr' & Hframe' & Hname').
    { unfold headerAt. rewrite Hnw. exact Hstatic. }
    { rewrite HtB. intros x []. }
    { rewrite HcBc, Hnw. cbn [config]. lia. }
    assert (Eta : ta = next hA).
    { rewrite Hnw in Hta. cbn [config] in Hta. rewrite Hncf in Hta.
      cbn [tools] in Hta. destruct Hta as [E|[E _]]; [now injection E|discriminate]. }
    assert (HwbB : workbench (confs hB tcfg) = WbMany (S nw)).
    { unfold hB, appendedHeap. cbn [confs]. now rewrite upd_same. }
    assert (Hlist : workbenchList h' (confs h' tcfg) = ws0 ++ [Some nw]).
    { unfold workbenchList. rewrite Hwb', HwbB.
      rewrite Hframe'; [exact Hw1|unfold nw; lia|].
      unfold hB, appendedHeap, nw. cbn [next]. lia. }
    exists h', nw. split; [exact Erun|].
    split; [now rewrite Hc'|].
    split.
    { intros l Hl. rewrite Hc', HcB by (unfold nw; lia). now rewrite HcA. }
    split.
    { rewrite Hc', HcB by (unfold nw; lia). rewrite HcA. fold tcfg.
      rewrite Hlist. apply in_or_app. right. now left. }
    split; [unfold headerAt; rewrite Hc', Hnw; exact Hstatic|].
    split.
    { unfold toolsOf at 1. rewrite Hc', Htools', Harr', HtB. reflexivity. }
    split.
    { rewrite <- HcBc, Hname', HtB. do 2 f_equal.
      unfold displayName, headerAt. rewrite HcBc. f_equal. f_equal.
      unfold hB, appendedHeap. cbn [confs].
      rewrite upd_other by (fold tcfg; lia).
      rewrite upd_other by lia. now rewrite (proj1 (HfldA _)). }
    split; [unfold nw; lia|]. split.
    { rewrite Hc', HcB by (unfold nw; lia). rewrite HcA. exact Hlist. }
    unfold headerAt. now rewrite Hc', Hnw.
Qed.

End ToolAssembly.

Section ToolTransfer.

Context {env : Env}.

(** What the tool drop reads of the old objects is unchanged by the
    clone. *)
Lemma closed_extends h h1 :
  closed h -> extends h h1 -> closedBelow (next h) h1.
Proof.
  intros Hcl [_ Hex] l Hl. destruct (Hex l Hl) as (Hc & Hf & Ha).
  rewrite Hc, Hf, Ha. exact (Hcl l Hl).
Qed.

Lemma agentConfig_extends h h1 n :
  closed h -> extends h h1 -> (component n < next h)%nat ->
  agentConfig h1 n = agentConfig h n.
Proof.
  intros Hcl [_ Hex] Hn. unfold agentConfig.
  destruct (Hex _ Hn) as (Hc & _ & _). rewrite Hc.
  destruct (Hcl _ Hn) as (Hcfg & _). now destruct (Hex _ Hcfg) as (_ & Hf & _).
Qed.

Lemma workbenchList_extends h h1 l :
  closed h -> extends h h1 -> (l < next h)%nat ->
  workbenchList h1 (confs h l) = workbenchList h (confs h l).
Proof.
  intros Hcl [_ Hex] Hl. unfold workbenchList.
  destruct (Hcl l Hl) as (_ & Hwb & _).
  destruct (workbench (confs h l)) as [|c0|wa]; try reflexivity.
  cbn [wbBelow] in Hwb. now destruct (Hex _ Hwb) as (_ & _ & Ha).
Qed.

Lemma toolsOf_extends h h1 w :
  closed h -> extends h h1 -> (w < next h)%nat ->
  toolsOf h1 w = toolsOf h w /\
  forall t, In (Some t) (toolsOf h w) -> (t < next h)%nat.
Proof.
  intros Hcl [_ Hex] Hw. unfold toolsOf.
  destruct (Hex _ Hw) as (Hc & _ & _). rewrite Hc.
  destruct (Hcl _ Hw) as (Hcfg & _).
  destruct (Hex _ Hcfg) as (_ & Hf & _). rewrite Hf.
  destruct (Hcl _ Hcfg) as (_ & _ & Htl & _).
  destruct (tools (confs h (config (comps h w)))) as [ta|].
  - cbn [optBelow] in Htl. destruct (Hex _ Htl) as (_ & _ & Ha).
    split; [exact Ha|]. now destruct (Hcl _ Htl) as (_ & _ & _ & Hel).
  - split; [reflexivity|]. intros t [].
Qed.

Lemma displayNames_extends h h1 ts :
  closed h -> extends h h1 ->
  (forall t, In (Some t) ts -> (t < next h)%nat) ->
  displayNames h1 ts = displayNames h ts.
Proof.
  intros Hcl [_ Hex] Hts. unfold displayNames. apply map_ext_in.
  intros [t|] Hin; [|reflexivity]. cbn [option_map]. f_equal.
  unfold displayName, headerAt. specialize (Hts t Hin).
  destruct (Hex _ Hts) as (Hc & _ & _). rewrite Hc.
  destruct (Hcl _ Hts) as (Hcfg & _).
  now destruct (Hex _ Hcfg) as (_ & -> & _).
Qed.

Lemma firstStatic_extends h h1 ws :
  extends h h1 ->
  (forall w, In (Some w) ws -> (w < next h)%nat) ->
  firstStatic h1 ws = firstStatic h ws.
Proof.
  intros [_ Hex] Hws. unfold firstStatic.
  rewrite (find_ext_in (staticAt h1) (staticAt h)); [reflexivity|].
  intros [w|] Hin; [|reflexivity]. cbn [staticAt]. unfold headerAt.
  now destruct (Hex _ (Hws w Hin)) as (-> & _ & _).
Qed.

Lemma firstStatic_in h ws w :
  firstStatic h ws = Some w -> In (Some w) ws.
Proof.
  unfold firstStatic. destruct (find (staticAt h) ws) as [x|] eqn:E;
    [|discriminate].
  intros ->. apply find_some in E. apply E.
Qed.

End ToolTransfer.

Lemma displayName_named (h : Heap) (t : loc) (n : string) :
  name (confs h (config (comps h t))) = Some n -> n <> "" ->
  displayName h t = n.
Proof.
  intros Hn Hne. unfold displayName. rewrite Hn. unfold JS.or_else.
  destruct (String.eqb_spec n ""); [contradiction|]. unfold JS.or_lit.
  destruct (String.eqb_spec n ""); [contradiction|reflexivity].
Qed.

Lemma allNames_length (names : list (option string)) (n : string) :
  In (Some n) names ->
  (String.length n <= String.length (Sample.allNames names))%nat.
Proof.
  induction names as [|x names IH]; [intros []|].
  intros [->|Hin]; cbn [Sample.allNames].
  - rewrite append_length. lia.
  - destruct x as [m|]; [rewrite append_length|]; specialize (IH Hin); lia.
Qed.

Lemma uniqueName_fresh (b : option string) (names : list (option string)) :
  ~ In (Some (Sample.uniqueName b names)) names.
Proof.
  unfold Sample.uniqueName.
  destruct (existsb _ names) eqn:E.
  - intros Hin. apply allNames_length in Hin.
    rewrite !append_length in Hin. cbn in Hin. lia.
  - intros Hin.
    assert (Ht : existsb (Sample.someEqb (JS.or_lit b "component")) names = true).
    { apply existsb_exists. eexists. split; [exact Hin|].
      cbn. apply String.eqb_refl. }
    congruence.
Qed.

(** C9.  A tool component dropped on an existing assistant-agent node:
    [addNode] completes, the graph's nodes and edges are as before, and
    the clone of the tool is the last tool of a StaticWorkbench in the
    agent's workbench list -- the first StaticWorkbench there was, or else
    a new one, with no other tool, appended to the list (which is created
    when absent).  The clone's name is [getUniqueName] of the tool's name
    against the names of the tools already in that workbench, and so
    differs from all of them when [getUniqueName] returns a name outside
    the list it is given.  The objects are allocated and the arrays of
    workbenches and tools hold components, as their types say. *)
Theorem addNode_tool_onto_agent {env : Env}
    (ids : nat -> string) (pos : Position) (comp : CTree) (tgt : string)
    (s : TeamBuilderState) (h : Heap) (targetNode : CustomNode) :
  isToolComponent (treeHeader comp) = true ->
  isModelComponent (treeHeader comp) = false ->
  isStaticWorkbench staticWorkbenchHeader = true ->
  (forall b names, ~ In (Some (getUniqueName b names)) names) ->
  JS.truthy tgt = true ->
  findNode tgt (nodes s) = Some targetNode ->
  isAgentComponent (headerAt h (component targetNode)) = true ->
  isAssistantAgent (headerAt h (component targetNode)) = true ->
  closed h ->
  (component targetNode < next h)%nat ->
  defined (workbenchList h (agentConfig h targetNode)) ->
  (forall w, In (Some w) (workbenchList h (agentConfig h targetNode)) ->
             defined (toolsOf h w)) ->
  exists s' h' wbc c,
    addNode ids pos comp tgt s h = (Ok s', h') /\
    nodes s' = nodes s /\ edges s' = edges s /\
    In (Some wbc) (workbenchList h' (agentConfig h' targetNode)) /\
    isStaticWorkbench (headerAt h' wbc) = true /\
    toolsOf h' wbc
      = toolsBefore h (workbenchList h (agentConfig h targetNode)) ++ [Some c] /\
    (next h <= c)%nat /\
    headerAt h' c = treeHeader comp /\
    name (confs h' (config (comps h' c)))
      = Some (getUniqueName
                (Some (toolBase comp))
                (displayNames h
                   (toolsBefore h (workbenchList h (agentConfig h targetNode))))) /\
    ~ In (name (confs h' (config (comps h' c))))
         (displayNames h
            (toolsBefore h (workbenchList h (agentConfig h targetNode)))) /\
    (forall t n,
       In (Some t) (toolsBefore h (workbenchList h (agentConfig h targetNode))) ->
       name (confs h (config (comps h t))) = Some n -> n <> "" ->
       name (confs h' (config (comps h' c))) <> Some n) /\
    match firstStatic h (workbenchList h (agentConfig h targetNode)) with
    | Some w => wbc = w
    | None =>
        (next h <= wbc)%nat /\
        workbenchList h' (agentConfig h' targetNode)
          = workbenchList h (agentConfig h targetNode) ++ [Some wbc] /\
        headerAt h' wbc = staticWorkbenchHeader
    end.
Proof.
  intros Htool Hnm Hstatic Hfresh Htruthy Hfind Hagent Hassist Hcl Hnode
         Hdef Htools.
  destruct (clone_spec comp h)
    as (c & h1 & Ecl & Hext & Hcr & Hhd & Hcfr & Hneq & Hname).
  assert (Hcl1 := closed_extends Hcl Hext).
  destruct (Hcl _ Hnode) as (Htcfg & _).
  assert (Hac : agentConfig h1 targetNode = agentConfig h targetNode)
    by now apply agentConfig_extends.
  assert (Hwl : workbenchList h1 (agentConfig h1 targetNode)
                = workbenchList h (agentConfig h targetNode)).
  { rewrite Hac. unfold agentConfig. now apply workbenchList_extends. }
  assert (Hbelow : forall w,
            In (Some w) (workbenchList h (agentConfig h targetNode)) ->
            (w < next h)%nat).
  { unfold agentConfig. now apply workbenchList_below. }
  assert (Hfs : firstStatic h1 (workbenchList h (agentConfig h targetNode))
                = firstStatic h (workbenchList h (agentConfig h targetNode)))
    by now apply firstStatic_extends.
  assert (Htb : toolsBefore h1 (workbenchList h (agentConfig h targetNode))
                = toolsBefore h (workbenchList h (agentConfig h targetNode)) /\
                forall t, In (Some t)
                            (toolsBefore h (workbenchList h (agentConfig h targetNode))) ->
                          (t < next h)%nat).
  { unfold toolsBefore. rewrite Hfs.
    destruct (firstStatic h _) as [w|] eqn:Ew; [|split; [reflexivity|intros t []]].
    apply toolsOf_extends; try assumption.
    apply Hbelow. eapply firstStatic_in; eassumption. }
  destruct Htb as [Htb Htbelow].
  assert (Hd1 : defined (workbenchList h1 (agentConfig h1 targetNode)))
    by now rewrite Hwl.
  assert (Ht1 : forall w,
            In (Some w) (workbenchList h1 (agentConfig h1 targetNode)) ->
            defined (toolsOf h1 w)).
  { rewrite Hwl. intros w Hw.
    rewrite (proj1 (toolsOf_extends Hcl Hext (Hbelow w Hw))). now apply Htools. }
  destruct (@addToolToAgent_spec env targetNode c h1 (next h) Hstatic Hcl1
              (proj1 Hext) Hnode Hcr Hcfr Hd1 Ht1)
    as (h' & wbc & Erun & Hc' & Hcold & Hin & Hst & Hts & Hnm' & Hcase).
  rewrite Hwl in *. rewrite Hfs, Htb in *.
  assert (Hbase : displayName h1 c = toolBase comp).
  { unfold displayName, toolBase, headerAt. now rewrite Hname, Hhd. }
  rewrite Hbase in Hnm'.
  rewrite (displayNames_extends _ Hcl Hext Htbelow) in Hnm'.
  assert (Hadd : addNode ids pos comp tgt s h
                 = (Ok (recorded s (nodes s) (edges s)), h')).
  { unfold addNode. unfold bind at 1. rewrite Ecl, Htruthy, Hfind.
    unfold bind at 1. unfold dropOnTarget.
    unfold bind at 1. unfold headerOf at 1. unfold bind at 1.
    unfold getComp at 1. unfold ret at 1.
    unfold bind at 1. unfold headerOf at 1. unfold bind at 1.
    unfold getComp at 1. unfold ret at 1.
    rewrite Hhd, Hnm, Htool.
    destruct Hext as [_ Hex]. destruct (Hex _ Hnode) as (Hctc & _ & _).
    rewrite Hctc. unfold headerAt in Hagent, Hassist.
    rewrite Hagent, Hassist. cbn [andb].
    unfold bind at 1. rewrite Erun. reflexivity. }
  exists (recorded s (nodes s) (edges s)), h', wbc, c.
  split; [exact Hadd|]. split; [reflexivity|]. split; [reflexivity|].
  split; [exact Hin|]. split; [exact Hst|]. split; [exact Hts|].
  split; [lia|]. split; [unfold headerAt; now rewrite Hc', Hhd|].
  rewrite Hc'. split; [exact Hnm'|]. split; [rewrite Hnm'; apply Hfresh|].
  split.
  { intros t n Ht Hn Hne E. rewrite Hnm' in E.
    apply (Hfresh (Some (toolBase comp))
             (displayNames h
                (toolsBefore h (workbenchList h (agentConfig h targetNode))))).
    rewrite E. rewrite <- (displayName_named h t Hn Hne).
    unfold displayNames. apply (in_map (option_map (displayName h)) _ _ Ht). }
  destruct (firstStatic h _); [exact Hcase|].
  destruct Hcase as (Hw & Hl & Hh). destruct Hext as [Hle _].
  split; [lia|]. split; assumption.
Qed.

Lemma loaded_closed : closed (hp Run.loaded).
Proof.
  intros l Hl.
  do 5 (destruct l as [|l];
        [ repeat split; try (vm_compute; lia); try exact I;
          intros c0 Hin; vm_compute in Hin;
          repeat (destruct Hin as [Hin|Hin];
                  [try discriminate; injection Hin as <-; vm_compute; lia|]);
          contradiction
        | ]).
  vm_compute in Hl. lia.
Qed.

Lemma addNode_tool_onto_agent_witness :
  let s := st Run.loaded in
  let h := hp Run.loaded in
  let targetNode := mkNode "ni" origin "agent" (mkNodeData (Some "a") 1%nat "agent") in
  let comp := Sample.tool "search" in
  exists s' h' wbc c,
    addNode (env := Sample.env) (Sample.idsFrom "q") origin comp "ni" s h
    = (Ok s', h') /\
    nodes s' = nodes s /\ edges s' = edges s /\
    In (Some wbc) (workbenchList h' (agentConfig h' targetNode)) /\
    isStaticWorkbench (Env := Sample.env) (headerAt h' wbc) = true /\
    toolsOf h' wbc
      = toolsBefore (env := Sample.env) h
          (workbenchList h (agentConfig h targetNode)) ++ [Some c] /\
    (next h <= c)%nat /\
    headerAt h' c = treeHeader comp /\
    name (confs h' (config (comps h' c)))
      = Some (getUniqueName (Env := Sample.env)
                (Some (toolBase comp))
                (displayNames h
                   (toolsBefore (env := Sample.env) h
                      (workbenchList h (agentConfig h targetNode))))) /\
    ~ In (name (confs h' (config (comps h' c))))
         (displayNames h
            (toolsBefore (env := Sample.env) h
               (workbenchList h (agentConfig h targetNode)))) /\
    (forall t n,
       In (Some t) (toolsBefore (env := Sample.env) h
                      (workbenchList h (agentConfig h targetNode))) ->
       name (confs h (config (comps h t))) = Some n -> n <> "" ->
       name (confs h' (config (comps h' c))) <> Some n) /\
    match firstStatic (env := Sample.env) h
            (workbenchList h (agentConfig h targetNode)) with
    | Some w => wbc = w
    | None =>
        (next h <= wbc)%nat /\
        workbenchList h' (agentConfig h' targetNode)
          = workbenchList h (agentConfig h targetNode) ++ [Some wbc] /\
        headerAt h' wbc = staticWorkbenchHeader
    end.
Proof.
  apply (@addNode_tool_onto_agent Sample.env (Sample.idsFrom "q") origin
           (Sample.tool "search") "ni" (st Run.loaded) (hp Run.loaded)
           (mkNode "ni" origin "agent" (mkNodeData (Some "a") 1%nat "agent"))).
  - reflexivity.
  - reflexivity.
  - reflexivity.
  - exact uniqueName_fresh.
  - reflexivity.
  - reflexivity.
  - reflexivity.
  - reflexivity.
  - exact loaded_closed.
  - vm_compute. lia.
  - intros x Hin. vm_compute in Hin. destruct Hin.
  - intros w Hin. vm_compute in Hin. destruct Hin.
Defined.

(** Two tools of the same name dropped on the same agent end up in the
    one StaticWorkbench made for the first, under different names. *)
Example two_tools_same_name :
  let w := Run.act [AddNode (Sample.idsFrom "q") origin (Sample.tool "search") "ni";
                    AddNode (Sample.idsFrom "r") origin (Sample.tool "search") "ni"]
                   Run.loaded in
  map nkey (nodes (st w)) = map nkey (nodes (st Run.loaded)) /\
  exists wa wbc t1 t2,
    workbench (agentConfig (hp w)
                 (mkNode "ni" origin "agent" (mkNodeData (Some "a") 1%nat "agent")))
    = WbMany wa /\
    arrs (hp w) wa = [Some wbc] /\
    toolsOf (hp w) wbc = [Some t1; Some t2] /\
    displayNames (hp w) (toolsOf (hp w) wbc)
    = [Some "search"; Some "search_search"].
Proof.
  split; [reflexivity|]. vm_compute. eexists _, _, _, _.
  repeat split; reflexivity.
Qed.



(** * Further properties *)

(** ** Lists, reads and allocations *)

(** A filter that accepts every element keeps the list. *)
Lemma filter_all {A} (p : A -> bool) (l : list A) :
  (forall x, In x l -> p x = true) -> filter p l = l.
Proof.
  induction l as [|x l IH]; intros H; [reflexivity|].
  cbn [filter]. rewrite (H x (or_introl eq_refl)).
  f_equal. apply IH. intros y Hy. apply H. now right.
Qed.

Lemma find_none_all {A} (p : A -> bool) (l : list A) :
  (forall x, In x l -> p x = false) -> find p l = None.
Proof.
  induction l as [|x l IH]; intros H; [reflexivity|]. cbn [find].
  rewrite (H x (or_introl eq_refl)). apply IH. intros y Hy. apply H. now right.
Qed.

Lemma index_in_range {A} (l : list A) (i : Z) :
  0 <= i < Z.of_nat (length l) -> exists x, JS.index l i = Some x.
Proof.
  intros H. rewrite index_nth by lia.
  destruct (nth_error l (Z.to_nat i)) eqn:E; [now eexists|].
  apply nth_error_None in E. lia.
Qed.

Lemma index_some_range {A} (l : list A) (i : Z) (x : A) :
  JS.index l i = Some x -> 0 <= i < Z.of_nat (length l).
Proof.
  unfold JS.index. destruct (i <? 0) eqn:E; [discriminate|].
  apply Z.ltb_ge in E. intros H. split; [assumption|].
  assert (nth_error l (Z.to_nat i) <> None) as Hn by (rewrite H; discriminate).
  apply nth_error_Some in Hn. lia.
Qed.

(** What each call of an allocating [f] establishes between argument and
    result holds between the list and its image. *)
Lemma mapM_Forall2 {A B} (f : A -> M B) (R : A -> B -> Prop) (h0 : Heap) :
  (forall x, allocOnly (f x)) ->
  (forall x h1 y h2, extends h0 h1 -> f x h1 = (Ok y, h2) -> R x y) ->
  forall xs h ys h', extends h0 h ->
    mapM f xs h = (Ok ys, h') -> Forall2 R xs ys.
Proof.
  intros Ha Hf. induction xs as [|x xs IH]; intros h ys h' Hx H.
  - cbn [mapM] in H. run_inv H. constructor.
  - cbn [mapM] in H. run_inv H. constructor.
    + exact (Hf _ _ _ _ Hx Hrun).
    + apply (IH _ _ _ (extends_trans Hx (Ha _ _ _ _ Hrun)) Hrun0).
Qed.


(** Reads and allocations that completed, opened up. *)
Ltac heap_inv :=
  repeat match goal with
  | H : getComp _ _ = (Ok _, _) |- _ =>
      unfold getComp in H; injection H as ? ?; subst
  | H : getConf _ _ = (Ok _, _) |- _ =>
      unfold getConf in H; injection H as ? ?; subst
  | H : getArr _ _ = (Ok _, _) |- _ =>
      unfold getArr in H; injection H as ? ?; subst
  | H : getHeap _ = (Ok _, _) |- _ =>
      unfold getHeap in H; injection H as ? ?; subst
  | H : newArr _ _ = (Ok _, _) |- _ =>
      unfold newArr in H; injection H as ? ?; subst
  | H : newConf _ _ = (Ok _, _) |- _ =>
      unfold newConf in H; injection H as ? ?; subst
  | H : newComp _ _ = (Ok _, _) |- _ =>
      unfold newComp in H; injection H as ? ?; subst
  | H : setConf _ _ _ = (Ok _, _) |- _ =>
      unfold setConf in H; injection H as ? ?; subst
  | H : setArr _ _ _ = (Ok _, _) |- _ =>
      unfold setArr in H; injection H as ? ?; subst
  | H : deref ?p _ = (Ok _, _) |- _ =>
      let E := fresh "Ederef" in
      destruct p eqn:E; [|discriminate H];
      unfold deref, ret in H; injection H as ? ?; subst
  end.

(** The loaded team ([Run.loaded]): its two nodes, its edge, and the
    objects they show. *)
Lemma loaded_graph :
  nodes (st Run.loaded) = [Loaded.teamNode; Loaded.agentNode] /\
  edges (st Run.loaded) = [Loaded.link].
Proof. split; reflexivity. Qed.

Lemma loaded_allocated : nodesAllocated (hp Run.loaded) (st Run.loaded).
Proof.
  intros n Hin. rewrite (proj1 loaded_graph) in Hin.
  destruct Hin as [<-|[<-|[]]]; vm_compute; split; lia.
Qed.

(** ** Undo and redo *)

(** X1.  In a state whose graph is the snapshot at the current index,
    [undo] and [redo] take each other back: where there is a snapshot to
    go back to, [redo] after [undo] gives the state again, and where there
    is one to go forward to, [undo] after [redo] does. *)
Theorem undo_and_redo_are_inverse (s : TeamBuilderState) :
  snapshotIsCurrent s ->
  (0 < currentHistoryIndex s ->
   exists s1, undo s = Ok s1 /\
              currentHistoryIndex s1 = currentHistoryIndex s - 1 /\
              redo s1 = Ok s) /\
  (currentHistoryIndex s < Z.of_nat (length (history s)) - 1 ->
   exists s1, redo s = Ok s1 /\
              currentHistoryIndex s1 = currentHistoryIndex s + 1 /\
              undo s1 = Ok s).
Proof.
  intros Hc. unfold snapshotIsCurrent in Hc.
  assert (Hr : 0 <= currentHistoryIndex s < Z.of_nat (length (history s))).
  { unfold JS.index in Hc.
    destruct (currentHistoryIndex s <? 0) eqn:E; [discriminate|].
    apply Z.ltb_ge in E. split; [assumption|].
    assert (nth_error (history s) (Z.to_nat (currentHistoryIndex s)) <> None)
      as Hn by (rewrite Hc; discriminate).
    apply nth_error_Some in Hn. lia. }
  split; intros Hi.
  - destruct (@index_in_range _ (history s) (currentHistoryIndex s - 1))
      as (p & Hp); [lia|].
    eexists. unfold undo.
    destruct (currentHistoryIndex s <=? 0) eqn:E; [apply Z.leb_le in E; lia|].
    rewrite Hp. split; [reflexivity|]. split; [reflexivity|].
    unfold redo. cbn [currentHistoryIndex history].
    destruct (currentHistoryIndex s - 1 >=? Z.of_nat (length (history s)) - 1)
      eqn:E'; [rewrite Z.geb_leb in E'; apply Z.leb_le in E'; lia|].
    rewrite Z.sub_add, Hc. destruct s; reflexivity.
  - destruct (@index_in_range _ (history s) (currentHistoryIndex s + 1))
      as (p & Hp); [lia|].
    eexists. unfold redo.
    destruct (currentHistoryIndex s >=? Z.of_nat (length (history s)) - 1)
      eqn:E; [rewrite Z.geb_leb in E; apply Z.leb_le in E; lia|].
    rewrite Hp. split; [reflexivity|]. split; [reflexivity|].
    unfold undo. cbn [currentHistoryIndex history].
    destruct (currentHistoryIndex s + 1 <=? 0) eqn:E';
      [apply Z.leb_le in E'; lia|].
    rewrite Z.add_simpl_r, Hc. destruct s; reflexivity.
Qed.

Lemma undo_and_redo_are_inverse_witness :
  (exists s1, undo Run.oneEdge = Ok s1 /\
              currentHistoryIndex s1 = currentHistoryIndex Run.oneEdge - 1 /\
              redo s1 = Ok Run.oneEdge) /\
  (exists s1, redo Run.noEdge = Ok s1 /\
              currentHistoryIndex s1 = currentHistoryIndex Run.noEdge + 1 /\
              undo s1 = Ok Run.noEdge).
Proof.
  split.
  - apply (proj1 (@undo_and_redo_are_inverse Run.oneEdge eq_refl)).
    reflexivity.
  - apply (proj2 (@undo_and_redo_are_inverse Run.noEdge eq_refl)).
    reflexivity.
Defined.

Lemma keepLast_nonempty {A} (l : list A) (x : A) : keepLast 50 (l ++ [x]) <> [].
Proof.
  unfold keepLast. intros H.
  apply (f_equal (@length A)) in H. rewrite length_skipn, length_app in H.
  simpl in H. lia.
Qed.

(** After a push the history ends at most one entry past the new index. *)
Lemma pushHistory_short (s : TeamBuilderState) (snap : Snapshot) :
  -1 <= currentHistoryIndex s ->
  Z.of_nat (length (pushHistory s snap)) <= currentHistoryIndex s + 2.
Proof.
  intros H. rewrite pushHistory_prefix by assumption.
  unfold keepLast. rewrite length_skipn, length_app, length_firstn.
  simpl. lia.
Qed.

(** A recorded state has no redo tail. *)
Lemma recorded_redo (s : TeamBuilderState) ns es :
  -1 <= currentHistoryIndex s ->
  redo (recorded s ns es) = Ok (recorded s ns es).
Proof.
  intros H. unfold redo.
  replace (currentHistoryIndex (recorded s ns es) >=?
           Z.of_nat (length (history (recorded s ns es))) - 1) with true;
    [reflexivity|].
  symmetry. rewrite Z.geb_leb. apply Z.leb_le. cbn [recorded history currentHistoryIndex].
  pose proof (pushHistory_short s (ns, es) H). lia.
Qed.

Lemma isRecorded_redo (s s' : TeamBuilderState) :
  -1 <= currentHistoryIndex s -> isRecorded s s' -> redo s' = Ok s'.
Proof. intros H (ns & es & ->). now apply recorded_redo. Qed.

(** X2.  After a recording action there is nothing to redo: from a state
    whose index is at least -1, [redo] returns the state it is given
    after [addNode] (unless it returned the state unchanged), [updateNode],
    [removeNode], [addEdge], [removeEdge], [layoutNodes] and
    [addToHistory], whatever redo tail the history held before. *)
Theorem redo_after_recording_action {env : Env}
    (s : TeamBuilderState) (h : Heap) :
  -1 <= currentHistoryIndex s ->
  (forall ids pos comp tgt s' h',
     addNode ids pos comp tgt s h = (Ok s', h') ->
     (JS.truthy tgt = true /\ findNode tgt (nodes s) = None /\ s' = s) \/
     redo s' = Ok s') /\
  (forall nodeId updates s' h',
     updateNode nodeId updates s h = (Ok s', h') -> redo s' = Ok s') /\
  (forall fuel nodeId s' h',
     removeNode fuel nodeId s h = (Ok s', h') -> redo s' = Ok s') /\
  (forall edge, redo (addEdge edge s) = Ok (addEdge edge s)) /\
  (forall edgeId, redo (removeEdge edgeId s) = Ok (removeEdge edgeId s)) /\
  (exists s', layoutNodes s h = (Ok s', h) /\ redo s' = Ok s') /\
  redo (addToHistory s) = Ok (addToHistory s).
Proof.
  intros Hi.
  repeat match goal with |- _ /\ _ => split end.
  - intros * H. apply addNode_shape in H. destruct H as [H|H]; [now left|right].
    now apply isRecorded_redo with s.
  - intros * H. apply updateNode_recorded in H. now apply isRecorded_redo with s.
  - intros * H. apply removeNode_recorded in H. now apply isRecorded_redo with s.
  - intros edge. apply isRecorded_redo with s; [assumption|apply addEdge_recorded].
  - intros edgeId. apply isRecorded_redo with s; [assumption|apply removeEdge_recorded].
  - destruct (layoutNodes_recorded s h) as (s' & H1 & H2). exists s'.
    split; [assumption|]. now apply isRecorded_redo with s.
  - apply isRecorded_redo with s; [assumption|apply addToHistory_recorded].
Qed.

Lemma redo_after_recording_action_witness :
  redo (addEdge Run.edge1 Run.noEdge) = Ok (addEdge Run.edge1 Run.noEdge).
Proof.
  apply (proj1 (proj2 (proj2 (proj2
           (@redo_after_recording_action Sample.env Run.noEdge emptyHeap
              ltac:(vm_compute; discriminate)))))).
Defined.

(** ** What the history keeps *)

Lemma indexInHistory_lower (s : TeamBuilderState) :
  indexInHistory s -> -1 <= currentHistoryIndex s.
Proof. intros [[H _]|[H _]]; lia. Qed.

(** Pushing a snapshot keeps the invariant: the new index points at the
    new snapshot whenever it points into the history at all. *)
Lemma pushes_invariant (s s' : TeamBuilderState) :
  historyInvariant s -> pushesSnapshot s s' -> historyInvariant s'.
Proof.
  intros [Hs _] (Hh & Hsl & Hi). apply indexInHistory_lower in Hs.
  split.
  - right. split; [lia|]. rewrite Hh. apply keepLast_nonempty.
  - intros [_ Hlt]. unfold snapshotIsCurrent. rewrite Hh in Hlt |- *.
    rewrite (Hsl Hs) in Hlt |- *. rewrite Hi in Hlt |- *.
    set (L := firstn (Z.to_nat (currentHistoryIndex s + 1)) (history s)) in *.
    assert (HL : (length L <= Z.to_nat (currentHistoryIndex s + 1))%nat)
      by (unfold L; rewrite length_firstn; lia).
    unfold keepLast in Hlt |- *.
    rewrite length_skipn, length_app in Hlt. cbn [length] in Hlt.
    rewrite length_app. cbn [length].
    replace (length L + 1 - 50)%nat with 0%nat by lia.
    cbn [skipn]. rewrite index_nth by lia.
    rewrite nth_error_app2 by lia.
    replace (Z.to_nat (currentHistoryIndex s + 1) - length L)%nat with 0%nat
      by lia.
    reflexivity.
Qed.

Lemma single_invariant (s' : TeamBuilderState) :
  singleSnapshot s' -> historyInvariant s'.
Proof.
  intros [Hh Hi]. split.
  - right. rewrite Hh, Hi. split; [lia|discriminate].
  - intros _. unfold snapshotIsCurrent. now rewrite Hh, Hi.
Qed.

Lemma undo_invariant (s s' : TeamBuilderState) :
  historyInvariant s -> undo s = Ok s' -> historyInvariant s'.
Proof.
  intros Hs H. unfold undo in H.
  destruct (currentHistoryIndex s <=? 0) eqn:E; [now injection H as <-|].
  apply Z.leb_gt in E.
  destruct (JS.index (history s) (currentHistoryIndex s - 1)) as [p|] eqn:Ei;
    [|discriminate].
  injection H as <-. split.
  - right. cbn [currentHistoryIndex history]. split; [lia|].
    intros Hn. rewrite Hn in Ei. unfold JS.index in Ei.
    destruct (currentHistoryIndex s - 1 <? 0); [discriminate|].
    now destruct (Z.to_nat (currentHistoryIndex s - 1)).
  - intros _. unfold snapshotIsCurrent. cbn [currentHistoryIndex history nodes edges].
    rewrite Ei. now destruct p.
Qed.

Lemma redo_invariant (s s' : TeamBuilderState) :
  historyInvariant s -> redo s = Ok s' -> historyInvariant s'.
Proof.
  intros Hs H. unfold redo in H.
  destruct (currentHistoryIndex s >=? Z.of_nat (length (history s)) - 1) eqn:E;
    [now injection H as <-|].
  destruct (JS.index (history s) (currentHistoryIndex s + 1)) as [p|] eqn:Ei;
    [|discriminate].
  injection H as <-. destruct Hs as [Hs _]. apply indexInHistory_lower in Hs.
  split.
  - right. cbn [currentHistoryIndex history]. split; [lia|].
    intros Hn. rewrite Hn in Ei. unfold JS.index in Ei.
    destruct (currentHistoryIndex s + 1 <? 0); [discriminate|].
    now destruct (Z.to_nat (currentHistoryIndex s + 1)).
  - intros _. unfold snapshotIsCurrent. cbn [currentHistoryIndex history nodes edges].
    rewrite Ei. now destruct p.
Qed.

Lemma settle_invariant (s : TeamBuilderState)
    (r : Res TeamBuilderState * Heap) :
  historyInvariant s ->
  (forall s' h', r = (Ok s', h') -> historyInvariant s') ->
  historyInvariant (st (settle s r)).
Proof.
  intros Hs H. destruct r as [[s'| |] h']; cbn [settle st];
    [now apply (H s' h')|assumption|assumption].
Qed.

(** Every action keeps the invariant. *)
Lemma exec_invariant {env : Env} (a : Action) (w : Store) :
  historyInvariant (st w) -> historyInvariant (st (exec a w)).
Proof.
  intros Hw.
  assert (R : forall s', isRecorded (st w) s' -> historyInvariant s').
  { intros s' H. apply pushes_invariant with (st w); [assumption|].
    now apply recorded_pushes. }
  destruct a; cbn [exec pureStep]; try assumption.
  - apply settle_invariant; [assumption|]. intros s' h' H.
    apply addNode_shape in H. destruct H as [(_ & _ & ->)|H]; auto.
  - apply settle_invariant; [assumption|]. intros s' h' H.
    apply updateNode_recorded in H. apply R, H.
  - apply settle_invariant; [assumption|]. intros s' h' H.
    apply removeNode_recorded in H. auto.
  - apply R, addEdge_recorded.
  - apply R, removeEdge_recorded.
  - apply settle_invariant; [assumption|]. intros s' h' H.
    injection H as H _. now apply undo_invariant with (st w).
  - apply settle_invariant; [assumption|]. intros s' h' H.
    injection H as H _. now apply redo_invariant with (st w).
  - destruct (loadFromJson ids cfg isInitialLoad teamId' (st w) (hp w))
      as [[[s' g]| |] h'] eqn:E; cbn [st]; try assumption.
    apply loadFromJson_shape in E.
    destruct E as [[_ H]|[_ [->|H]]].
    + now apply single_invariant.
    + assumption.
    + now apply pushes_invariant with (st w).
  - apply settle_invariant; [assumption|]. intros s' h' H.
    destruct (layoutNodes_recorded (st w) (hp w)) as (s1 & H1 & H2).
    rewrite H1 in H. injection H as <- _. auto.
  - apply single_invariant. split; reflexivity.
  - apply R, addToHistory_recorded.
Qed.

(** X3.  In every reachable state the index is -1 and the history empty,
    or the index is at least 0 and the history holds a snapshot; and an
    index that points into the history points at the snapshot of the
    current nodes and edges. *)
Theorem reachable_history_invariant {env : Env} (w : Store) :
  reachable w -> historyInvariant (st w).
Proof.
  induction 1 as [|a w Hw IH].
  - split; [left; split; reflexivity|]. cbn. lia.
  - now apply exec_invariant.
Qed.

Lemma reachable_history_invariant_witness :
  historyInvariant (st (Run.act (repeat (AddEdge Run.edge1) 60) Run.loaded)).
Proof.
  apply (@reachable_history_invariant Sample.env).
  unfold Run.act, Run.loaded, Run.built. repeat apply run_reachable.
  constructor.
Defined.

(** X4.  In a reachable state [redo] completes: it returns the state, or
    finds the snapshot it reads ([undo], C7, may throw). *)
Theorem redo_completes_when_reachable {env : Env} (w : Store) :
  reachable w -> exists s', redo (st w) = Ok s'.
Proof.
  intros Hw.
  assert (Hi : -1 <= currentHistoryIndex (st w)).
  { apply indexInHistory_lower.
    assert (H : historyInvariant (st w)); [|apply H].
    induction Hw as [|a w Hw IH].
    - split; [left; split; reflexivity|]. cbn. lia.
    - now apply exec_invariant. }
  unfold redo.
  destruct (currentHistoryIndex (st w) >=?
            Z.of_nat (length (history (st w))) - 1) eqn:E; [now eexists|].
  rewrite Z.geb_leb in E. apply Z.leb_gt in E.
  destruct (@index_in_range _ (history (st w)) (currentHistoryIndex (st w) + 1))
    as (p & ->); [lia|]. now eexists.
Qed.

Lemma redo_completes_when_reachable_witness :
  exists s',
    redo (st (Run.act [Undo; AddEdge Run.edge1] Run.loaded)) = Ok s'.
Proof.
  apply (@redo_completes_when_reachable Sample.env).
  unfold Run.act, Run.loaded, Run.built. repeat apply run_reachable.
  constructor.
Defined.

(** Appending to a list of 50 and keeping the last 50 drops the head. *)
Lemma keepLast_full {A} (l : list A) (x : A) :
  length l = 50%nat -> keepLast 50 (l ++ [x]) = tl l ++ [x].
Proof.
  intros H. unfold keepLast. rewrite length_app. simpl length.
  replace (length l + 1 - 50)%nat with 1%nat by lia.
  destruct l; [discriminate|reflexivity].
Qed.

Lemma pushHistory_full (s : TeamBuilderState) (snap : Snapshot) :
  length (history s) = 50%nat -> 49 <= currentHistoryIndex s ->
  pushHistory s snap = tl (history s) ++ [snap].
Proof.
  intros Hl Hi. rewrite pushHistory_prefix by lia.
  rewrite firstn_all2 by lia. now apply keepLast_full.
Qed.

(** X5.  With 50 snapshots in the history and the index at its end or
    beyond, a recording action drops the oldest snapshot and appends its
    own: the new history is the tail of the old one followed by the new
    nodes and edges. *)
Theorem full_history_drops_oldest {env : Env} (s : TeamBuilderState) (h : Heap) :
  length (history s) = 50%nat ->
  49 <= currentHistoryIndex s ->
  (forall ids pos comp tgt s' h',
     addNode ids pos comp tgt s h = (Ok s', h') ->
     (JS.truthy tgt = true /\ findNode tgt (nodes s) = None /\ s' = s) \/
     history s' = tl (history s) ++ [(nodes s', edges s')]) /\
  (forall nodeId updates s' h',
     updateNode nodeId updates s h = (Ok s', h') ->
     history s' = tl (history s) ++ [(nodes s', edges s')]) /\
  (forall fuel nodeId s' h',
     removeNode fuel nodeId s h = (Ok s', h') ->
     history s' = tl (history s) ++ [(nodes s', edges s')]) /\
  (forall edge,
     history (addEdge edge s) = tl (history s) ++ [(nodes s, edges s ++ [edge])]) /\
  (forall edgeId,
     history (removeEdge edgeId s)
     = tl (history s) ++ [(nodes s, edges (removeEdge edgeId s))]) /\
  (exists s', layoutNodes s h = (Ok s', h) /\
              history s' = tl (history s) ++ [(nodes s', edges s')]) /\
  history (addToHistory s) = tl (history s) ++ [(nodes s, edges s)].
Proof.
  intros Hl Hi.
  assert (R : forall s', isRecorded s s' ->
                history s' = tl (history s) ++ [(nodes s', edges s')]).
  { intros s' (ns & es & ->). cbn [recorded history nodes edges].
    now apply pushHistory_full. }
  repeat match goal with |- _ /\ _ => split end.
  - intros * H. apply addNode_shape in H. destruct H as [H|H]; [now left|right].
    now apply R.
  - intros * H. apply updateNode_recorded in H. now apply R.
  - intros * H. apply removeNode_recorded in H. now apply R.
  - intros edge. apply (R (addEdge edge s)). apply addEdge_recorded.
  - intros edgeId. apply (R (removeEdge edgeId s)). apply removeEdge_recorded.
  - destruct (layoutNodes_recorded s h) as (s' & H1 & H2). exists s'.
    split; [assumption|]. now apply R.
  - apply (R (addToHistory s)). apply addToHistory_recorded.
Qed.

Lemma full_history_drops_oldest_witness :
  let s := st (Run.act (repeat (AddEdge Run.edge1) 49) Run.loaded) in
  history (addToHistory s) = tl (history s) ++ [(nodes s, edges s)].
Proof.
  apply (proj2 (proj2 (proj2 (proj2 (proj2 (proj2
    (@full_history_drops_oldest Sample.env
       (st (Run.act (repeat (AddEdge Run.edge1) 49) Run.loaded))
       emptyHeap eq_refl ltac:(vm_compute; discriminate)))))))).
Defined.

(** Below the bound, recording cuts the history after the current entry
    and appends. *)
Lemma recorded_appends (s : TeamBuilderState) ns es :
  snapshotIsCurrent s -> currentHistoryIndex s + 1 < MAX_HISTORY ->
  history (recorded s ns es)
  = firstn (Z.to_nat (currentHistoryIndex s + 1)) (history s) ++ [(ns, es)].
Proof.
  intros Hc Hm. apply index_some_range in Hc. unfold MAX_HISTORY in Hm.
  cbn [recorded history]. rewrite pushHistory_prefix by lia.
  apply keepLast_short. rewrite length_app, length_firstn. simpl. lia.
Qed.

Lemma recorded_current (s : TeamBuilderState) ns es :
  snapshotIsCurrent s -> currentHistoryIndex s + 1 < MAX_HISTORY ->
  snapshotIsCurrent (recorded s ns es).
Proof.
  intros Hc Hm. unfold snapshotIsCurrent. rewrite recorded_appends by assumption.
  apply index_some_range in Hc.
  cbn [recorded currentHistoryIndex nodes edges].
  rewrite index_nth by lia. rewrite nth_error_app2;
    rewrite length_firstn; [|lia].
  replace (Z.to_nat (currentHistoryIndex s + 1) -
           Init.Nat.min (Z.to_nat (currentHistoryIndex s + 1)) (length (history s)))%nat
    with 0%nat by lia.
  reflexivity.
Qed.

(** Successive recordings below the bound: the history is the old one up
    to the index followed by the new graphs. *)
Lemma recordAll_spec (gs : list Snapshot) : forall g s,
  snapshotIsCurrent s ->
  currentHistoryIndex s + Z.of_nat (length (g :: gs)) < MAX_HISTORY ->
  snapshotIsCurrent (recordAll (g :: gs) s) /\
  history (recordAll (g :: gs) s)
  = firstn (Z.to_nat (currentHistoryIndex s + 1)) (history s) ++ g :: gs /\
  currentHistoryIndex (recordAll (g :: gs) s)
  = currentHistoryIndex s + Z.of_nat (length (g :: gs)) /\
  selectedNodeId (recordAll (g :: gs) s) = selectedNodeId s /\
  originalComponent (recordAll (g :: gs) s) = originalComponent s /\
  teamId (recordAll (g :: gs) s) = teamId s.
Proof.
  induction gs as [|g' gs IH]; intros g s Hc Hm;
    change (recordAll (g :: ?l) s)
      with (recordAll l (recorded s (fst g) (snd g)));
    cbn [length] in Hm; rewrite Nat2Z.inj_succ in Hm;
    assert (Hm1 : currentHistoryIndex s + 1 < MAX_HISTORY)
      by (unfold MAX_HISTORY in *; lia);
    pose proof (recorded_current (fst g) (snd g) Hc Hm1) as Hc1;
    pose proof (recorded_appends (fst g) (snd g) Hc Hm1) as Ha.
  - cbn [recordAll fold_left length]. split; [assumption|].
    split; [rewrite Ha; destruct g; reflexivity|]. repeat split.
  - change (recordAll (g :: g' :: gs) s)
      with (recordAll (g' :: gs) (recorded s (fst g) (snd g))).
    destruct (IH g' (recorded s (fst g) (snd g)) Hc1)
      as (H1 & H2 & H3 & H4 & H5 & H6).
    { cbn [recorded currentHistoryIndex length] in *.
      rewrite Nat2Z.inj_succ in *. unfold MAX_HISTORY in *. lia. }
    split; [assumption|]. split.
    + rewrite H2, Ha. apply index_some_range in Hc.
      cbn [recorded currentHistoryIndex].
      rewrite firstn_all2.
      * rewrite <- app_assoc. destruct g; reflexivity.
      * rewrite length_app, length_firstn. simpl. lia.
    + split; [|now repeat split].
      rewrite H3. cbn [recorded currentHistoryIndex].
      change (length (g :: g' :: gs)) with (S (length (g' :: gs))).
      rewrite (Nat2Z.inj_succ (length (g' :: gs))). lia.
Qed.

(** [k + 1] undos from an index within the history read the snapshot
    [k + 1] entries down. *)
Lemma undoTimes_spec (k : nat) : forall t,
  0 <= currentHistoryIndex t - Z.of_nat (S k) ->
  currentHistoryIndex t <= Z.of_nat (length (history t)) ->
  exists p,
    JS.index (history t) (currentHistoryIndex t - Z.of_nat (S k)) = Some p /\
    undoTimes (S k) t
    = Ok (mkState (fst p) (snd p) (selectedNodeId t) (history t)
                  (currentHistoryIndex t - Z.of_nat (S k))
                  (originalComponent t) (teamId t)).
Proof.
  induction k as [|k IH]; intros t H0 Hl.
  - destruct (@index_in_range _ (history t) (currentHistoryIndex t - 1))
      as (p & Hp); [simpl in H0; lia|].
    exists p. split; [exact Hp|]. cbn [undoTimes]. unfold undo.
    destruct (currentHistoryIndex t <=? 0) eqn:E;
      [apply Z.leb_le in E; simpl in H0; lia|].
    rewrite Hp. reflexivity.
  - rewrite Nat2Z.inj_succ in H0.
    destruct (@index_in_range _ (history t) (currentHistoryIndex t - 1))
      as (p & Hp); [lia|].
    change (undoTimes (S (S k)) t)
      with (match undo t with
            | Ok s' => undoTimes (S k) s'
            | TypeError => TypeError
            | OutOfFuel => OutOfFuel
            end).
    unfold undo.
    destruct (currentHistoryIndex t <=? 0) eqn:E; [apply Z.leb_le in E; lia|].
    rewrite Hp.
    destruct (IH (mkState (fst p) (snd p) (selectedNodeId t) (history t)
                          (currentHistoryIndex t - 1)
                          (originalComponent t) (teamId t)))
      as (q & Hq & Hu).
    + cbn [currentHistoryIndex]. lia.
    + cbn [currentHistoryIndex history]. lia.
    + cbn [currentHistoryIndex history selectedNodeId originalComponent teamId]
        in Hq, Hu.
      replace (currentHistoryIndex t - 1 - Z.of_nat (S k))
        with (currentHistoryIndex t - Z.of_nat (S (S k))) in Hq, Hu
        by (rewrite (Nat2Z.inj_succ (S k)); lia).
      exists q. split; assumption.
Qed.

(** [k + 1] redos read the snapshot [k + 1] entries up. *)
Lemma redoTimes_spec (k : nat) : forall t,
  -1 <= currentHistoryIndex t ->
  currentHistoryIndex t + Z.of_nat (S k) < Z.of_nat (length (history t)) ->
  exists p,
    JS.index (history t) (currentHistoryIndex t + Z.of_nat (S k)) = Some p /\
    redoTimes (S k) t
    = Ok (mkState (fst p) (snd p) (selectedNodeId t) (history t)
                  (currentHistoryIndex t + Z.of_nat (S k))
                  (originalComponent t) (teamId t)).
Proof.
  induction k as [|k IH]; intros t H0 Hl.
  - destruct (@index_in_range _ (history t) (currentHistoryIndex t + 1))
      as (p & Hp); [simpl in Hl; lia|].
    exists p. split; [exact Hp|]. cbn [redoTimes]. unfold redo.
    destruct (currentHistoryIndex t >=? Z.of_nat (length (history t)) - 1) eqn:E;
      [rewrite Z.geb_leb in E; apply Z.leb_le in E; simpl in Hl; lia|].
    rewrite Hp. reflexivity.
  - rewrite Nat2Z.inj_succ in Hl.
    destruct (@index_in_range _ (history t) (currentHistoryIndex t + 1))
      as (p & Hp); [lia|].
    change (redoTimes (S (S k)) t)
      with (match redo t with
            | Ok s' => redoTimes (S k) s'
            | TypeError => TypeError
            | OutOfFuel => OutOfFuel
            end).
    unfold redo.
    destruct (currentHistoryIndex t >=? Z.of_nat (length (history t)) - 1) eqn:E;
      [rewrite Z.geb_leb in E; apply Z.leb_le in E; lia|].
    rewrite Hp.
    destruct (IH (mkState (fst p) (snd p) (selectedNodeId t) (history t)
                          (currentHistoryIndex t + 1)
                          (originalComponent t) (teamId t)))
      as (q & Hq & Hu).
    + cbn [currentHistoryIndex]. lia.
    + cbn [currentHistoryIndex history]. lia.
    + cbn [currentHistoryIndex history selectedNodeId originalComponent teamId]
        in Hq, Hu.
      replace (currentHistoryIndex t + 1 + Z.of_nat (S k))
        with (currentHistoryIndex t + Z.of_nat (S (S k))) in Hq, Hu
        by (rewrite (Nat2Z.inj_succ (S k)); lia).
      exists q. split; assumption.
Qed.

(** X6.  From a state whose graph is the snapshot at its index, after [k]
    recording updates with index + k below 50, [k] calls of [undo] bring
    back the nodes, the edges and the index of the start, and [k] calls
    of [redo] then give the state after the updates again. *)
Theorem undo_all_then_redo_all (gs : list Snapshot) (s : TeamBuilderState) :
  snapshotIsCurrent s ->
  currentHistoryIndex s + Z.of_nat (length gs) < MAX_HISTORY ->
  exists s0,
    undoTimes (length gs) (recordAll gs s) = Ok s0 /\
    nodes s0 = nodes s /\ edges s0 = edges s /\
    currentHistoryIndex s0 = currentHistoryIndex s /\
    redoTimes (length gs) s0 = Ok (recordAll gs s).
Proof.
  intros Hc Hm.
  destruct gs as [|g gs].
  - exists s. repeat split.
  - destruct (recordAll_spec gs g Hc Hm) as (Hr & Hh & Hi & Hs & Ho & Ht).
    set (r := recordAll (g :: gs) s) in *.
    set (k := length gs) in *.
    pose proof (index_some_range _ _ Hc) as Hrange.
    pose proof (index_some_range _ _ Hr) as Hrange'.
    change (length (g :: gs)) with (S k) in *.
    destruct (@undoTimes_spec k r) as (p & Hp & Hu); [lia|lia|].
    assert (Ep : p = (nodes s, edges s)).
    { rewrite Hh, Hi in Hp.
      replace (currentHistoryIndex s + Z.of_nat (S k) - Z.of_nat (S k))
        with (currentHistoryIndex s) in Hp by lia.
      rewrite index_nth in Hp by lia.
      rewrite nth_error_app1 in Hp by (rewrite length_firstn; lia).
      rewrite nth_error_firstn in Hp.
      destruct (Z.to_nat (currentHistoryIndex s) <? Z.to_nat (currentHistoryIndex s + 1))%nat eqn:E;
        [|apply Nat.ltb_ge in E; lia].
      unfold snapshotIsCurrent in Hc. rewrite index_nth in Hc by lia.
      congruence. }
    subst p. eexists. split; [exact Hu|].
    cbn [nodes edges currentHistoryIndex fst snd].
    split; [reflexivity|]. split; [reflexivity|]. split; [lia|].
    match goal with |- redoTimes _ ?t = _ => set (t0 := t) end.
    destruct (@redoTimes_spec k t0) as (q & Hq & Hrd).
    + subst t0. cbn [currentHistoryIndex]. lia.
    + subst t0. cbn [currentHistoryIndex history]. lia.
    + rewrite Hrd. subst t0.
      cbn [currentHistoryIndex history selectedNodeId originalComponent teamId]
        in Hq |- *.
      replace (currentHistoryIndex r - Z.of_nat (S k) + Z.of_nat (S k))
        with (currentHistoryIndex r) in Hq |- * by lia.
      unfold snapshotIsCurrent in Hr. rewrite Hr in Hq. injection Hq as <-.
      destruct r; reflexivity.
Qed.

Lemma undo_all_then_redo_all_witness :
  exists s0,
    undoTimes 2 (recordAll [([], [Run.edge1]); ([], [])] (st Run.loaded)) = Ok s0 /\
    nodes s0 = nodes (st Run.loaded) /\ edges s0 = edges (st Run.loaded) /\
    currentHistoryIndex s0 = currentHistoryIndex (st Run.loaded) /\
    redoTimes 2 s0 = Ok (recordAll [([], [Run.edge1]); ([], [])] (st Run.loaded)).
Proof.
  apply (@undo_all_then_redo_all [([], [Run.edge1]); ([], [])] (st Run.loaded)).
  - reflexivity.
  - reflexivity.
Defined.

(** X25.  After [resetHistory], and after a [loadFromJson] that is an
    initial load, there is nothing to undo and nothing to redo: both
    return the state they are given. *)
Theorem nothing_to_undo_after_reset {env : Env} :
  (forall s,
     undo (resetHistory s) = Ok (resetHistory s) /\
     redo (resetHistory s) = Ok (resetHistory s)) /\
  (forall ids cfg tid s h s' g h',
     loadFromJson ids cfg true tid s h = (Ok (s', g), h') ->
     undo s' = Ok s' /\ redo s' = Ok s').
Proof.
  split.
  - intros s. split; reflexivity.
  - intros * H. apply loadFromJson_shape in H.
    destruct H as [[_ (Hh & Hi)]|[H _]]; [|discriminate].
    unfold undo, redo. rewrite Hh, Hi. split; reflexivity.
Qed.

Lemma nothing_to_undo_after_reset_witness :
  undo (st Run.loaded) = Ok (st Run.loaded) /\
  redo (st Run.loaded) = Ok (st Run.loaded).
Proof.
  exact (proj2 (@nothing_to_undo_after_reset Sample.env)
           (Sample.idsFrom "n") 4%nat None (st Run.built) (hp Run.built)
           (st Run.loaded)
           (nodes (st Run.loaded), edges (st Run.loaded))
           (hp Run.loaded) eq_refl).
Defined.

(** ** Selection and session fields *)






(** ** Edges *)

(** X8.  [removeEdge] keeps the nodes, removes every edge with the given
    id and keeps every other edge; it advances the index also when no
    edge has the id, the edges then staying as they are. *)
Theorem removeEdge_by_id (edgeId : string) (s : TeamBuilderState) :
  nodes (removeEdge edgeId s) = nodes s /\
  (forall e, In e (edges (removeEdge edgeId s)) <->
             In e (edges s) /\ eid e <> edgeId) /\
  currentHistoryIndex (removeEdge edgeId s) = currentHistoryIndex s + 1 /\
  ((forall e, In e (edges s) -> eid e <> edgeId) ->
   edges (removeEdge edgeId s) = edges s).
Proof.
  split; [reflexivity|]. split; [|split; [reflexivity|]].
  - intros e. cbn [removeEdge recorded edges]. rewrite filter_In.
    rewrite negb_true_iff, String.eqb_neq. reflexivity.
  - intros H. cbn [removeEdge recorded edges]. apply filter_all.
    intros e He. rewrite negb_true_iff, String.eqb_neq. now apply H.
Qed.

Lemma removeEdge_by_id_witness :
  edges (removeEdge "ghost" (st Run.loaded)) = edges (st Run.loaded).
Proof.
  apply (proj2 (proj2 (proj2 (removeEdge_by_id "ghost" (st Run.loaded))))).
  intros e He. vm_compute in He. destruct He as [<-|[]]. discriminate.
Defined.

(** X9.  [addEdge] of an edge whose id no edge has, followed by
    [removeEdge] of that id, gives back the nodes and edges; the index
    has advanced by two. *)
Theorem addEdge_then_removeEdge (edge : CustomEdge) (s : TeamBuilderState) :
  (forall e, In e (edges s) -> eid e <> eid edge) ->
  nodes (removeEdge (eid edge) (addEdge edge s)) = nodes s /\
  edges (removeEdge (eid edge) (addEdge edge s)) = edges s /\
  currentHistoryIndex (removeEdge (eid edge) (addEdge edge s))
  = currentHistoryIndex s + 2.
Proof.
  intros H. split; [reflexivity|]. split.
  - cbn [removeEdge addEdge recorded edges]. rewrite filter_app.
    cbn [filter]. rewrite String.eqb_refl. cbn [negb]. rewrite app_nil_r.
    apply filter_all. intros e He. rewrite negb_true_iff, String.eqb_neq.
    now apply H.
  - cbn [removeEdge addEdge recorded currentHistoryIndex]. lia.
Qed.

Lemma addEdge_then_removeEdge_witness :
  nodes (removeEdge "e1" (addEdge Run.edge1 (st Run.loaded))) = nodes (st Run.loaded) /\
  edges (removeEdge "e1" (addEdge Run.edge1 (st Run.loaded))) = edges (st Run.loaded) /\
  currentHistoryIndex (removeEdge "e1" (addEdge Run.edge1 (st Run.loaded)))
  = currentHistoryIndex (st Run.loaded) + 2.
Proof.
  apply (@addEdge_then_removeEdge Run.edge1 (st Run.loaded)).
  intros e He. vm_compute in He. destruct He as [<-|[]]. discriminate.
Defined.

(** ** Removing nodes *)

Section Removal.

Context {env : Env}.

(** X10.  [removeNode] with an id that names no node leaves nodes, edges
    and objects as they are, and still records a snapshot. *)
Theorem removeNode_unknown_id (fuel : nat) (nodeId : string)
    (s : TeamBuilderState) (h : Heap) :
  findNode nodeId (nodes s) = None ->
  exists s',
    removeNode (S fuel) nodeId s h = (Ok s', h) /\
    nodes s' = nodes s /\ edges s' = edges s /\
    currentHistoryIndex s' = currentHistoryIndex s + 1.
Proof.
  intros Hf. unfold removeNode. cbn [collectNodesToRemove]. rewrite Hf.
  unfold bind, ret. eexists. split; [reflexivity|].
  cbn [recorded nodes edges currentHistoryIndex nodesToRemove updatedNodes].
  split; [|split; [|reflexivity]].
  - rewrite filter_all by reflexivity. cbn [getUpdated find option_map].
    apply map_id.
  - apply filter_all. reflexivity.
Qed.

Lemma withoutParticipant_nid teamNode node h u h' :
  withoutParticipant teamNode node h = (Ok u, h') -> nid u = nid teamNode.
Proof.
  unfold withoutParticipant. intros H. run_inv H. reflexivity.
Qed.

Lemma has_cons (x y : string) (l : list string) :
  has (y :: l) x = String.eqb x y || has l x.
Proof. reflexivity. Qed.

Lemma grows_refl s acc : keyed acc -> grows s acc acc.
Proof. intros Hk. split; [assumption|]. split; intros x Hx; auto. Qed.

Lemma grows_trans s a b c : grows s a b -> grows s b c -> grows s a c.
Proof.
  intros (_ & H1 & H2) (K & H3 & H4). split; [assumption|]. split.
  - intros x Hx. auto.
  - intros x Hx. destruct (H4 x Hx) as [H|H]; auto.
Qed.

(** The collections only grow along a [forEach]. *)
Lemma forEach_grows (s : TeamBuilderState) (f : CustomEdge -> Collected -> M Collected)
    (L : list CustomEdge) :
  (forall e acc h r h', keyed acc -> f e acc h = (Ok r, h') -> grows s acc r) ->
  forall acc h r h', keyed acc ->
    forEachM f L acc h = (Ok r, h') -> grows s acc r.
Proof.
  intros Hf. induction L as [|e L IH]; intros acc h r h' Hk H.
  - cbn [forEachM] in H. run_inv H. now apply grows_refl.
  - cbn [forEachM] in H. run_inv H.
    pose proof (Hf _ _ _ _ _ Hk Hrun) as G1.
    apply grows_trans with a; [assumption|].
    apply (IH _ _ _ _ (proj1 G1) H).
Qed.

(** A completed call of [collectNodesToRemove] only adds ids of nodes, and
    adds the id it is given when that names a node. *)
Lemma collect_grows (fuel : nat) : forall s id acc h r h',
  keyed acc ->
  collectNodesToRemove fuel s id acc h = (Ok r, h') ->
  grows s acc r /\
  (nodeExists s id = true -> has (nodesToRemove r) id = true).
Proof.
  induction fuel as [|fuel IH]; intros s id acc h r h' Hk H.
  - discriminate H.
  - cbn [collectNodesToRemove] in H. unfold nodeExists.
    destruct (findNode id (nodes s)) as [node|] eqn:Ef.
    + set (acc1 := mkCollected (id :: nodesToRemove acc) (updatedNodes acc)) in *.
      assert (Hk1 : keyed acc1) by exact Hk.
      assert (G1 : grows s acc acc1).
      { split; [assumption|]. split.
        - intros x Hx. unfold acc1. cbn [nodesToRemove]. rewrite has_cons, Hx.
          apply orb_true_r.
        - intros x Hx. unfold acc1 in Hx. cbn [nodesToRemove] in Hx.
          rewrite has_cons in Hx. apply orb_true_iff in Hx.
          destruct Hx as [Hx|Hx]; [right|now left].
          apply String.eqb_eq in Hx. subst x. unfold nodeExists. now rewrite Ef. }
      assert (Hid : has (nodesToRemove acc1) id = true).
      { unfold acc1. cbn [nodesToRemove]. rewrite has_cons, String.eqb_refl.
        reflexivity. }
      assert (G : grows s acc1 r).
      { unfold bind at 1 in H. unfold getComp at 1 in H.
        destruct (isTeamComponent (header (comps h (component node)))).
        - apply (@forEach_grows s _ _
                   (fun e acc0 h0 r0 h0' K0 H0 => proj1 (IH _ _ _ _ _ _ K0 H0))
                   _ _ _ _ Hk1 H).
        - destruct (isAgentComponent (header (comps h (component node))));
            [|run_inv H; now apply grows_refl].
          destruct (find isAgentConnection _) as [teamEdge|];
            [|run_inv H; now apply grows_refl].
          destruct (findNode (source teamEdge) (nodes s)) as [teamNode|];
            [|run_inv H; now apply grows_refl].
          run_inv H; [|now apply grows_refl].
          apply withoutParticipant_nid in Hrun0.
          split.
          + intros k n Hin. cbn [updatedNodes] in Hin.
            destruct Hin as [Hin|Hin]; [|now apply Hk1].
            injection Hin as <- <-. assumption.
          + split; intros x Hx; auto. }
      split; [now apply grows_trans with acc1|].
      intros _. now apply (proj1 (proj2 G)).
    + run_inv H. split; [now apply grows_refl|discriminate].
Qed.

(** X11.  When [removeNode] completes, the nodes that are left are those
    whose id is outside a set of removed ids, in their order, and the
    edges that are left are those with neither end in the set; every
    removed id named a node, and the id given is among them when it names
    one: then no node has that id any more and no edge touches it. *)
Theorem removeNode_takes_out_node_and_edges (fuel : nat) (nodeId : string)
    (s : TeamBuilderState) (h : Heap) (s' : TeamBuilderState) (h' : Heap) :
  removeNode fuel nodeId s h = (Ok s', h') ->
  exists removed : list string,
    (forall x, has removed x = true -> nodeExists s x = true) /\
    (nodeExists s nodeId = true -> has removed nodeId = true) /\
    map nid (nodes s')
    = filter (fun i => negb (has removed i)) (map nid (nodes s)) /\
    edges s'
    = filter (fun e => negb (has removed (source e)) &&
                       negb (has removed (target e))) (edges s) /\
    (nodeExists s nodeId = true ->
     findNode nodeId (nodes s') = None /\
     forall e, In e (edges s') -> source e <> nodeId /\ target e <> nodeId).
Proof.
  intros H. unfold removeNode in H. run_inv H.
  assert (Hk0 : keyed (mkCollected [] [])) by (intros k n []).
  destruct (@collect_grows fuel s nodeId _ h a h' Hk0 Hrun) as ((Hk & _ & Hsub) & Hid).
  exists (nodesToRemove a). cbn [recorded nodes edges].
  assert (Hnodes :
    map nid
      (map (fun node => match getUpdated (updatedNodes a) (nid node) with
                        | Some n => n
                        | None => node
                        end)
           (filter (fun node => negb (has (nodesToRemove a) (nid node))) (nodes s)))
    = filter (fun i => negb (has (nodesToRemove a) i)) (map nid (nodes s))).
  { apply (map_nid_filter (fun i => negb (has (nodesToRemove a) i))).
    intros n. unfold getUpdated.
    destruct (find _ (updatedNodes a)) as [[k n']|] eqn:Efind; [|reflexivity].
    cbn [option_map snd]. apply find_some in Efind.
    destruct Efind as [Hin Hkey]. cbn [fst] in Hkey.
    apply String.eqb_eq in Hkey. rewrite (Hk k n' Hin). exact Hkey. }
  split.
  { intros x Hx. destruct (Hsub x Hx) as [Hc|Hc]; [discriminate Hc|exact Hc]. }
  split; [exact Hid|]. split; [exact Hnodes|]. split; [reflexivity|].
  intros Hex. specialize (Hid Hex). split.
  - match goal with |- findNode _ ?l = None => 
      destruct (findNode nodeId l) as [n|] eqn:Ef; [|reflexivity] end.
    apply findNode_some in Ef. destruct Ef as [Hin Hn].
    apply (in_map nid) in Hin. rewrite Hnodes in Hin.
    apply filter_In in Hin. destruct Hin as [_ Hin].
    rewrite Hn, Hid in Hin. discriminate.
  - intros e He. apply filter_In in He. destruct He as [_ He].
    apply andb_true_iff in He. destruct He as [H1 H2].
    split; intros <-; rewrite Hid in *; discriminate.
Qed.

(** A [forEach] over a list with an element whose call never completes
    does not complete. *)
Lemma forEach_stuck (h : Heap) (f : CustomEdge -> Collected -> M Collected)
    (e : CustomEdge) (L : list CustomEdge) :
  (forall x acc, allocOnly (f x acc)) ->
  (forall acc h1 r h2, extends h h1 -> f e acc h1 <> (Ok r, h2)) ->
  In e L ->
  forall acc h1 r h2, extends h h1 -> forEachM f L acc h1 <> (Ok r, h2).
Proof.
  intros Ha He. induction L as [|x L IH]; intros Hin acc h1 r h2 Hx H;
    [destruct Hin|].
  cbn [forEachM] in H. run_inv H.
  pose proof (Ha x acc _ _ _ Hrun) as Hx1.
  destruct Hin as [->|Hin].
  - exact (He _ _ _ _ Hx Hrun).
  - exact (IH Hin _ _ _ _ (extends_trans Hx Hx1) H).
Qed.

(** Collecting from a team node that an agent-connection edge leads to
    comes back to that node. *)
Lemma collect_never_returns (s : TeamBuilderState) (h : Heap)
    (tid : string) (t : CustomNode) (e : CustomEdge) :
  findNode tid (nodes s) = Some t ->
  (component t < next h)%nat ->
  isTeamComponent (headerAt h (component t)) = true ->
  In e (edges s) -> isAgentConnection e = true -> target e = tid ->
  forall fuel acc h1 r h2,
    extends h h1 -> collectNodesToRemove fuel s tid acc h1 <> (Ok r, h2).
Proof.
  intros Hf Hc Ht Hin Hac Htg.
  induction fuel as [|fuel IH]; intros acc h1 r h2 Hx H; [discriminate H|].
  cbn [collectNodesToRemove] in H. rewrite Hf in H.
  unfold bind at 1 in H. unfold getComp at 1 in H.
  replace (comps h1 (component t)) with (comps h (component t)) in H
    by (symmetry; apply (proj2 Hx _ Hc)).
  unfold headerAt in Ht. rewrite Ht in H.
  revert H.
  apply (@forEach_stuck h (fun e0 => collectNodesToRemove fuel s (target e0)) e).
  - intros x a. apply allocOnly_collect.
  - intros a0 h0 r0 h0' Hx0. rewrite Htg. now apply IH.
  - apply filter_In. split; [|assumption].
    apply filter_In. split; [assumption|].
    unfold connectedTo. rewrite Htg, String.eqb_refl. apply orb_true_r.
  - assumption.
Qed.

Lemma removeNode_never_returns (s : TeamBuilderState) (h : Heap)
    (tid : string) (t : CustomNode) (e : CustomEdge) :
  findNode tid (nodes s) = Some t ->
  (component t < next h)%nat ->
  isTeamComponent (headerAt h (component t)) = true ->
  In e (edges s) -> isAgentConnection e = true -> target e = tid ->
  forall fuel s' h', removeNode fuel tid s h <> (Ok s', h').
Proof.
  intros Hf Hc Ht Hin Hac Htg fuel s' h' H.
  unfold removeNode in H. apply bind_Ok in H.
  destruct H as (r & h1 & Hrun & _).
  exact (@collect_never_returns s h tid t e Hf Hc Ht Hin Hac Htg fuel _ h _ _
           (extends_refl h) Hrun).
Qed.

(** X12.  [removeNode] of a team node that an agent-connection edge leads
    to (from itself or from another node) does not complete: the
    recursion comes back to the node without end, unless a throw ends it
    first. *)
Theorem removeNode_team_with_incoming_edge (s : TeamBuilderState) (h : Heap)
    (tid : string) (t : CustomNode) (e : CustomEdge) (fuel : nat) :
  findNode tid (nodes s) = Some t ->
  (component t < next h)%nat ->
  isTeamComponent (headerAt h (component t)) = true ->
  In e (edges s) -> isAgentConnection e = true -> target e = tid ->
  fst (removeNode fuel tid s h) = TypeError \/
  fst (removeNode fuel tid s h) = OutOfFuel.
Proof.
  intros Hf Hc Ht Hin Hac Htg.
  pose proof (@removeNode_never_returns s h tid t e Hf Hc Ht Hin Hac Htg fuel)
    as H.
  destruct (removeNode fuel tid s h) as [[s'| |] h']; cbn [fst];
    [exfalso; exact (H s' h' eq_refl)|now left|now right].
Qed.


End Removal.

Lemma removeNode_unknown_id_witness :
  exists s',
    removeNode (env := Sample.env) 1 "ghost" (st Run.loaded) (hp Run.loaded)
    = (Ok s', hp Run.loaded) /\
    nodes s' = nodes (st Run.loaded) /\ edges s' = edges (st Run.loaded) /\
    currentHistoryIndex s' = currentHistoryIndex (st Run.loaded) + 1.
Proof.
  exact (@removeNode_unknown_id Sample.env 0 "ghost" (st Run.loaded)
           (hp Run.loaded) eq_refl).
Defined.

Lemma removeNode_takes_out_node_and_edges_witness :
  let s := st Run.loaded in
  let s' := st (Run.act [RemoveNode 3 "ni"] Run.loaded) in
  exists removed : list string,
    (forall x, has removed x = true -> nodeExists s x = true) /\
    (nodeExists s "ni" = true -> has removed "ni" = true) /\
    map nid (nodes s')
    = filter (fun i => negb (has removed i)) (map nid (nodes s)) /\
    edges s'
    = filter (fun e => negb (has removed (source e)) &&
                       negb (has removed (target e))) (edges s) /\
    (nodeExists s "ni" = true ->
     findNode "ni" (nodes s') = None /\
     forall e, In e (edges s') -> source e <> "ni" /\ target e <> "ni").
Proof.
  exact (@removeNode_takes_out_node_and_edges Sample.env 3 "ni"
           (st Run.loaded) (hp Run.loaded)
           (st (Run.act [RemoveNode 3 "ni"] Run.loaded))
           (hp (Run.act [RemoveNode 3 "ni"] Run.loaded)) eq_refl).
Defined.

Lemma removeNode_team_with_incoming_edge_witness :
  fst (removeNode (env := Sample.env) 9 "n"
                  (st Cascade.withLoop) (hp Cascade.withLoop)) = TypeError \/
  fst (removeNode (env := Sample.env) 9 "n"
                  (st Cascade.withLoop) (hp Cascade.withLoop)) = OutOfFuel.
Proof.
  apply (@removeNode_team_with_incoming_edge Sample.env
           (st Cascade.withLoop) (hp Cascade.withLoop) "n" Loaded.teamNode
           (mkEdge "e3" "n" "n" None None (Some "agent-connection")) 9).
  - reflexivity.
  - vm_compute. lia.
  - reflexivity.
  - left. reflexivity.
  - reflexivity.
  - reflexivity.
Defined.


(** ** Updating nodes *)

Section Updating.

Context {env : Env}.

(** One call of the [map] callback of [updateNode]. *)
Lemma updateOne_updatedAs nodeId updates s h0 n h1 n' h2 :
  extends h0 h1 ->
  updateOne nodeId updates s n h1 = (Ok n', h2) ->
  updatedAs nodeId updates h0 n n'.
Proof.
  intros Hx H. unfold updateOne in H.
  destruct (String.eqb (nid n) nodeId) eqn:E; cbn [negb] in H.
  - apply String.eqb_eq in E. run_inv H. unfold updatedAs.
    cbn [nid position ntype data].
    repeat match goal with |- _ /\ _ => split end; try reflexivity.
    intros Hne. contradiction.
  - apply String.eqb_neq in E. unfold updatedAs.
    run_inv H.
    + cbn [set_component nid position ntype data dlabel dtype].
      repeat match goal with |- _ /\ _ => split end; try reflexivity;
        try (intros Hc; contradiction).
      * intros _. split; [reflexivity|]. split; [reflexivity|]. right.
        unfold component. cbn [data dcomponent].
        heap_inv. cbn [set_component data dcomponent next].
        destruct Hx as [Hx _]. lia.
    + repeat match goal with |- _ /\ _ => split end; try reflexivity;
        try (intros Hc; contradiction).
      intros _. split; [reflexivity|]. split; [reflexivity|]. now left.
Qed.

(** X14.  When [updateNode] completes, the nodes keep their number, order,
    ids, positions and types; the node with the given id has the merged
    data; any other node keeps label and type, and is unchanged or shows
    a new component object; edges and selection stay. *)
Theorem updateNode_keeps_graph_shape (nodeId : string) (updates : NodeUpdates)
    (s : TeamBuilderState) (h : Heap) (s' : TeamBuilderState) (h' : Heap) :
  updateNode nodeId updates s h = (Ok s', h') ->
  Forall2 (updatedAs nodeId updates h) (nodes s) (nodes s') /\
  map nid (nodes s') = map nid (nodes s) /\
  edges s' = edges s /\
  selectedNodeId s' = selectedNodeId s.
Proof.
  intros H. unfold updateNode in H. run_inv H.
  cbn [recorded nodes edges selectedNodeId].
  assert (F : Forall2 (updatedAs nodeId updates h) (nodes s) a).
  { apply (@mapM_Forall2 _ _ (updateOne nodeId updates s)
             (updatedAs nodeId updates h) h
             (allocOnly_updateOne nodeId updates s)
             (fun x h1 y h2 Hx Hr => updateOne_updatedAs _ _ _ _ Hx Hr)
             (nodes s) h a h' (extends_refl h) Hrun). }
  split; [exact F|]. split; [|split; reflexivity].
  clear Hrun. induction F as [|n n' ns ns' (Hn & _) _ IH]; [reflexivity|].
  cbn [map]. now rewrite Hn, IH.
Qed.


(** Nodes with another id, with no agent-connection edge to [nodeId] in
    the graph, come back as they are. *)
Lemma mapM_updateOne_unrelated nodeId updates s (ns : list CustomNode) h :
  (forall n, In n ns -> nid n <> nodeId) ->
  (forall e, In e (edges s) -> isAgentConnection e = true ->
             target e <> nodeId) ->
  mapM (updateOne nodeId updates s) ns h = (Ok ns, h).
Proof.
  intros Hn He. induction ns as [|n ns IH]; [reflexivity|].
  cbn [mapM]. unfold bind at 1. unfold updateOne at 1.
  replace (String.eqb (nid n) nodeId) with false
    by (symmetry; apply String.eqb_neq, Hn; now left).
  cbn [negb]. unfold bind at 1. unfold getComp at 1.
  replace (existsb _ (edges s)) with false.
  - rewrite andb_false_r. cbn [andb]. unfold ret at 1.
    unfold bind at 1. rewrite IH by (intros m Hm; apply Hn; now right).
    reflexivity.
  - symmetry. apply not_true_is_false. intros Hex.
    apply existsb_exists in Hex. destruct Hex as (e & Hin & Hb).
    apply andb_true_iff in Hb. destruct Hb as [Hb _].
    apply andb_true_iff in Hb. destruct Hb as [Hac Ht].
    apply String.eqb_eq in Ht. exact (He e Hin Hac Ht).
Qed.

(** X26.  [updateNode] with an id that names no node and that no
    agent-connection edge leads to leaves nodes, edges and objects as
    they are, and still records a snapshot. *)
Theorem updateNode_unknown_id (nodeId : string) (updates : NodeUpdates)
    (s : TeamBuilderState) (h : Heap) :
  findNode nodeId (nodes s) = None ->
  (forall e, In e (edges s) -> isAgentConnection e = true ->
             target e <> nodeId) ->
  exists s',
    updateNode nodeId updates s h = (Ok s', h) /\
    nodes s' = nodes s /\ edges s' = edges s /\
    currentHistoryIndex s' = currentHistoryIndex s + 1.
Proof.
  intros Hf He. unfold updateNode. unfold bind at 1.
  rewrite mapM_updateOne_unrelated; [|
    intros n Hin Hid; unfold findNode in Hf;
    apply (find_none _ _ Hf) in Hin; rewrite Hid, String.eqb_refl in Hin;
    discriminate | exact He].
  unfold ret. eexists. split; [reflexivity|]. repeat split.
Qed.

End Updating.

Lemma updateNode_unknown_id_witness :
  exists s',
    updateNode (env := Sample.env) "ghost" (mkUpdates (Some "b") None None)
               (st Run.loaded) (hp Run.loaded) = (Ok s', hp Run.loaded) /\
    nodes s' = nodes (st Run.loaded) /\ edges s' = edges (st Run.loaded) /\
    currentHistoryIndex s' = currentHistoryIndex (st Run.loaded) + 1.
Proof.
  apply (@updateNode_unknown_id Sample.env "ghost"
           (mkUpdates (Some "b") None None) (st Run.loaded) (hp Run.loaded)).
  - reflexivity.
  - intros e [<-|[]] _. discriminate.
Defined.

Lemma updateNode_keeps_graph_shape_witness :
  let w := Run.loaded in
  let w' := Run.act [UpdateNode "ni" (mkUpdates (Some "b") None None)] w in
  Forall2 (updatedAs "ni" (mkUpdates (Some "b") None None) (hp w))
          (nodes (st w)) (nodes (st w')) /\
  map nid (nodes (st w')) = map nid (nodes (st w)) /\
  edges (st w') = edges (st w) /\
  selectedNodeId (st w') = selectedNodeId (st w).
Proof.
  exact (@updateNode_keeps_graph_shape Sample.env
           "ni" (mkUpdates (Some "b") None None)
           (st Run.loaded) (hp Run.loaded)
           (st (Run.act [UpdateNode "ni" (mkUpdates (Some "b") None None)]
                        Run.loaded))
           (hp (Run.act [UpdateNode "ni" (mkUpdates (Some "b") None None)]
                        Run.loaded))
           eq_refl).
Defined.


(** ** Dropping components *)

Section Drops.

Context {env : Env}.

(** X16.  A model dropped on a selector team, or on an assistant or
    web-surfer agent: nodes and edges stay, a snapshot is recorded, and
    [model_client] of the target's own config object is set, in place, to
    the clone (replacing what was there); no other object that was there
    before changes. *)
Theorem addNode_model_onto_target
    (ids : nat -> string) (pos : Position) (comp : CTree) (tgt : string)
    (s : TeamBuilderState) (h : Heap) (targetNode : CustomNode) :
  isModelComponent (treeHeader comp) = true ->
  JS.truthy tgt = true ->
  findNode tgt (nodes s) = Some targetNode ->
  (component targetNode < next h)%nat ->
  (config (comps h (component targetNode)) < next h)%nat ->
  (let tc := headerAt h (component targetNode) in
   isTeamComponent tc && isSelectorTeam tc ||
   isAgentComponent tc && (isAssistantAgent tc || isWebSurferAgent tc)) = true ->
  exists s' h' c,
    addNode ids pos comp tgt s h = (Ok s', h') /\
    nodes s' = nodes s /\ edges s' = edges s /\
    currentHistoryIndex s' = currentHistoryIndex s + 1 /\
    (next h <= c)%nat /\ headerAt h' c = treeHeader comp /\
    confs h' (config (comps h (component targetNode)))
    = set_model_client (confs h (config (comps h (component targetNode))))
                       (Some c) /\
    forall l, (l < next h)%nat ->
      comps h' l = comps h l /\ arrs h' l = arrs h l /\
      (l <> config (comps h (component targetNode)) -> confs h' l = confs h l).
Proof.
  intros Hm Htr Hf Hc Hcf Hacc.
  destruct (clone_spec comp h)
    as (c & h1 & Hcl & Hx & Hcb & Hhd & Hcfb & _ & _).
  destruct Hx as [Hn Hx].
  destruct (Hx _ Hc) as (Hc1 & _ & _).
  destruct (Hx _ Hcf) as (_ & Hcf1 & _).
  assert (Hrun : dropOnTarget tgt targetNode c s h1
                 = (Ok (Some (recorded s (nodes s) (edges s))),
                    mkHeap (comps h1)
                           (upd (confs h1) (config (comps h (component targetNode)))
                                (set_model_client
                                   (confs h (config (comps h (component targetNode))))
                                   (Some c)))
                           (arrs h1) (next h1))).
  { unfold dropOnTarget, headerOf.
    unfold bind at 1. unfold bind at 1. unfold getComp at 1. unfold ret at 1.
    unfold bind at 1. unfold bind at 1. unfold getComp at 1. unfold ret at 1.
    rewrite Hhd, Hm, Hc1. cbv zeta in Hacc. unfold headerAt in Hacc.
    assert (Hassign : forall k : M (option TeamBuilderState),
              (assignModelClient targetNode c ;;; k) h1
              = k (mkHeap (comps h1)
                          (upd (confs h1) (config (comps h (component targetNode)))
                               (set_model_client
                                  (confs h (config (comps h (component targetNode))))
                                  (Some c)))
                          (arrs h1) (next h1))).
    { intros k. unfold assignModelClient, bind, getComp, getConf, setConf.
      now rewrite Hc1, Hcf1. }
    destruct (isTeamComponent (header (comps h (component targetNode))) &&
              isSelectorTeam (header (comps h (component targetNode)))).
    - now rewrite Hassign.
    - cbn [orb] in Hacc. rewrite Hacc. now rewrite Hassign. }
  eexists _, _, c. unfold addNode. unfold bind at 1. rewrite Hcl, Htr, Hf.
  unfold bind at 1. rewrite Hrun. unfold ret.
  split; [reflexivity|]. cbn [recorded nodes edges currentHistoryIndex].
  split; [reflexivity|]. split; [reflexivity|]. split; [reflexivity|].
  split; [lia|]. unfold headerAt. cbn [comps confs arrs].
  split; [exact Hhd|]. split; [apply upd_same|].
  intros l Hl. destruct (Hx _ Hl) as (H1 & H2 & H3).
  split; [assumption|]. split; [assumption|].
  intros Hne. now rewrite upd_other.
Qed.

(** The [map] of the termination drop completes, writing to no object
    that was there. *)
Lemma mapM_withTermination (tgt : string) (c : loc) (h : Heap)
    (ns : list CustomNode) :
  (forall n, In n ns ->
     (component n < next h)%nat /\
     (config (comps h (component n)) < next h)%nat) ->
  forall hcur, extends h hcur ->
  exists ns' h',
    mapM (withTermination tgt c) ns hcur = (Ok ns', h') /\
    extends hcur h' /\
    Forall2 (withTerminationAs tgt c h h') ns ns'.
Proof.
  induction ns as [|n ns IH]; intros Hal hcur Hx.
  - exists [], hcur. split; [reflexivity|]. split; [apply extends_refl|].
    constructor.
  - destruct (Hal n (or_introl eq_refl)) as [Hc Hcf].
    destruct Hx as [Hn Hxl].
    destruct (Hxl _ Hc) as (Hc1 & _ & _).
    destruct (Hxl _ Hcf) as (_ & Hcf1 & _).
    cbn [mapM]. unfold bind at 1. unfold withTermination at 1.
    destruct (String.eqb (nid n) tgt) eqn:E.
    + unfold bind at 1. unfold getComp at 1. rewrite Hc1.
      unfold bind at 1. unfold getConf at 1. rewrite Hcf1.
      unfold bind at 1. unfold newConf at 1.
      unfold bind at 1. unfold newComp at 1. cbn [next]. unfold ret at 1.
      cbn [comps confs arrs next].
      match goal with
      | |- exists _ _, bind _ _ ?hh = _ /\ _ => set (h2 := hh)
      end.
      assert (Hx2 : extends hcur h2).
      { split; [cbn; lia|]. intros l Hl. cbn [comps confs arrs h2].
        rewrite !upd_other by lia. repeat split. }
      assert (Hx02 : extends h h2)
        by (apply extends_trans with hcur; [split|]; assumption).
      destruct (IH (fun m Hm => Hal m (or_intror Hm)) h2 Hx02)
        as (ns' & h' & Hrun & Hx3 & F).
      unfold bind at 1. rewrite Hrun. unfold ret.
      eexists _, h'. split; [reflexivity|].
      split; [exact (extends_trans Hx2 Hx3)|].
      constructor; [|exact F].
      unfold withTerminationAs. rewrite E.
      unfold component, headerAt.
      cbn [set_component nid position ntype data dlabel dtype dcomponent].
      destruct Hx3 as [_ Hx3].
      destruct (Hx3 (S (next hcur))) as (Hk1 & _ & _); [cbn; lia|].
      destruct (Hx3 (next hcur)) as (_ & Hk2 & _); [cbn; lia|].
      cbn [h2 comps confs] in Hk1, Hk2.
      rewrite upd_same in Hk1. rewrite upd_same in Hk2.
      rewrite Hk1. cbn [header config]. rewrite Hk2.
      repeat match goal with |- _ /\ _ => split end; try reflexivity. lia.
    + unfold ret at 1.
      destruct (IH (fun m Hm => Hal m (or_intror Hm)) hcur (conj Hn Hxl))
        as (ns' & h' & Hrun & Hx3 & F).
      unfold bind at 1. rewrite Hrun. unfold ret.
      eexists _, h'. split; [reflexivity|]. split; [assumption|].
      constructor; [|exact F]. unfold withTerminationAs. now rewrite E.
Qed.

(** X17.  A termination condition dropped on a team: every node with the
    target id is replaced by a node showing a new component and config
    with [termination_condition] set to the clone, every other node and
    the edges stay, and no object that was there before is written to. *)
Theorem addNode_termination_onto_team
    (ids : nat -> string) (pos : Position) (comp : CTree) (tgt : string)
    (s : TeamBuilderState) (h : Heap) (targetNode : CustomNode) :
  isModelComponent (treeHeader comp) = false ->
  isToolComponent (treeHeader comp) = false ->
  isTerminationComponent (treeHeader comp) = true ->
  JS.truthy tgt = true ->
  findNode tgt (nodes s) = Some targetNode ->
  isTeamComponent (headerAt h (component targetNode)) = true ->
  nodesAllocated h s ->
  exists s' h' c,
    addNode ids pos comp tgt s h = (Ok s', h') /\
    extends h h' /\
    (next h <= c)%nat /\ headerAt h' c = treeHeader comp /\
    Forall2 (withTerminationAs tgt c h h') (nodes s) (nodes s') /\
    edges s' = edges s /\
    currentHistoryIndex s' = currentHistoryIndex s + 1.
Proof.
  intros Hm Htl Htm Htr Hf Ht Hal.
  destruct (clone_spec comp h)
    as (c & h1 & Hcl & Hx & Hcb & Hhd & _).
  destruct (@mapM_withTermination tgt c h (nodes s) Hal h1 Hx)
    as (ns' & h' & Hrun & Hx' & F).
  assert (Hin : In targetNode (nodes s)) by (apply findNode_some in Hf; tauto).
  destruct (Hal _ Hin) as [Hc _].
  exists (recorded s ns' (edges s)), h', c.
  split.
  { unfold addNode. unfold bind at 1. rewrite Hcl, Htr, Hf.
    unfold bind at 1. unfold dropOnTarget, headerOf.
    unfold bind at 1. unfold bind at 1. unfold getComp at 1. unfold ret at 1.
    unfold bind at 1. unfold bind at 1. unfold getComp at 1. unfold ret at 1.
    rewrite Hhd, Hm, Htl, Htm.
    destruct Hx as [_ Hx]. destruct (Hx _ Hc) as (-> & _).
    unfold headerAt in Ht. rewrite Ht.
    unfold bind at 1. rewrite Hrun. reflexivity. }
  split; [exact (extends_trans Hx Hx')|]. split; [lia|].
  split.
  { unfold headerAt. destruct Hx' as [_ Hx'].
    destruct (Hx' c) as (-> & _); [lia|]. exact Hhd. }
  split; [exact F|]. split; reflexivity.
Qed.

(** X18.  A workbench dropped on an assistant agent: nodes and edges stay,
    and [config.workbench] of the agent becomes an array holding the
    workbenches it had (none, the single one, or the array's) followed by
    the clone. *)
Theorem addNode_workbench_onto_agent
    (ids : nat -> string) (pos : Position) (comp : CTree) (tgt : string)
    (s : TeamBuilderState) (h : Heap) (targetNode : CustomNode) :
  isModelComponent (treeHeader comp) = false ->
  isToolComponent (treeHeader comp) = false ->
  isTerminationComponent (treeHeader comp) = false ->
  isWorkbenchComponent (treeHeader comp) = true ->
  JS.truthy tgt = true ->
  findNode tgt (nodes s) = Some targetNode ->
  isAgentComponent (headerAt h (component targetNode)) = true ->
  isAssistantAgent (headerAt h (component targetNode)) = true ->
  (component targetNode < next h)%nat ->
  (config (comps h (component targetNode)) < next h)%nat ->
  wbBelow (next h) (workbench (agentConfig h targetNode)) ->
  exists s' h' c wa,
    addNode ids pos comp tgt s h = (Ok s', h') /\
    nodes s' = nodes s /\ edges s' = edges s /\
    currentHistoryIndex s' = currentHistoryIndex s + 1 /\
    (next h <= c)%nat /\ headerAt h' c = treeHeader comp /\
    workbench (agentConfig h' targetNode) = WbMany wa /\
    arrs h' wa = workbenchList h (agentConfig h targetNode) ++ [Some c] /\
    (forall l, (l < next h)%nat -> comps h' l = comps h l).
Proof.
  intros Hm Htl Htm Hwb Htr Hf Hag Hasst Hc Hcf Hbelow.
  destruct (clone_spec comp h)
    as (c & h1 & Hcl & Hx & Hcb & Hhd & _).
  destruct Hx as [Hn Hx].
  destruct (Hx _ Hc) as (Hc1 & _ & _).
  destruct (Hx _ Hcf) as (_ & Hcf1 & _).
  set (tcfg := config (comps h (component targetNode))) in *.
  unfold agentConfig in *. fold tcfg in Hbelow |- *.
  assert (Hb1 : wbBelow (next h1) (workbench (confs h1 tcfg))).
  { rewrite Hcf1. destruct (workbench (confs h tcfg)); cbn in *; lia. }
  assert (Hl1 : workbenchList h1 (confs h1 tcfg) = workbenchList h (confs h tcfg)).
  { rewrite Hcf1. unfold workbenchList.
    destruct (workbench (confs h tcfg)) as [|w|w]; try reflexivity.
    cbn in Hbelow. now destruct (Hx _ Hbelow) as (_ & _ & ->). }
  destruct (@workbenchesOf_spec tcfg h1 Hb1)
    as (w0 & hA & Hwo & Harr & _ & _ & HcA & HnA & _ & _ & _).
  exists (recorded s (nodes s) (edges s)).
  exists (mkHeap (comps hA)
                 (upd (confs hA) tcfg (set_workbench (confs hA tcfg) (WbMany w0)))
                 (upd (arrs hA) w0 (arrs hA w0 ++ [Some c])) (next hA)).
  exists c, w0.
  split.
  { unfold addNode. unfold bind at 1. rewrite Hcl, Htr, Hf.
    unfold bind at 1. unfold dropOnTarget, headerOf.
    unfold bind at 1. unfold bind at 1. unfold getComp at 1. unfold ret at 1.
    unfold bind at 1. unfold bind at 1. unfold getComp at 1. unfold ret at 1.
    rewrite Hhd, Hm, Htl, Htm, Hwb, Hc1.
    unfold headerAt in Hag, Hasst. rewrite Hag, Hasst. cbn [andb].
    unfold bind at 1. unfold addWorkbenchToAgent.
    unfold bind at 1. unfold getComp at 1. rewrite Hc1. fold tcfg.
    unfold bind at 1. rewrite Hwo.
    unfold bind, getArr, setArr, getConf, setConf, ret. reflexivity. }
  cbn [recorded nodes edges currentHistoryIndex comps confs arrs].
  split; [reflexivity|]. split; [reflexivity|]. split; [reflexivity|].
  split; [lia|]. unfold headerAt. cbn [comps].
  split; [now rewrite HcA|].
  rewrite HcA, Hc1. fold tcfg. rewrite !upd_same. cbn [workbench set_workbench].
  split; [reflexivity|]. split; [now rewrite Harr, Hl1|].
  intros l Hl. now destruct (Hx _ Hl) as (-> & _).
Qed.

(** X19.  A team component, or a workbench component, added without a
    target: the layout is run on the graph with one more node (a fresh
    id, the given position, the clone as its component, the label or
    ["Team"] / ["Workbench"]) and the same edges, also when the graph has
    a team node already. *)
Theorem addNode_team_or_workbench
    (ids : nat -> string) (pos : Position) (comp : CTree)
    (s : TeamBuilderState) (h : Heap) :
  (isTeamComponent (treeHeader comp) = true \/
   isTeamComponent (treeHeader comp) = false /\
   isAgentComponent (treeHeader comp) = false /\
   isWorkbenchComponent (treeHeader comp) = true) ->
  exists s' h' c,
    addNode ids pos comp "" s h = (Ok s', h') /\
    extends h h' /\ (next h <= c)%nat /\
    headerAt h' c = treeHeader comp /\
    (nodes s', edges s')
    = getLayoutedElements h'
        (nodes s ++
         [mkNode (ids 0%nat) pos (component_type (treeHeader comp))
            (mkNodeData
               (Some (JS.or_lit (label (treeHeader comp))
                        (if isTeamComponent (treeHeader comp)
                         then "Team" else "Workbench")))
               c (component_type (treeHeader comp)))])
        (edges s) (teamIdArg s) None /\
    currentHistoryIndex s' = currentHistoryIndex s + 1.
Proof.
  intros Hk.
  destruct (clone_spec comp h)
    as (c & h1 & Hcl & Hx & Hcb & Hhd & _).
  destruct Hk as [Ht|(Ht & Ha & Hw)];
    eexists _, h1, c; unfold addNode; unfold bind at 1; rewrite Hcl;
    cbn [JS.truthy String.eqb negb]; unfold addNodeTail;
    unfold bind at 1; unfold placeComponent;
    unfold bind at 1; unfold getComp at 1; rewrite Hhd, Ht;
    [|rewrite Ha, Hw];
    unfold ret at 1; unfold bind at 1; unfold getHeap at 1;
    cbn [JS.truthy String.eqb negb]; unfold ret;
    (split; [reflexivity|]); (split; [assumption|]); (split; [lia|]);
    (split; [exact Hhd|]);
    cbn [recorded nodes edges currentHistoryIndex fst snd];
    (split; [|reflexivity]); unfold newNodeFor; symmetry;
    apply surjective_pairing.
Qed.

(** X20.  Without a target, [addNode] adds nothing when the component is
    an agent and no node shows a team, or when it is none of team, agent
    and workbench: the layout is run on the nodes and edges as they are,
    and a snapshot is recorded all the same. *)
Theorem addNode_adds_nothing
    (ids : nat -> string) (pos : Position) (comp : CTree)
    (s : TeamBuilderState) (h : Heap) :
  isTeamComponent (treeHeader comp) = false ->
  (isAgentComponent (treeHeader comp) = true /\
   (forall n, In n (nodes s) ->
      (component n < next h)%nat /\
      isTeamComponent (headerAt h (component n)) = false)) \/
  (isAgentComponent (treeHeader comp) = false /\
   isWorkbenchComponent (treeHeader comp) = false) ->
  exists s' h',
    addNode ids pos comp "" s h = (Ok s', h') /\
    extends h h' /\
    (nodes s', edges s')
    = getLayoutedElements h' (nodes s) (edges s) (teamIdArg s) None /\
    currentHistoryIndex s' = currentHistoryIndex s + 1.
Proof.
  intros Ht Hk.
  destruct (clone_spec comp h)
    as (c & h1 & Hcl & Hx & Hcb & Hhd & _).
  destruct Hk as [(Ha & Hns)|(Ha & Hw)];
    eexists _, h1; unfold addNode; unfold bind at 1; rewrite Hcl;
    cbn [JS.truthy String.eqb negb]; unfold addNodeTail;
    unfold bind at 1; unfold placeComponent;
    unfold bind at 1; unfold getComp at 1; rewrite Hhd, Ht.
  - rewrite Ha. unfold bind at 1. unfold getHeap at 1.
    replace (find (fun n => isTeamComponent (headerAt h1 (component n))) (nodes s))
      with (@None CustomNode).
    2:{ symmetry. apply find_none_all. intros n Hn.
        destruct (Hns n Hn) as [Hb Hnt]. unfold headerAt in *.
        destruct Hx as [_ Hx]. destruct (Hx _ Hb) as (-> & _). exact Hnt. }
    unfold ret at 1. unfold bind at 1. unfold getHeap at 1. unfold ret.
    split; [reflexivity|]. split; [assumption|].
    cbn [recorded nodes edges currentHistoryIndex fst snd].
    split; [|reflexivity]. symmetry. apply surjective_pairing.
  - rewrite Ha, Hw. unfold ret at 1. unfold bind at 1. unfold getHeap at 1.
    unfold ret.
    split; [reflexivity|]. split; [assumption|].
    cbn [recorded nodes edges currentHistoryIndex fst snd].
    split; [|reflexivity]. symmetry. apply surjective_pairing.
Qed.

(** A drop that no branch takes falls through to the end of [addNode]. *)
Lemma dropOnTarget_rejects tgt targetNode cloned s h :
  accepts (headerAt h cloned) (headerAt h (component targetNode)) = false ->
  dropOnTarget tgt targetNode cloned s h = (Ok None, h).
Proof.
  unfold accepts, headerAt. intros H.
  unfold dropOnTarget, headerOf, bind, getComp, ret.
  destruct (isModelComponent (header (comps h cloned))).
  - apply orb_false_iff in H. destruct H as [-> ->]. reflexivity.
  - destruct (isToolComponent (header (comps h cloned))); [now rewrite H|].
    destruct (isTerminationComponent (header (comps h cloned))); [now rewrite H|].
    destruct (isWorkbenchComponent (header (comps h cloned))); [now rewrite H|].
    reflexivity.
Qed.

(** X21.  A component that is none of team, agent and workbench, dropped
    on a node that does not take it (a tool on a team, say): nothing is
    added and no object that was there before changes, but the node
    dimensions are updated and a snapshot is recorded. *)
Theorem addNode_rejected_drop
    (ids : nat -> string) (pos : Position) (comp : CTree) (tgt : string)
    (s : TeamBuilderState) (h : Heap) (targetNode : CustomNode) :
  JS.truthy tgt = true ->
  findNode tgt (nodes s) = Some targetNode ->
  (component targetNode < next h)%nat ->
  accepts (treeHeader comp) (headerAt h (component targetNode)) = false ->
  isTeamComponent (treeHeader comp) = false ->
  isAgentComponent (treeHeader comp) = false ->
  isWorkbenchComponent (treeHeader comp) = false ->
  exists s' h',
    addNode ids pos comp tgt s h = (Ok s', h') /\
    extends h h' /\
    (nodes s', edges s') = updateNodeDimensions h' (nodes s) (edges s) /\
    currentHistoryIndex s' = currentHistoryIndex s + 1.
Proof.
  intros Htr Hf Hc Hacc Ht Ha Hw.
  destruct (clone_spec comp h)
    as (c & h1 & Hcl & Hx & Hcb & Hhd & _).
  eexists _, h1. unfold addNode. unfold bind at 1. rewrite Hcl, Htr, Hf.
  unfold bind at 1. rewrite dropOnTarget_rejects.
  2:{ unfold headerAt in *. rewrite Hhd.
      destruct Hx as [_ Hx]. destruct (Hx _ Hc) as (-> & _). exact Hacc. }
  unfold addNodeTail. unfold bind at 1. unfold placeComponent.
  unfold bind at 1. unfold getComp at 1. rewrite Hhd, Ht, Ha, Hw.
  unfold ret at 1. unfold bind at 1. unfold getHeap at 1. rewrite Htr.
  unfold ret. split; [reflexivity|]. split; [assumption|].
  cbn [recorded nodes edges currentHistoryIndex fst snd].
  split; [|reflexivity]. symmetry. apply surjective_pairing.
Qed.

(** The name the new agent is left with. *)
Lemma placeComponent_agent_name ids pos cloned ns es h1 t a ps :
  isTeamComponent (headerAt h1 cloned) = false ->
  isAgentComponent (headerAt h1 cloned) = true ->
  find (fun n => isTeamComponent (headerAt h1 (component n))) ns = Some t ->
  participants (confs h1 (config (comps h1 (component t)))) = Some a ->
  arrs h1 a = map Some ps ->
  config (comps h1 (component t)) <> config (comps h1 cloned) ->
  exists g h3,
    placeComponent ids pos cloned ns es h1 = (Ok g, h3) /\
    comps h3 = comps h1 /\ next h3 = next h1 /\
    (forall l, l <> config (comps h1 cloned) -> confs h3 l = confs h1 l) /\
    name (confs h3 (config (comps h1 cloned)))
    = (if isAssistantAgent (headerAt h1 cloned)
       then Some (getUniqueName (name (confs h1 (config (comps h1 cloned))))
                                (namesOf h1 ps))
       else name (confs h1 (config (comps h1 cloned)))).
Proof.
  intros Hnt Hag Hfind Hp Ha Hne.
  assert (Hteam : isTeamComponent (header (comps h1 (component t))) = true).
  { apply find_some in Hfind. apply Hfind. }
  unfold headerAt in Hnt, Hag |- *.
  unfold placeComponent.
  unfold bind at 1. unfold getComp at 1. rewrite Hnt, Hag.
  unfold bind at 1. unfold getHeap at 1. rewrite Hfind.
  unfold bind at 1. unfold getComp at 1. rewrite Hteam.
  destruct (isAssistantAgent (header (comps h1 cloned))); cbn [andb].
  - unfold bind at 1. unfold bind at 1. unfold getConf at 1. rewrite Hp.
    unfold bind at 1. unfold getArr at 1. rewrite Ha.
    unfold bind at 1. rewrite mapM_participantName.
    unfold bind at 1. unfold getConf at 1. unfold setConf at 1.
    unfold bind at 1. unfold getConf at 1.
    unfold bind at 1.
    rewrite (@pushParticipant _ cloned a (map Some ps)).
    + unfold ret. eexists _, _. split; [reflexivity|].
      cbn [fst snd comps arrs confs next].
      split; [reflexivity|]. split; [reflexivity|]. split.
      * intros l Hl. now rewrite upd_other.
      * rewrite upd_same. reflexivity.
    + cbn [confs]. now rewrite upd_other.
    + exact Ha.
  - unfold bind at 1. unfold ret at 1.
    unfold bind at 1. unfold getConf at 1.
    unfold bind at 1.
    rewrite (@pushParticipant _ cloned a (map Some ps) h1 Hp Ha).
    unfold ret. eexists _, _. split; [reflexivity|].
    cbn [fst snd comps arrs confs next]. repeat split.
Qed.

(** X22.  An agent added to a graph with a team node: an assistant agent
    is renamed to [getUniqueName] of its name and the participants'
    names, which differs from each of them when [getUniqueName] returns
    a name outside its list; any other agent keeps its name.  The
    participants keep theirs. *)
Theorem addNode_agent_name
    (ids : nat -> string) (pos : Position) (comp : CTree) (tgt : string)
    (s : TeamBuilderState) (h : Heap) (t : CustomNode) (a : loc)
    (ps : list loc) :
  isTeamComponent (treeHeader comp) = false ->
  isAgentComponent (treeHeader comp) = true ->
  isModelComponent (treeHeader comp) = false ->
  isToolComponent (treeHeader comp) = false ->
  isTerminationComponent (treeHeader comp) = false ->
  isWorkbenchComponent (treeHeader comp) = false ->
  (JS.truthy tgt = false \/ findNode tgt (nodes s) <> None) ->
  nodesAllocated h s ->
  attachTeam h s = Some t ->
  participants (confs h (config (comps h (component t)))) = Some a ->
  (a < next h)%nat ->
  arrs h a = map Some ps ->
  (forall p, In p ps ->
     (p < next h)%nat /\ (config (comps h p) < next h)%nat) ->
  exists s' h' c,
    addNode ids pos comp tgt s h = (Ok s', h') /\
    (next h <= c)%nat /\ headerAt h' c = treeHeader comp /\
    namesOf h' ps = namesOf h ps /\
    name (confs h' (config (comps h' c)))
    = (if isAssistantAgent (treeHeader comp)
       then Some (getUniqueName (treeName comp) (namesOf h ps))
       else treeName comp) /\
    ((forall b names, ~ In (Some (getUniqueName b names)) names) ->
     isAssistantAgent (treeHeader comp) = true ->
     ~ In (name (confs h' (config (comps h' c)))) (namesOf h' ps)).
Proof.
  intros Hnt Hag Hnm Hntool Hnterm Hnwb Htgt Hal Hat Hp Halt Hps Hpsb.
  destruct (clone_spec comp h)
    as (c & h1 & Ecl & Hext & Hcr & Hhd & Hcfr & Hneq & Hname).
  assert (Hold : forall n, In n (nodes s) ->
            comps h1 (component n) = comps h (component n) /\
            confs h1 (config (comps h (component n)))
              = confs h (config (comps h (component n)))).
  { intros n Hin. exact (@extends_node h h1 s n Hal Hext Hin). }
  assert (Hint : In t (nodes s)).
  { unfold attachTeam in Hat. apply find_some in Hat. apply Hat. }
  destruct (Hold t Hint) as [Htc Htf].
  assert (Hfind1 : find (fun n => isTeamComponent (headerAt h1 (component n)))
                        (nodes s) = Some t).
  { rewrite (find_ext_in _ (fun n => isTeamComponent (headerAt h (component n))));
      [exact Hat|].
    intros n Hin. unfold headerAt. now rewrite (proj1 (Hold n Hin)). }
  assert (Ha1 : arrs h1 a = arrs h a) by (apply (proj2 Hext a Halt)).
  assert (Hne : config (comps h1 (component t)) <> config (comps h1 c)).
  { rewrite Htc. destruct (Hal t Hint) as [_ Hlt]. lia. }
  assert (Hnames1 : namesOf h1 ps = namesOf h ps).
  { unfold namesOf. apply map_ext_in. intros p Hin.
    destruct (Hpsb p Hin) as [Hb1 Hb2]. destruct Hext as [_ Hext].
    destruct (Hext _ Hb1) as (-> & _). now destruct (Hext _ Hb2) as (_ & -> & _). }
  destruct (@placeComponent_agent_name ids pos c (nodes s) (edges s) h1 t a ps)
    as (g & h3 & Epl & Hc3 & Hn3 & Hf3 & Hnm3); try assumption.
  { unfold headerAt. now rewrite Hhd. }
  { unfold headerAt. now rewrite Hhd. }
  { now rewrite Htc, Htf. }
  { now rewrite Ha1. }
  assert (Htail : exists s', addNodeTail ids pos c tgt s h1 = (Ok s', h3)).
  { unfold addNodeTail. unfold bind at 1. rewrite Epl.
    unfold bind at 1. unfold getHeap at 1.
    destruct (JS.truthy tgt); unfold ret; eexists; reflexivity. }
  destruct Htail as (s' & Etail).
  assert (Hadd : addNode ids pos comp tgt s h = (Ok s', h3)).
  { unfold addNode. unfold bind at 1. rewrite Ecl.
    destruct (JS.truthy tgt) eqn:Et; [|exact Etail].
    destruct Htgt as [Hf|Hsome]; [discriminate|].
    destruct (findNode tgt (nodes s)) as [targetNode|]; [|contradiction].
    unfold bind at 1. rewrite dropOnTarget_falls_through;
      [exact Etail| | | |]; unfold headerAt; now rewrite Hhd. }
  assert (Hnames3 : namesOf h3 ps = namesOf h ps).
  { rewrite <- Hnames1. unfold namesOf. apply map_ext_in. intros p Hin.
    destruct (Hpsb p Hin) as [Hb1 Hb2]. rewrite Hc3.
    rewrite Hf3; [reflexivity|].
    destruct Hext as [_ Hext]. destruct (Hext _ Hb1) as (-> & _). lia. }
  assert (Hres : name (confs h3 (config (comps h3 c)))
                 = (if isAssistantAgent (treeHeader comp)
                    then Some (getUniqueName (treeName comp) (namesOf h ps))
                    else treeName comp)).
  { rewrite Hc3, Hnm3. unfold headerAt. rewrite Hhd, Hname, Hnames1.
    reflexivity. }
  exists s', h3, c.
  split; [exact Hadd|]. split; [lia|].
  split; [unfold headerAt; now rewrite Hc3|].
  split; [exact Hnames3|]. split; [exact Hres|].
  intros Hfresh Hasst. rewrite Hres, Hasst, Hnames3. apply Hfresh.
Qed.

End Drops.

Lemma loaded_team_allocated :
  (component Loaded.teamNode < next (hp Run.loaded))%nat /\
  (config (comps (hp Run.loaded) (component Loaded.teamNode))
   < next (hp Run.loaded))%nat.
Proof. apply loaded_allocated. left. reflexivity. Qed.

Lemma loaded_agent_allocated :
  (component Loaded.agentNode < next (hp Run.loaded))%nat /\
  (config (comps (hp Run.loaded) (component Loaded.agentNode))
   < next (hp Run.loaded))%nat.
Proof. apply loaded_allocated. right. left. reflexivity. Qed.

Lemma addNode_model_onto_target_witness :
  let s := st Run.loaded in
  let h := hp Run.loaded in
  exists s' h' c,
    addNode (env := Sample.env) (Sample.idsFrom "m") origin
            (Sample.model "gpt") "n" s h = (Ok s', h') /\
    nodes s' = nodes s /\ edges s' = edges s /\
    currentHistoryIndex s' = currentHistoryIndex s + 1 /\
    (next h <= c)%nat /\ headerAt h' c = treeHeader (Sample.model "gpt") /\
    confs h' (config (comps h (component Loaded.teamNode)))
    = set_model_client (confs h (config (comps h (component Loaded.teamNode))))
                       (Some c) /\
    forall l, (l < next h)%nat ->
      comps h' l = comps h l /\ arrs h' l = arrs h l /\
      (l <> config (comps h (component Loaded.teamNode)) ->
       confs h' l = confs h l).
Proof.
  exact (@addNode_model_onto_target Sample.env (Sample.idsFrom "m") origin
           (Sample.model "gpt") "n" (st Run.loaded) (hp Run.loaded)
           Loaded.teamNode eq_refl eq_refl eq_refl
           (proj1 loaded_team_allocated) (proj2 loaded_team_allocated)
           eq_refl).
Defined.

Lemma addNode_termination_onto_team_witness :
  let s := st Run.loaded in
  let h := hp Run.loaded in
  exists s' h' c,
    addNode (env := Sample.env) (Sample.idsFrom "t") origin
            Loaded.maxMessages "n" s h = (Ok s', h') /\
    extends h h' /\
    (next h <= c)%nat /\ headerAt h' c = treeHeader Loaded.maxMessages /\
    Forall2 (withTerminationAs "n" c h h') (nodes s) (nodes s') /\
    edges s' = edges s /\
    currentHistoryIndex s' = currentHistoryIndex s + 1.
Proof.
  exact (@addNode_termination_onto_team Sample.env (Sample.idsFrom "t") origin
           Loaded.maxMessages "n" (st Run.loaded) (hp Run.loaded)
           Loaded.teamNode eq_refl eq_refl eq_refl eq_refl eq_refl eq_refl
           loaded_allocated).
Defined.

Lemma addNode_workbench_onto_agent_witness :
  let s := st Run.loaded in
  let h := hp Run.loaded in
  exists s' h' c wa,
    addNode (env := Sample.env) (Sample.idsFrom "w") origin
            Sample.workbenchNode "ni" s h = (Ok s', h') /\
    nodes s' = nodes s /\ edges s' = edges s /\
    currentHistoryIndex s' = currentHistoryIndex s + 1 /\
    (next h <= c)%nat /\ headerAt h' c = treeHeader Sample.workbenchNode /\
    workbench (agentConfig h' Loaded.agentNode) = WbMany wa /\
    arrs h' wa = workbenchList h (agentConfig h Loaded.agentNode) ++ [Some c] /\
    (forall l, (l < next h)%nat -> comps h' l = comps h l).
Proof.
  exact (@addNode_workbench_onto_agent Sample.env (Sample.idsFrom "w") origin
           Sample.workbenchNode "ni" (st Run.loaded) (hp Run.loaded)
           Loaded.agentNode eq_refl eq_refl eq_refl eq_refl eq_refl eq_refl
           eq_refl eq_refl
           (proj1 loaded_agent_allocated) (proj2 loaded_agent_allocated) I).
Defined.

Lemma addNode_team_or_workbench_witness :
  let s := st Run.loaded in
  let h := hp Run.loaded in
  exists s' h' c,
    addNode (env := Sample.env) (Sample.idsFrom "w") origin
            Sample.workbenchNode "" s h = (Ok s', h') /\
    extends h h' /\ (next h <= c)%nat /\
    headerAt h' c = treeHeader Sample.workbenchNode /\
    (nodes s', edges s')
    = getLayoutedElements (Env := Sample.env) h'
        (nodes s ++
         [mkNode "w" origin "workbench"
            (mkNodeData (Some "MCP") c "workbench")])
        (edges s) (teamIdArg s) None /\
    currentHistoryIndex s' = currentHistoryIndex s + 1.
Proof.
  exact (@addNode_team_or_workbench Sample.env (Sample.idsFrom "w") origin
           Sample.workbenchNode (st Run.loaded) (hp Run.loaded)
           (or_intror (conj eq_refl (conj eq_refl eq_refl)))).
Defined.

Lemma addNode_adds_nothing_witness :
  let s := st Run.loaded in
  let h := hp Run.loaded in
  exists s' h',
    addNode (env := Sample.env) (Sample.idsFrom "x") origin
            (Sample.tool "search") "" s h = (Ok s', h') /\
    extends h h' /\
    (nodes s', edges s')
    = getLayoutedElements (Env := Sample.env) h' (nodes s) (edges s)
                          (teamIdArg s) None /\
    currentHistoryIndex s' = currentHistoryIndex s + 1.
Proof.
  exact (@addNode_adds_nothing Sample.env (Sample.idsFrom "x") origin
           (Sample.tool "search") (st Run.loaded) (hp Run.loaded)
           eq_refl (or_intror (conj eq_refl eq_refl))).
Defined.

Lemma addNode_rejected_drop_witness :
  let s := st Run.loaded in
  let h := hp Run.loaded in
  exists s' h',
    addNode (env := Sample.env) (Sample.idsFrom "x") origin
            (Sample.tool "search") "n" s h = (Ok s', h') /\
    extends h h' /\
    (nodes s', edges s')
    = updateNodeDimensions (Env := Sample.env) h' (nodes s) (edges s) /\
    currentHistoryIndex s' = currentHistoryIndex s + 1.
Proof.
  exact (@addNode_rejected_drop Sample.env (Sample.idsFrom "x") origin
           (Sample.tool "search") "n" (st Run.loaded) (hp Run.loaded)
           Loaded.teamNode eq_refl eq_refl (proj1 loaded_team_allocated)
           eq_refl eq_refl eq_refl eq_refl).
Defined.

Lemma loaded_array_allocated : (2 < next (hp Run.loaded))%nat.
Proof. vm_compute. lia. Qed.

Lemma loaded_participants_allocated (p : loc) :
  In p [1%nat] ->
  (p < next (hp Run.loaded))%nat /\
  (config (comps (hp Run.loaded) p) < next (hp Run.loaded))%nat.
Proof. intros [<-|[]]. vm_compute. split; lia. Qed.

Lemma addNode_agent_name_witness :
  let s := st Run.loaded in
  let h := hp Run.loaded in
  exists s' h' c,
    addNode (env := Sample.env) (Sample.idsFrom "p") origin
            (Sample.assistant "a") "" s h = (Ok s', h') /\
    (next h <= c)%nat /\ headerAt h' c = treeHeader (Sample.assistant "a") /\
    namesOf h' [1%nat] = namesOf h [1%nat] /\
    name (confs h' (config (comps h' c))) = Some "a_a" /\
    ((forall b names,
        ~ In (Some (getUniqueName (Env := Sample.env) b names)) names) ->
     isAssistantAgent (Env := Sample.env) (treeHeader (Sample.assistant "a"))
     = true ->
     ~ In (name (confs h' (config (comps h' c)))) (namesOf h' [1%nat])).
Proof.
  exact (@addNode_agent_name Sample.env (Sample.idsFrom "p") origin
           (Sample.assistant "a") "" (st Run.loaded) (hp Run.loaded)
           Loaded.teamNode 2%nat [1%nat]
           eq_refl eq_refl eq_refl eq_refl eq_refl eq_refl
           (or_introl eq_refl) loaded_allocated eq_refl eq_refl
           loaded_array_allocated eq_refl
           loaded_participants_allocated).
Defined.

(** ** The configuration read back *)

Section Syncing.

Context {env : Env}.

(** [edgeAgents] reads the heap only for the headers of the nodes'
    components. *)
Lemma edgeAgents_heap h h' t ns es :
  (forall n, In n ns -> headerAt h' (component n) = headerAt h (component n)) ->
  edgeAgents h' t ns es = edgeAgents h t ns es.
Proof.
  intros H. rewrite !edgeAgents_keys. apply edgeAgentsK_ext.
  intros ek _. apply agentOfK_heap. intros nk Hin.
  apply in_map_iff in Hin. destruct Hin as (n & <- & Hin). now apply H.
Qed.

Lemma copiedHeap_header h t n :
  (component n < next h)%nat ->
  headerAt (copiedHeap h t) (component n) = headerAt h (component n).
Proof.
  intros Hlt. unfold headerAt, copiedHeap. cbn [comps].
  rewrite upd_other by lia. reflexivity.
Qed.

Lemma syncHeap_header h t ns es l :
  (l < next h)%nat ->
  headerAt (syncHeap h t ns es) l = headerAt h l.
Proof.
  intros Hlt. unfold headerAt, syncHeap, copiedHeap. cbn [comps].
  rewrite upd_other by lia. reflexivity.
Qed.

(** X23.  [syncToJson] does not throw, and called twice it returns twice
    the same: [null] both times (and no object changes), or two distinct
    new component objects with the same header, the same config object
    and equal participants. *)
Theorem syncToJson_twice (s : TeamBuilderState) (h : Heap) :
  (forall n, In n (nodes s) -> (component n < next h)%nat) ->
  exists r h1,
    syncToJson s h = (Ok r, h1) /\
    match r with
    | None => h1 = h /\ syncToJson s h1 = (Ok None, h1)
    | Some c1 =>
        exists c2 h2,
          syncToJson s h1 = (Ok (Some c2), h2) /\
          c1 <> c2 /\
          headerAt h2 c2 = headerAt h1 c1 /\
          config (comps h2 c2) = config (comps h1 c1) /\
          participantsOf h2 c2 = participantsOf h1 c1 /\
          participantsOf h2 c1 = participantsOf h2 c2
    end.
Proof.
  intros Hal. rewrite syncToJson_result.
  destruct (firstTeamNode h (nodes s)) as [t|] eqn:Ef.
  - assert (Hin : In t (nodes s)).
    { unfold firstTeamNode in Ef. apply find_some in Ef. apply Ef. }
    destruct (isTeamComponent (headerAt h (component t))) eqn:Et.
    + eexists _, _. split; [reflexivity|].
      set (h1 := syncHeap h t (nodes s) (edges s)).
      assert (Hh1 : forall n, In n (nodes s) ->
                headerAt h1 (component n) = headerAt h (component n)).
      { intros n Hn. apply syncHeap_header. now apply Hal. }
      assert (Ef1 : firstTeamNode h1 (nodes s) = Some t).
      { unfold firstTeamNode in *. rewrite <- Ef. apply find_ext_in.
        intros n Hn. now rewrite Hh1. }
      exists (next h1), (syncHeap h1 t (nodes s) (edges s)).
      rewrite syncToJson_result, Ef1, (Hh1 t Hin), Et.
      split; [reflexivity|].
      destruct (syncHeap_returned h t (nodes s) (edges s)) as [Hr1 Hp1].
      destruct (syncHeap_returned h1 t (nodes s) (edges s)) as [Hr2 Hp2].
      fold h1 in Hr1, Hp1.
      assert (Ea : edgeAgents (copiedHeap h1 t) t (nodes s) (edges s)
                   = edgeAgents (copiedHeap h t) t (nodes s) (edges s)).
      { apply edgeAgents_heap. intros n Hn.
        rewrite !copiedHeap_header; [now apply Hh1|now apply Hal|].
        unfold h1, syncHeap. cbn [next]. specialize (Hal n Hn). lia. }
      assert (Hn1 : next h1 = S (S (next h))) by reflexivity.
      assert (Hcfg : config (comps (syncHeap h1 t (nodes s) (edges s)) (next h1))
                     = config (comps h1 (next h))).
      { unfold syncHeap at 1, copiedHeap. cbn [comps]. rewrite upd_same.
        cbn [config]. unfold h1 at 1 2, syncHeap, copiedHeap. cbn [comps next].
        rewrite upd_other by (specialize (Hal t Hin); lia).
        rewrite upd_same. reflexivity. }
      split; [lia|]. split; [now rewrite Hr2, Hr1, (Hh1 t Hin)|].
      split; [exact Hcfg|].
      split; [now rewrite Hp2, Hp1, Ea|].
      assert (Hcomp : comps (syncHeap h1 t (nodes s) (edges s)) (next h)
                      = comps h1 (next h)).
      { unfold syncHeap at 1, copiedHeap. cbn [comps].
        rewrite upd_other by lia. reflexivity. }
      unfold participantsOf. rewrite Hcfg, Hcomp. reflexivity.
    + eexists _, _. split; [reflexivity|]. split; [reflexivity|].
      now rewrite syncToJson_result, Ef, Et.
  - eexists _, _. split; [reflexivity|]. split; [reflexivity|].
    now rewrite syncToJson_result, Ef.
Qed.

(** X24.  The participants [syncToJson] returns are the components of the
    agent nodes that agent-connection edges lead to from the first team
    node, and nothing else: no [null], no component of a node that is not
    an agent, none reached only from another node. *)
Theorem syncToJson_lists_connected_agents (s : TeamBuilderState) (h : Heap)
    (r : loc) (h' : Heap) :
  (forall n, In n (nodes s) -> (component n < next h)%nat) ->
  syncToJson s h = (Ok (Some r), h') ->
  exists t ps,
    firstTeamNode h (nodes s) = Some t /\
    participantsOf h' r = Some (map Some ps) /\
    forall c, In c ps <->
      exists e n,
        In e (edges s) /\ source e = nid t /\ isAgentConnection e = true /\
        findNode (target e) (nodes s) = Some n /\
        isAgentComponent (headerAt h (component n)) = true /\
        c = component n.
Proof.
  intros Hal H. rewrite syncToJson_result in H.
  destruct (firstTeamNode h (nodes s)) as [t|] eqn:Ef; [|discriminate].
  destruct (isTeamComponent (headerAt h (component t))); [|discriminate].
  injection H as <- <-.
  exists t, (edgeAgents h t (nodes s) (edges s)).
  split; [reflexivity|]. split.
  - rewrite (proj2 (syncHeap_returned h t (nodes s) (edges s))).
    do 2 f_equal. apply edgeAgents_heap. intros n Hn.
    apply copiedHeap_header. now apply Hal.
  - intros c. unfold edgeAgents, participantEdges. rewrite in_flat_map.
    split.
    + intros (e & He & Hc). apply filter_In in He. destruct He as [He Hb].
      apply andb_true_iff in Hb. destruct Hb as [Hs Hac].
      apply String.eqb_eq in Hs. unfold agentOf in Hc.
      destruct (findNode (target e) (nodes s)) as [n|] eqn:En; [|destruct Hc].
      destruct (isAgentComponent (headerAt h (component n))) eqn:Eg;
        [|destruct Hc].
      destruct Hc as [<-|[]]. exists e, n. repeat split; assumption.
    + intros (e & n & He & Hs & Hac & En & Eg & ->). exists e. split.
      * apply filter_In. split; [assumption|].
        rewrite Hs, String.eqb_refl, Hac. reflexivity.
      * unfold agentOf. rewrite En, Eg. now left.
Qed.

End Syncing.

Lemma syncToJson_twice_witness :
  let s := st Run.loaded in
  let h := hp Run.loaded in
  exists r h1,
    syncToJson (env := Sample.env) s h = (Ok r, h1) /\
    match r with
    | None => h1 = h /\ syncToJson (env := Sample.env) s h1 = (Ok None, h1)
    | Some c1 =>
        exists c2 h2,
          syncToJson (env := Sample.env) s h1 = (Ok (Some c2), h2) /\
          c1 <> c2 /\
          headerAt h2 c2 = headerAt h1 c1 /\
          config (comps h2 c2) = config (comps h1 c1) /\
          participantsOf h2 c2 = participantsOf h1 c1 /\
          participantsOf h2 c1 = participantsOf h2 c2
    end.
Proof.
  exact (@syncToJson_twice Sample.env (st Run.loaded) (hp Run.loaded)
           (fun n Hn => proj1 (@loaded_allocated n Hn))).
Defined.

Lemma syncToJson_lists_connected_agents_witness :
  let s := st Run.loaded in
  let h := hp Run.loaded in
  let h' := hp (Run.act [SyncToJson] Run.loaded) in
  exists t ps,
    firstTeamNode h (nodes s) = Some t /\
    participantsOf h' 5%nat = Some (map Some ps) /\
    forall c, In c ps <->
      exists e n,
        In e (edges s) /\ source e = nid t /\ isAgentConnection e = true /\
        findNode (target e) (nodes s) = Some n /\
        isAgentComponent (Env := Sample.env) (headerAt h (component n)) = true /\
        c = component n.
Proof.
  exact (@syncToJson_lists_connected_agents Sample.env
           (st Run.loaded) (hp Run.loaded) 5%nat
           (hp (Run.act [SyncToJson] Run.loaded))
           (fun n Hn => proj1 (@loaded_allocated n Hn)) eq_refl).
Defined.
